(** * GroupTherapy radio: schedule lookup, metadata resolution, SSE fan-out,
      client playback reconciler and JWT sessions

    A shallow embedding of the radio synchronisation code of the repository
    (server/storage.ts, server/routes.ts, server/auth.ts and the client's
    RadioProvider) together with the properties its specification states.

    Conventions
    - timestamps are integers: milliseconds since the epoch for [Date]
      values, seconds for JWT claims;
    - [Math.floor (x / 1000)] on integral milliseconds is [x / 1000] on [Z]
      (floor division);
    - the audio element's [currentTime] and [volume] are doubles in the
      browser; they are rationals here, and the one subtraction the code
      makes on them, in the drift test, is rounded to the nearest double
      ([to_double]);
    - a callback reads the state of the render that created it and writes
      the state of the moment: the handlers below take both;
    - [Math.random ()] draws and database-generated identifiers are side
      inputs of the handlers;
    - an [await]ed storage call is a plain function call on the database
      value: every handler runs atomically, and reading a table cannot
      fail (the handlers' answer to a failing database, status 500 or 400,
      is only reached through the throws modelled here). *)

From Stdlib Require Import ZArith List String Bool Lia QArith Qabs.
From Stdlib Require Import Qround Qpower Lqa.
From Stdlib Require Import Permutation Sorted.
Import ListNotations.
Open Scope string_scope.
Open Scope list_scope.
Open Scope Z_scope.

(** ** Results of calls that may throw *)

Inductive Result (A : Type) : Type :=
| Ok (value : A)
| Throw (message : string).
Arguments Ok {A} value.
Arguments Throw {A} message.

(** ** Table rows *)

Module Schema.

(** Modelled from the spec: the row types of [@shared/schema], which is
    imported by the storage layer but is not among the sources.  The fields
    are those of the spec's data model (Asset, ScheduleItem), which are also
    the only fields the routes read. *)
Record RadioAsset : Type := {
  asset_id : string;
  asset_title : string;
  asset_artist : string;
  audioUrl : string;
  durationSeconds : Z
}.

Record RadioShow : Type := {
  show_id : string;
  show_title : string;
  show_hostName : string
}.

Record RadioScheduleItem : Type := {
  schedule_id : string;
  assetId : string;
  showId : option string;
  scheduledStart : Z;
  scheduledEnd : Z
}.

(** [InsertRadioSchedule]: a row without its generated identifier. *)
Record InsertRadioSchedule : Type := {
  ins_assetId : string;
  ins_showId : option string;
  ins_scheduledStart : Z;
  ins_scheduledEnd : Z
}.

(** [Partial<RadioScheduleItem>]: every column optional, the identifier
    included. *)
Record PartialRadioScheduleItem : Type := {
  upd_id : option string;
  upd_assetId : option string;
  upd_showId : option (option string);
  upd_scheduledStart : option Z;
  upd_scheduledEnd : option Z
}.

End Schema.
Export Schema.

(** ** server/storage.ts: the radio tables of [DatabaseStorage] *)

Module Storage.

Record Database : Type := {
  radioAssets : list RadioAsset;
  radioShows : list RadioShow;
  radioSchedule : list RadioScheduleItem
}.

(** drizzle's comparison operators on timestamps *)
Definition lte (column value : Z) : bool := column <=? value.
Definition gte (column value : Z) : bool := value <=? column.

(** [const [row] = await db.select () ...; return row || undefined] *)
Definition first_row {A : Type} (rows : list A) : option A := hd_error rows.

Definition getRadioAssetById (d : Database) (id : string) : option RadioAsset :=
  first_row (filter (fun a => String.eqb (asset_id a) id) (radioAssets d)).

Definition getRadioShowById (d : Database) (id : string) : option RadioShow :=
  first_row (filter (fun s => String.eqb (show_id s) id) (radioShows d)).

Definition getRadioScheduleById (d : Database) (id : string)
  : option RadioScheduleItem :=
  first_row (filter (fun r => String.eqb (schedule_id r) id) (radioSchedule d)).

(** [.orderBy (desc (radioSchedule.scheduledStart))]: an insertion sort, the
    later start first.  Rows with equal starts keep their table order; the
    database promises no order among them, and the table order is arbitrary. *)
Fixpoint insert_desc (x : RadioScheduleItem) (rows : list RadioScheduleItem)
  : list RadioScheduleItem :=
  match rows with
  | [] => [x]
  | y :: rows' =>
      if scheduledStart y <=? scheduledStart x
      then x :: y :: rows'
      else y :: insert_desc x rows'
  end.

Definition orderBy_desc_scheduledStart (rows : list RadioScheduleItem)
  : list RadioScheduleItem :=
  fold_right insert_desc [] rows.

(** The [where] clause of [getCurrentScheduledItem]:
    [and (lte (scheduledStart, now), gte (scheduledEnd, now))]. *)
Definition active_at (now : Z) (r : RadioScheduleItem) : bool :=
  lte (scheduledStart r) now && gte (scheduledEnd r) now.

(** [getCurrentScheduledItem]; [now] is the [new Date ()] it reads. *)
Definition getCurrentScheduledItem (d : Database) (now : Z)
  : option RadioScheduleItem :=
  first_row
    (firstn 1
       (orderBy_desc_scheduledStart (filter (active_at now) (radioSchedule d)))).

(** [getAllRadioSchedule] *)
Definition getAllRadioSchedule (d : Database) : list RadioScheduleItem :=
  orderBy_desc_scheduledStart (radioSchedule d).

Definition with_schedule (d : Database) (rows : list RadioScheduleItem)
  : Database :=
  {| radioAssets := radioAssets d;
     radioShows := radioShows d;
     radioSchedule := rows |}.

(** [createRadioSchedule]: [insert ... values (schedule) returning ()]; the
    identifier the database generates is the side input [newId]. *)
Definition createRadioSchedule (d : Database) (schedule : InsertRadioSchedule)
  (newId : string) : Database * RadioScheduleItem :=
  let newSchedule :=
    {| schedule_id := newId;
       assetId := ins_assetId schedule;
       showId := ins_showId schedule;
       scheduledStart := ins_scheduledStart schedule;
       scheduledEnd := ins_scheduledEnd schedule |} in
  (with_schedule d (radioSchedule d ++ [newSchedule]), newSchedule).

Definition or_default {A : Type} (o : option A) (a : A) : A :=
  match o with Some x => x | None => a end.

(** [.set (update)]: the columns the update gives.  drizzle drops the
    absent ones and refuses an update that gives none. *)
Definition is_given {A : Type} (o : option A) : bool :=
  match o with Some _ => true | None => false end.

Definition has_values (update : PartialRadioScheduleItem) : bool :=
  is_given (upd_id update) || is_given (upd_assetId update)
  || is_given (upd_showId update) || is_given (upd_scheduledStart update)
  || is_given (upd_scheduledEnd update).

(** [.set (update)] on one row *)
Definition apply_update (update : PartialRadioScheduleItem)
  (r : RadioScheduleItem) : RadioScheduleItem :=
  {| schedule_id := or_default (upd_id update) (schedule_id r);
     assetId := or_default (upd_assetId update) (assetId r);
     showId := or_default (upd_showId update) (showId r);
     scheduledStart := or_default (upd_scheduledStart update) (scheduledStart r);
     scheduledEnd := or_default (upd_scheduledEnd update) (scheduledEnd r) |}.

(** [updateRadioSchedule]: [.set] throws on an update without values, before
    any row is looked at; the function itself throws when no row has the
    identifier.  The constraints of the table are not among the sources and
    are not modelled: an update that gives a row another identifier is
    carried out as written. *)
Definition updateRadioSchedule (d : Database) (id : string)
  (update : PartialRadioScheduleItem) : Result (Database * RadioScheduleItem) :=
  if has_values update then
    let hit := fun r => String.eqb (schedule_id r) id in
    let rows := map (fun r => if hit r then apply_update update r else r)
                    (radioSchedule d) in
    match first_row (map (apply_update update) (filter hit (radioSchedule d))) with
    | Some updated => Ok (with_schedule d rows, updated)
    | None => Throw "Radio schedule not found"
    end
  else Throw "No values to set".

(** [deleteRadioSchedule]: deleting an absent identifier is silent. *)
Definition deleteRadioSchedule (d : Database) (id : string) : Database :=
  with_schedule d
    (filter (fun r => negb (String.eqb (schedule_id r) id)) (radioSchedule d)).

End Storage.
Export Storage.

(** ** server/routes.ts: radio metadata, the SSE registry, schedule routes *)

Module Routes.

Definition DEMO_STREAM_URL : string := "https://stream.zeno.fm/yn65fsaurfhvv".

(** *** Payloads *)

(** The payload of one [data:] event. *)
Inductive SSEData : Type :=
| StateScheduled (currentAsset : RadioAsset) (streamUrl : string)
    (startedAt : Z) (positionSeconds : Z)
| StateLive (streamUrl : string)
| ScheduleUpdate (scheduleItem : RadioScheduleItem) (asset : option RadioAsset)
| ScheduleDeleted (scheduleId : string).

(** What is written on a connection: an event or the heartbeat comment. *)
Inductive Frame : Type :=
| DataFrame (data : SSEData)
| HeartbeatFrame.

Record DemoTrack : Type := {
  demo_title : string;
  demo_artist : string;
  demo_showName : string;
  demo_hostName : string
}.

Record ScheduledMetadata : Type := {
  sm_currentAsset : RadioAsset;
  sm_streamUrl : string;
  sm_startedAt : Z;
  sm_durationSeconds : Z;
  sm_positionSeconds : Z;
  sm_showName : option string;
  sm_hostName : option string;
  sm_listenerCount : Z
}.

Record LiveMetadata : Type := {
  lm_track : DemoTrack;
  lm_streamUrl : string;
  lm_listenerCount : Z
}.

Inductive Json : Type :=
| JMetadataScheduled (payload : ScheduledMetadata)
| JMetadataLive (payload : LiveMetadata)
| JScheduleItem (item : RadioScheduleItem)
| JMessage (message : string).

Record HttpResponse : Type := {
  status : Z;
  body : Json
}.

(** [res.json (x)] and [res.status (c).json ({ message })] *)
Definition json (j : Json) : HttpResponse := {| status := 200; body := j |}.
Definition fail (code : Z) (message : string) : HttpResponse :=
  {| status := code; body := JMessage message |}.

(** The [isScheduled] field of a metadata body. *)
Definition isScheduled_of (j : Json) : option bool :=
  match j with
  | JMetadataScheduled _ => Some true
  | JMetadataLive _ => Some false
  | _ => None
  end.

Definition positionSeconds_of (j : Json) : option Z :=
  match j with
  | JMetadataScheduled p => Some (sm_positionSeconds p)
  | _ => None
  end.

(** *** The registry of connections *)

(** A connected [Response].  [client_id] is the object's identity;
    [write_throws] says whether [write] throws on it; [written] is what was
    written so far, oldest first. *)
Record Client : Type := {
  client_id : nat;
  write_throws : bool;
  written : list Frame
}.

(** [client.write (message)] *)
Definition write (f : Frame) (c : Client) : Result Client :=
  if write_throws c
  then Throw "write after end"
  else Ok {| client_id := client_id c;
             write_throws := write_throws c;
             written := written c ++ [f] |}.

(** [sseClients.forEach ((client) => { client.write (message) })]: a [Set]
    is visited in insertion order, and an exception thrown by the callback
    ends the visit and leaves [forEach]. *)
Fixpoint forEach_write (f : Frame) (clients : list Client)
  : list Client * Result unit :=
  match clients with
  | [] => ([], Ok tt)
  | c :: rest =>
      match write f c with
      | Throw m => (c :: rest, Throw m)
      | Ok c' =>
          let (rest', r) := forEach_write f rest in
          (c' :: rest', r)
      end
  end.

Definition broadcastToSSEClients (data : SSEData) (sseClients : list Client)
  : list Client * Result unit :=
  forEach_write (DataFrame data) sseClients.

(** [sseClients.add (res)] and [sseClients.delete (res)] *)
Definition has_client (id : nat) (sseClients : list Client) : bool :=
  existsb (fun c => Nat.eqb (client_id c) id) sseClients.

Definition Set_add (res : Client) (sseClients : list Client) : list Client :=
  if has_client (client_id res) sseClients then sseClients
  else sseClients ++ [res].

Definition Set_delete (id : nat) (sseClients : list Client) : list Client :=
  filter (fun c => negb (Nat.eqb (client_id c) id)) sseClients.

(** [res.write (...)] inside a [try]: a throw is logged and dropped. *)
Definition try_write_to (id : nat) (f : Frame) (sseClients : list Client)
  : list Client :=
  map (fun c =>
         if Nat.eqb (client_id c) id
         then match write f c with Ok c' => c' | Throw _ => c end
         else c)
      sseClients.

Record ServerState : Type := {
  db : Database;
  sseClients : list Client
}.

(** *** GET /api/radio/metadata *)

Definition demoTracks : list DemoTrack :=
  [ {| demo_title := "Midnight Drive"; demo_artist := "Luna Wave";
       demo_showName := "Morning Therapy"; demo_hostName := "DJ Luna" |};
    {| demo_title := "Electric Dreams"; demo_artist := "Neon Pulse";
       demo_showName := "Peak Time Sessions"; demo_hostName := "Neon Pulse" |};
    {| demo_title := "Deep Waters"; demo_artist := "Aqua Dreams";
       demo_showName := "Weekend Warm-Up"; demo_hostName := "Aqua Dreams" |} ].

(** The draws of [Math.random ()] in one request, already scaled and
    floored: [rnd_track] is [floor (random * demoTracks.length)] and
    [rnd_listeners] is [floor (random * 50)]. *)
Record Random : Type := {
  rnd_track : nat;
  rnd_listeners : Z
}.

(** The five fields copied out of an asset row into a payload. *)
Definition asset_fields (asset : RadioAsset) : RadioAsset :=
  {| asset_id := asset_id asset;
     asset_title := asset_title asset;
     asset_artist := asset_artist asset;
     audioUrl := audioUrl asset;
     durationSeconds := durationSeconds asset |}.

(** [if (currentSchedule.showId) show = await getRadioShowById (...)]:
    an empty identifier is falsy. *)
Definition show_of (d : Database) (currentSchedule : RadioScheduleItem)
  : option RadioShow :=
  match showId currentSchedule with
  | Some sid => if String.eqb sid "" then None else getRadioShowById d sid
  | None => None
  end.

Definition fallback (rnd : Random) : HttpResponse :=
  let randomTrack :=
    nth (Nat.modulo (rnd_track rnd) (List.length demoTracks)) demoTracks
        {| demo_title := ""; demo_artist := "";
           demo_showName := ""; demo_hostName := "" |} in
  let listenerCount := rnd_listeners rnd + 100 in
  json (JMetadataLive {| lm_track := randomTrack;
                         lm_streamUrl := DEMO_STREAM_URL;
                         lm_listenerCount := listenerCount |}).

(** The handler reads the clock twice: [queryNow] is the [new Date ()] of
    [getCurrentScheduledItem], [now] the later [Date.now ()] of the handler. *)
Definition getMetadata (d : Database) (queryNow now : Z) (rnd : Random)
  : HttpResponse :=
  match getCurrentScheduledItem d queryNow with
  | Some currentSchedule =>
      match getRadioAssetById d (assetId currentSchedule) with
      | Some asset =>
          let startedAt := scheduledStart currentSchedule in
          let positionSeconds := (now - startedAt) / 1000 in
          let show := show_of d currentSchedule in
          json (JMetadataScheduled
                  {| sm_currentAsset := asset_fields asset;
                     sm_streamUrl := audioUrl asset;
                     sm_startedAt := scheduledStart currentSchedule;
                     sm_durationSeconds := durationSeconds asset;
                     sm_positionSeconds :=
                       Z.min positionSeconds (durationSeconds asset);
                     sm_showName := option_map show_title show;
                     sm_hostName := option_map show_hostName show;
                     sm_listenerCount := rnd_listeners rnd + 100 |})
      | None => fallback rnd
      end
  | None => fallback rnd
  end.

(** *** GET /api/radio/stream-state *)

(** The frame of the initial [state] event, if the handler writes one. *)
Definition initialState (d : Database) (queryNow now : Z) : option Frame :=
  match getCurrentScheduledItem d queryNow with
  | Some currentSchedule =>
      match getRadioAssetById d (assetId currentSchedule) with
      | Some asset =>
          let startedAt := scheduledStart currentSchedule in
          let positionSeconds := (now - startedAt) / 1000 in
          Some (DataFrame
                  (StateScheduled (asset_fields asset) (audioUrl asset)
                     (scheduledStart currentSchedule)
                     (Z.min positionSeconds (durationSeconds asset))))
      | None => None
      end
  | None => Some (DataFrame (StateLive DEMO_STREAM_URL))
  end.

(** A new connection [res]: registered, then sent the initial state. *)
Definition streamState (st : ServerState) (res : Client) (queryNow now : Z)
  : ServerState :=
  let clients := Set_add res (sseClients st) in
  {| db := db st;
     sseClients :=
       match initialState (db st) queryNow now with
       | Some f => try_write_to (client_id res) f clients
       | None => clients
       end |}.

(** The heartbeat timer of connection [id] fires: [res.write] outside any
    [try], so a throw leaves the timer callback. *)
Definition heartbeat (st : ServerState) (id : nat) : Result ServerState :=
  match find (fun c => Nat.eqb (client_id c) id) (sseClients st) with
  | Some c =>
      match write HeartbeatFrame c with
      | Ok _ =>
          Ok {| db := db st;
                sseClients := try_write_to id HeartbeatFrame (sseClients st) |}
      | Throw m => Throw m
      end
  | None => Ok st
  end.

(** [req.on ("close", ...)] of connection [id]. *)
Definition onClose (st : ServerState) (id : nat) : ServerState :=
  {| db := db st; sseClients := Set_delete id (sseClients st) |}.

(** *** POST, PATCH and DELETE /api/radio/schedule

    The bodies below run after [requireAuth] let the request through. *)

Definition postSchedule (st : ServerState) (reqBody : InsertRadioSchedule)
  (newId : string) : ServerState * HttpResponse :=
  let (d, scheduleItem) := createRadioSchedule (db st) reqBody newId in
  match getRadioAssetById d (assetId scheduleItem) with
  | Some asset =>
      let (clients, r) :=
        broadcastToSSEClients
          (ScheduleUpdate scheduleItem (Some (asset_fields asset)))
          (sseClients st) in
      ({| db := d; sseClients := clients |},
       match r with
       | Ok _ => json (JScheduleItem scheduleItem)
       | Throw m => fail 400 m
       end)
  | None =>
      ({| db := d; sseClients := sseClients st |},
       json (JScheduleItem scheduleItem))
  end.

Definition patchSchedule (st : ServerState) (id : string)
  (reqBody : PartialRadioScheduleItem) : ServerState * HttpResponse :=
  match updateRadioSchedule (db st) id reqBody with
  | Ok (d, scheduleItem) =>
      let (clients, r) :=
        broadcastToSSEClients (ScheduleUpdate scheduleItem None)
          (sseClients st) in
      ({| db := d; sseClients := clients |},
       match r with
       | Ok _ => json (JScheduleItem scheduleItem)
       | Throw m => fail 400 m
       end)
  | Throw m => (st, fail 400 m)
  end.

Definition deleteSchedule (st : ServerState) (id : string)
  : ServerState * HttpResponse :=
  let d := deleteRadioSchedule (db st) id in
  let (clients, r) :=
    broadcastToSSEClients (ScheduleDeleted id) (sseClients st) in
  ({| db := d; sseClients := clients |},
   match r with
   | Ok _ => json (JMessage "Schedule item deleted")
   | Throw m => fail 400 m
   end).

End Routes.
Export Routes.

(** ** server/auth.ts: bearer tokens *)

Module Auth.

(** ["24h"], in seconds *)
Definition JWT_EXPIRES_IN : Z := 24 * 60 * 60.

Record JWTPayload : Type := {
  username : string;
  iat : Z;
  exp : Z
}.

(** The [jsonwebtoken] package, abstracted: a token is either a string that
    is no JWT, or claims together with the key that signed them. *)
Inductive Token : Type :=
| Garbage (raw : string)
| Signed (claims : JWTPayload) (key : string).

(** [jwt.sign ({ username }, secret, { expiresIn })] at clock [now] (seconds) *)
Definition jwt_sign (name : string) (secret : string) (expiresIn now : Z)
  : Token :=
  Signed {| username := name; iat := now; exp := now + expiresIn |} secret.

(** [jwt.verify (token, secret)] at clock [now]: throws on a malformed
    token, on a wrong signature and once [now >= exp]. *)
Definition jwt_verify (token : Token) (secret : string) (now : Z)
  : Result JWTPayload :=
  match token with
  | Garbage _ => Throw "jwt malformed"
  | Signed claims key =>
      if negb (String.eqb key secret) then Throw "invalid signature"
      else if exp claims <=? now then Throw "jwt expired"
      else Ok claims
  end.

(** The module's state: its constants.  There is no table of sessions. *)
Record AuthState : Type := {
  JWT_SECRET : string
}.

Definition generateToken (st : AuthState) (name : string) (now : Z) : Token :=
  jwt_sign name (JWT_SECRET st) JWT_EXPIRES_IN now.

Definition verifyToken (st : AuthState) (token : Token) (now : Z)
  : option JWTPayload :=
  match jwt_verify token (JWT_SECRET st) now with
  | Ok payload => Some payload
  | Throw _ => None
  end.

Definition createSession (st : AuthState) (name : string) (now : Z) : Token :=
  generateToken st name now.

(** [payload?.username || null]: an empty name is falsy. *)
Definition validateSession (st : AuthState) (token : Token) (now : Z)
  : option string :=
  match verifyToken st token now with
  | Some payload =>
      if String.eqb (username payload) "" then None
      else Some (username payload)
  | None => None
  end.

(** [deleteSession (_token) {}]: the body is empty. *)
Definition deleteSession (st : AuthState) (_token : Token) : AuthState := st.

(** POST /api/auth/logout; [authorization] is the header's token, if any. *)
Definition logout (st : AuthState) (authorization : option Token)
  : AuthState * Routes.HttpResponse :=
  let st' :=
    match authorization with
    | Some sessionId => deleteSession st sessionId
    | None => st
    end in
  (st', Routes.json (Routes.JMessage "Logged out successfully")).

(** GET /api/auth/me *)
Definition me (st : AuthState) (authorization : option Token) (now : Z)
  : Routes.HttpResponse :=
  match authorization with
  | None => Routes.fail 401 "Not authenticated"
  | Some sessionId =>
      match validateSession st sessionId now with
      | None => Routes.fail 401 "Invalid session"
      | Some name => Routes.json (Routes.JMessage name)
      end
  end.

End Auth.

(** ** The client's RadioProvider *)

Module Radio.

Definition DEMO_STREAM_URL : string := "https://stream.zeno.fm/yn65fsaurfhvv".
Definition METADATA_POLL_INTERVAL : Z := 10000.

Record RadioTrack : Type := {
  title : string;
  artist : string;
  coverUrl : option string;
  showName : option string;
  hostName : option string
}.

(** The [HTMLAudioElement] behind [audioRef]: its source, whether it is
    paused, its playback position in seconds, its volume, and how many times
    a media resource was loaded into it. *)
Record Audio : Type := {
  src : string;
  paused : bool;
  currentTime : Q;
  audio_volume : Q;
  loads : nat
}.

Definition set_src (v : string) (a : Audio) : Audio :=
  {| src := v; paused := paused a; currentTime := currentTime a;
     audio_volume := audio_volume a; loads := loads a |}.

Definition set_paused (v : bool) (a : Audio) : Audio :=
  {| src := src a; paused := v; currentTime := currentTime a; audio_volume
     := audio_volume a; loads := loads a |}.

Definition set_currentTime (v : Q) (a : Audio) : Audio :=
  {| src := src a; paused := paused a; currentTime := v; audio_volume :=
     audio_volume a; loads := loads a |}.

Definition set_audio_volume (v : Q) (a : Audio) : Audio :=
  {| src := src a; paused := paused a; currentTime := currentTime a;
     audio_volume := v; loads := loads a |}.

Definition set_loads (v : nat) (a : Audio) : Audio :=
  {| src := src a; paused := paused a; currentTime := currentTime a;
     audio_volume := audio_volume a; loads := v |}.

Definition new_Audio (streamUrl : string) : Audio :=
  {| src := streamUrl; paused := true; currentTime := 0%Q;
     audio_volume := 1%Q; loads := 1 |}.

(** [audio.load ()] starts over: a new resource, position zero. *)
Definition load (a : Audio) : Audio :=
  set_loads (S (loads a)) (set_currentTime 0%Q a).

Definition audio_pause (a : Audio) : Audio := set_paused true a.
Definition audio_play (a : Audio) : Audio := set_paused false a.

(** The provider's [useState] cells and refs. *)
Record State : Type := {
  isPlaying : bool;
  volume : Q;
  isExpanded : bool;
  progress : Q;
  duration : Q;
  listenerCount : Z;
  isScheduled : bool;
  currentStreamUrl : string;
  currentAsset : option RadioAsset;
  startedAt : option Z;
  currentTrack : option RadioTrack;
  isLive : bool;
  audioRef : option Audio;
  sseConnectedRef : bool
}.

Definition setIsPlaying (v : bool) (st : State) : State :=
  {| isPlaying := v; volume := volume st; isExpanded := isExpanded st;
     progress := progress st; duration := duration st; listenerCount :=
     listenerCount st; isScheduled := isScheduled st; currentStreamUrl :=
     currentStreamUrl st; currentAsset := currentAsset st; startedAt :=
     startedAt st; currentTrack := currentTrack st; isLive := isLive st;
     audioRef := audioRef st; sseConnectedRef := sseConnectedRef st |}.

Definition setVolumeState (v : Q) (st : State) : State :=
  {| isPlaying := isPlaying st; volume := v; isExpanded := isExpanded st;
     progress := progress st; duration := duration st; listenerCount :=
     listenerCount st; isScheduled := isScheduled st; currentStreamUrl :=
     currentStreamUrl st; currentAsset := currentAsset st; startedAt :=
     startedAt st; currentTrack := currentTrack st; isLive := isLive st;
     audioRef := audioRef st; sseConnectedRef := sseConnectedRef st |}.

Definition setExpanded (v : bool) (st : State) : State :=
  {| isPlaying := isPlaying st; volume := volume st; isExpanded := v;
     progress := progress st; duration := duration st; listenerCount :=
     listenerCount st; isScheduled := isScheduled st; currentStreamUrl :=
     currentStreamUrl st; currentAsset := currentAsset st; startedAt :=
     startedAt st; currentTrack := currentTrack st; isLive := isLive st;
     audioRef := audioRef st; sseConnectedRef := sseConnectedRef st |}.

Definition setProgress (v : Q) (st : State) : State :=
  {| isPlaying := isPlaying st; volume := volume st; isExpanded :=
     isExpanded st; progress := v; duration := duration st; listenerCount
     := listenerCount st; isScheduled := isScheduled st; currentStreamUrl
     := currentStreamUrl st; currentAsset := currentAsset st; startedAt :=
     startedAt st; currentTrack := currentTrack st; isLive := isLive st;
     audioRef := audioRef st; sseConnectedRef := sseConnectedRef st |}.

Definition setDuration (v : Q) (st : State) : State :=
  {| isPlaying := isPlaying st; volume := volume st; isExpanded :=
     isExpanded st; progress := progress st; duration := v; listenerCount
     := listenerCount st; isScheduled := isScheduled st; currentStreamUrl
     := currentStreamUrl st; currentAsset := currentAsset st; startedAt :=
     startedAt st; currentTrack := currentTrack st; isLive := isLive st;
     audioRef := audioRef st; sseConnectedRef := sseConnectedRef st |}.

Definition setListenerCount (v : Z) (st : State) : State :=
  {| isPlaying := isPlaying st; volume := volume st; isExpanded :=
     isExpanded st; progress := progress st; duration := duration st;
     listenerCount := v; isScheduled := isScheduled st; currentStreamUrl
     := currentStreamUrl st; currentAsset := currentAsset st; startedAt :=
     startedAt st; currentTrack := currentTrack st; isLive := isLive st;
     audioRef := audioRef st; sseConnectedRef := sseConnectedRef st |}.

Definition setIsScheduled (v : bool) (st : State) : State :=
  {| isPlaying := isPlaying st; volume := volume st; isExpanded :=
     isExpanded st; progress := progress st; duration := duration st;
     listenerCount := listenerCount st; isScheduled := v; currentStreamUrl
     := currentStreamUrl st; currentAsset := currentAsset st; startedAt :=
     startedAt st; currentTrack := currentTrack st; isLive := isLive st;
     audioRef := audioRef st; sseConnectedRef := sseConnectedRef st |}.

Definition setCurrentStreamUrl (v : string) (st : State) : State :=
  {| isPlaying := isPlaying st; volume := volume st; isExpanded :=
     isExpanded st; progress := progress st; duration := duration st;
     listenerCount := listenerCount st; isScheduled := isScheduled st;
     currentStreamUrl := v; currentAsset := currentAsset st; startedAt :=
     startedAt st; currentTrack := currentTrack st; isLive := isLive st;
     audioRef := audioRef st; sseConnectedRef := sseConnectedRef st |}.

Definition setCurrentAsset (v : option RadioAsset) (st : State) : State :=
  {| isPlaying := isPlaying st; volume := volume st; isExpanded :=
     isExpanded st; progress := progress st; duration := duration st;
     listenerCount := listenerCount st; isScheduled := isScheduled st;
     currentStreamUrl := currentStreamUrl st; currentAsset := v; startedAt
     := startedAt st; currentTrack := currentTrack st; isLive := isLive
     st; audioRef := audioRef st; sseConnectedRef := sseConnectedRef st |}.

Definition setStartedAt (v : option Z) (st : State) : State :=
  {| isPlaying := isPlaying st; volume := volume st; isExpanded :=
     isExpanded st; progress := progress st; duration := duration st;
     listenerCount := listenerCount st; isScheduled := isScheduled st;
     currentStreamUrl := currentStreamUrl st; currentAsset := currentAsset
     st; startedAt := v; currentTrack := currentTrack st; isLive := isLive
     st; audioRef := audioRef st; sseConnectedRef := sseConnectedRef st |}.

Definition setCurrentTrack (v : option RadioTrack) (st : State) : State :=
  {| isPlaying := isPlaying st; volume := volume st; isExpanded :=
     isExpanded st; progress := progress st; duration := duration st;
     listenerCount := listenerCount st; isScheduled := isScheduled st;
     currentStreamUrl := currentStreamUrl st; currentAsset := currentAsset
     st; startedAt := startedAt st; currentTrack := v; isLive := isLive
     st; audioRef := audioRef st; sseConnectedRef := sseConnectedRef st |}.

Definition setIsLive (v : bool) (st : State) : State :=
  {| isPlaying := isPlaying st; volume := volume st; isExpanded :=
     isExpanded st; progress := progress st; duration := duration st;
     listenerCount := listenerCount st; isScheduled := isScheduled st;
     currentStreamUrl := currentStreamUrl st; currentAsset := currentAsset
     st; startedAt := startedAt st; currentTrack := currentTrack st;
     isLive := v; audioRef := audioRef st; sseConnectedRef :=
     sseConnectedRef st |}.

Definition set_audioRef (v : option Audio) (st : State) : State :=
  {| isPlaying := isPlaying st; volume := volume st; isExpanded :=
     isExpanded st; progress := progress st; duration := duration st;
     listenerCount := listenerCount st; isScheduled := isScheduled st;
     currentStreamUrl := currentStreamUrl st; currentAsset := currentAsset
     st; startedAt := startedAt st; currentTrack := currentTrack st;
     isLive := isLive st; audioRef := v; sseConnectedRef :=
     sseConnectedRef st |}.

Definition set_sseConnectedRef (v : bool) (st : State) : State :=
  {| isPlaying := isPlaying st; volume := volume st; isExpanded :=
     isExpanded st; progress := progress st; duration := duration st;
     listenerCount := listenerCount st; isScheduled := isScheduled st;
     currentStreamUrl := currentStreamUrl st; currentAsset := currentAsset
     st; startedAt := startedAt st; currentTrack := currentTrack st;
     isLive := isLive st; audioRef := audioRef st; sseConnectedRef := v |}.

(** The parsed [data] of an event or of a metadata response: the fields the
    handlers read.  An absent [isScheduled] is [false] (falsy). *)
Inductive MessageType : Type :=
| TState
| TScheduleUpdate
| TScheduleDeleted
| TOther.

Record Message : Type := {
  m_type : MessageType;
  m_isScheduled : bool;
  m_currentAsset : option RadioAsset;
  m_streamUrl : string;
  m_startedAt : option Z;
  m_positionSeconds : option Z;
  m_showName : option string;
  m_hostName : option string;
  m_durationSeconds : Z;
  m_listenerCount : option Z;
  m_title : option string;
  m_artist : option string;
  m_coverUrl : option string
}.

(** The state of the first render. *)
Definition initial : State :=
  {| isPlaying := false; volume := (7 # 10)%Q; isExpanded := false;
     progress := 0%Q; duration := 0%Q; listenerCount := 127;
     isScheduled := false; currentStreamUrl := DEMO_STREAM_URL;
     currentAsset := None; startedAt := None;
     currentTrack :=
       Some {| title := "GroupTherapy Radio"; artist := "Live Stream";
               coverUrl := None; showName := None; hostName := None |};
     isLive := true; audioRef := None; sseConnectedRef := false |}.

(** In every callback below [st] (or [render]) is the state of the render
    that created the callback (what its closure reads) and [s] the state as
    the callback has changed it so far; [audioRef] is a ref, read from [s].
    The element is created once, by the mount effect, with the initial
    volume. *)

Definition initAudio (st : State) (streamUrl : string) (s : State) : State :=
  match audioRef s with
  | Some a =>
      let wasPlaying := negb (paused a) in
      let a := audio_pause a in
      let a := set_src streamUrl a in
      let a := load a in
      set_audioRef (Some (if wasPlaying then audio_play a else a)) s
  | None =>
      set_audioRef (Some (set_audio_volume (volume st) (new_Audio streamUrl))) s
  end.

(** Double precision.  [floor_log2 r] is the exponent of a positive
    rational: [2 ^ e <= r < 2 ^ (e + 1)]. *)
Definition floor_log2 (r : Q) : Z :=
  let n := Z.log2 (Qnum r) - Z.log2 (Z.pos (Qden r)) in
  if Qle_bool (2 ^ n) r then n else n - 1.

(** The nearest integer, a tie going to the even one. *)
Definition round_half_even (r : Q) : Z :=
  let f := Qfloor r in
  match (r - inject_Z f ?= 1 # 2)%Q with
  | Lt => f
  | Gt => f + 1
  | Eq => if Z.even f then f else f + 1
  end.

(** The double nearest to [r], as the arithmetic of doubles rounds an exact
    result: 53 significant bits, ties to even.  The magnitudes at hand are
    seconds of playback; overflow does not arise. *)
Definition to_double (r : Q) : Q :=
  if Qeq_bool r 0 then 0%Q
  else
    let e := floor_log2 (Qabs r) in
    let ulp := (2 ^ (e - 52))%Q in
    let m := (inject_Z (round_half_even (Qabs r / ulp)) * ulp)%Q in
    if Qle_bool 0 r then m else (- m)%Q.

(** [Math.abs (x - y) > 2]: the difference of two doubles is the double
    nearest to their exact difference. *)
Definition drift_exceeds (x y : Q) : bool :=
  negb (Qle_bool (Qabs (to_double (x - y))) 2).

Definition syncPlaybackPosition (st : State) (positionSeconds : Z) (s : State)
  : State :=
  match audioRef s, currentAsset st with
  | Some a, Some asset =>
      if negb (isLive st) then
        let targetPosition := Z.min positionSeconds (durationSeconds asset) in
        if drift_exceeds (currentTime a) (inject_Z targetPosition)
        then set_audioRef (Some (set_currentTime (inject_Z targetPosition) a)) s
        else s
      else s
  | _, _ => s
  end.

Definition live_track : RadioTrack :=
  {| title := "GroupTherapy Radio"; artist := "Live Stream";
     coverUrl := None; showName := None; hostName := None |}.

(** [handleSSEMessage] as the render [render] created it, run on the state
    [st]; [None] is an event whose [data] does not parse.  The setters
    write the cells of [st]; [currentStreamUrl], [initAudio] and
    [syncPlaybackPosition] are those of [render]. *)
Definition handleSSEMessageFrom (render st : State) (event : option Message)
  : State :=
  match event with
  | None => st
  | Some data =>
      match m_type data with
      | TState | TScheduleUpdate =>
          match m_isScheduled data, m_currentAsset data with
          | true, Some asset =>
              let s := setIsScheduled true st in
              let s := setIsLive false s in
              let s := setCurrentAsset (Some asset) s in
              let s := setCurrentTrack
                         (Some {| title := asset_title asset;
                                  artist := asset_artist asset;
                                  coverUrl := None;
                                  showName := m_showName data;
                                  hostName := m_hostName data |}) s in
              let s := setDuration (inject_Z (durationSeconds asset)) s in
              let s := if String.eqb (m_streamUrl data)
                                     (currentStreamUrl render)
                       then s
                       else initAudio render (m_streamUrl data)
                              (setCurrentStreamUrl (m_streamUrl data) s) in
              let s := match m_startedAt data with
                       | Some t => setStartedAt (Some t) s
                       | None => s
                       end in
              match m_positionSeconds data with
              | Some p => syncPlaybackPosition render p s
              | None => s
              end
          | _, _ =>
              let s := setIsScheduled false st in
              let s := setIsLive true s in
              let s := setCurrentAsset None s in
              let s := setCurrentTrack (Some live_track) s in
              if String.eqb DEMO_STREAM_URL (currentStreamUrl render)
              then s
              else initAudio render DEMO_STREAM_URL
                     (setCurrentStreamUrl DEMO_STREAM_URL s)
          end
      | TScheduleDeleted =>
          let s := setIsScheduled false st in
          let s := setIsLive true s in
          let s := setCurrentStreamUrl DEMO_STREAM_URL s in
          initAudio render DEMO_STREAM_URL s
      | TOther => st
      end
  end.

(** [handleSSEMessage] of the render whose state is [st], run on that state:
    the handler the latest subscription installs. *)
Definition handleSSEMessage (st : State) (event : option Message) : State :=
  handleSSEMessageFrom st st event.

(** [x || 127] on a number: zero and an absent field are falsy. *)
Definition or_127 (n : option Z) : Z :=
  match n with
  | Some c => if c =? 0 then 127 else c
  | None => 127
  end.

(** [x || d] on a string *)
Definition or_string (x : option string) (d : string) : string :=
  match x with
  | Some v => if String.eqb v "" then d else v
  | None => d
  end.

(** [fetchMetadata] after [await fetch], as the render [render] created
    it, run on the state [st]; [None] is a request that failed or was not
    [ok]. *)
Definition fetchMetadataFrom (render st : State) (response : option Message)
  : State :=
  match response with
  | None => st
  | Some data =>
      match m_isScheduled data, m_currentAsset data with
      | true, Some asset =>
          let s := setIsScheduled true st in
          let s := setIsLive false s in
          let s := setCurrentAsset (Some asset) s in
          let s := setCurrentTrack
                     (Some {| title := asset_title asset;
                              artist := asset_artist asset;
                              coverUrl := None;
                              showName := m_showName data;
                              hostName := m_hostName data |}) s in
          let s := setDuration (inject_Z (m_durationSeconds data)) s in
          let s := setListenerCount (or_127 (m_listenerCount data)) s in
          let s := if String.eqb (m_streamUrl data) (currentStreamUrl render)
                   then s
                   else initAudio render (m_streamUrl data)
                          (setCurrentStreamUrl (m_streamUrl data) s) in
          match m_positionSeconds data with
          | Some p => syncPlaybackPosition render p s
          | None => s
          end
      | _, _ =>
          let s := setIsScheduled false st in
          let s := setIsLive true s in
          let s := setCurrentTrack
                     (Some {| title := or_string (m_title data)
                                         "GroupTherapy Radio";
                              artist := or_string (m_artist data)
                                          "Live Stream";
                              coverUrl := m_coverUrl data;
                              showName := m_showName data;
                              hostName := m_hostName data |}) s in
          let s := setListenerCount (or_127 (m_listenerCount data)) s in
          if String.eqb DEMO_STREAM_URL (currentStreamUrl render)
          then s
          else initAudio render DEMO_STREAM_URL
                 (setCurrentStreamUrl DEMO_STREAM_URL s)
      end
  end.

(** [fetchMetadata], the poll, with its response at once: skipped while the
    event stream is connected. *)
Definition fetchMetadata (st : State) (response : option Message) : State :=
  if sseConnectedRef st then st else fetchMetadataFrom st st response.

(** The mount effect: [initAudio (DEMO_STREAM_URL)]. *)
Definition mount (st : State) : State := initAudio st DEMO_STREAM_URL st.

(** One run of [updateProgress] at clock [now]; the effect that owns the
    timer returns early, and no timer exists, unless the provider is
    scheduled with a start time and an asset. *)
Definition updateProgress (st : State) (now : Z) : State :=
  if isScheduled st then
    match startedAt st, currentAsset st with
    | Some startTime, Some asset =>
        let elapsed := (now - startTime) / 1000 in
        let pos := Z.min elapsed (durationSeconds asset) in
        setProgress (inject_Z pos) st
    | _, _ => st
    end
  else st.

(** The element's [timeupdate] listener; [mediaDuration] is the element's
    own [duration || 0]. *)
Definition onTimeUpdate (st : State) (mediaDuration : Q) : State :=
  match audioRef st with
  | Some a => setDuration mediaDuration (setProgress (currentTime a) st)
  | None => st
  end.

(** Playback itself: an element that is not paused moves on by [dt]. *)
Definition playback (st : State) (dt : Q) : State :=
  match audioRef st with
  | Some a =>
      if paused a then st
      else set_audioRef (Some (set_currentTime (currentTime a + dt)%Q a)) st
  | None => st
  end.

(** The event stream's [onopen] and [onerror]. *)
Definition onopen (st : State) : State := set_sseConnectedRef true st.
Definition onerror (st : State) : State := set_sseConnectedRef false st.

(** *** User actions *)

Definition play (st : State) : State :=
  match audioRef st with
  | Some a => setIsPlaying true (set_audioRef (Some (audio_play a)) st)
  | None => st
  end.

Definition pause (st : State) : State :=
  match audioRef st with
  | Some a => setIsPlaying false (set_audioRef (Some (audio_pause a)) st)
  | None => st
  end.

Definition togglePlay (st : State) : State :=
  if isPlaying st then pause st else play st.

(** The element's [volume] setter takes a number from 0 to 1 and throws
    [IndexSizeError] on any other, leaving the element as it was. *)
Definition volume_in_range (v : Q) : bool := Qle_bool 0 v && Qle_bool v 1.

(** [setVolume]: the state cell is set first, then the element's volume; a
    throw of the element's setter leaves the callback. *)
Definition setVolume (newVolume : Q) (st : State) : State * Result unit :=
  let s := setVolumeState newVolume st in
  match audioRef s with
  | Some a =>
      if volume_in_range newVolume
      then (set_audioRef (Some (set_audio_volume newVolume a)) s, Ok tt)
      else (s, Throw "IndexSizeError")
  | None => (s, Ok tt)
  end.

Definition seek (time : Q) (st : State) : State :=
  match audioRef st with
  | Some a =>
      if negb (isLive st)
      then set_audioRef (Some (set_currentTime time a)) st
      else st
  | None => st
  end.

(** What can happen to a mounted provider.

    An event of the stream is handled by the [handleSSEMessage] of the
    subscription that is open.  The subscription effect re-subscribes with
    the handler of the latest render whenever [handleSSEMessage] changes
    ([SSEMessage]).  But [onerror] arms [setTimeout (connectSSE, 5000)] with
    the [connectSSE] of its own effect, and no cleanup clears that timer:
    when it fires after a later render, it closes the open subscription and
    opens one whose [onmessage] is the handler of the render that armed it
    ([SSEMessageFrom render]).  Likewise the response of a poll is handled
    by the continuation of the [fetchMetadata] that sent the request, which
    a later render does not replace ([MetadataResponseFrom render]; the test
    of [sseConnectedRef] was made when the request was sent).  [render] is
    the state of that earlier render. *)
Inductive Action : Type :=
| SSEMessage (event : option Message)
| SSEMessageFrom (render : State) (event : option Message)
| MetadataResponse (response : option Message)
| MetadataResponseFrom (render : State) (response : option Message)
| Tick (now : Z)
| TimeUpdate (mediaDuration : Q)
| Playback (dt : Q)
| SSEOpen
| SSEError
| Play
| Pause
| TogglePlay
| SetVolume (newVolume : Q)
| Seek (time : Q)
| SetExpanded (expanded : bool)
| SetCurrentTrack (track : RadioTrack).

Definition step (st : State) (a : Action) : State :=
  match a with
  | SSEMessage event => handleSSEMessage st event
  | SSEMessageFrom render event => handleSSEMessageFrom render st event
  | MetadataResponse response => fetchMetadata st response
  | MetadataResponseFrom render response => fetchMetadataFrom render st response
  | Tick now => updateProgress st now
  | TimeUpdate d => onTimeUpdate st d
  | Playback dt => playback st dt
  | SSEOpen => onopen st
  | SSEError => onerror st
  | Play => play st
  | Pause => pause st
  | TogglePlay => togglePlay st
  | SetVolume v => fst (setVolume v st)
  | Seek t => seek t st
  | SetExpanded e => setExpanded e st
  | SetCurrentTrack t => setCurrentTrack (Some t) st
  end.

(** The states a provider goes through: mounted, then any actions. *)
Definition run (actions : list Action) : State :=
  fold_left step actions (mount initial).

(** The two states of the reconciler. *)
Definition LIVE (st : State) : Prop :=
  isScheduled st = false /\ isLive st = true.
Definition SCHEDULED (st : State) : Prop :=
  isScheduled st = true /\ isLive st = false.

End Radio.

(** ** server/routes.ts: reading one schedule item *)

Module ScheduleReads.

Import Routes.

(** GET /api/radio/schedule/:id *)
Definition getScheduleItem (st : ServerState) (id : string) : HttpResponse :=
  match getRadioScheduleById (db st) id with
  | None => fail 404 "Schedule item not found"
  | Some scheduleItem => json (JScheduleItem scheduleItem)
  end.

End ScheduleReads.

(** ** From the server's events to the client's handlers

    [JSON.stringify] on the server and [JSON.parse] on the client: which of
    the fields the client reads are present in what the server writes. *)

Module Wire.

Import Routes Radio.

(** A [data] object in which every field the client reads is absent. *)
Definition no_fields (type : MessageType) : Message :=
  {| m_type := type; m_isScheduled := false; m_currentAsset := None;
     m_streamUrl := ""; m_startedAt := None; m_positionSeconds := None;
     m_showName := None; m_hostName := None; m_durationSeconds := 0;
     m_listenerCount := None; m_title := None; m_artist := None;
     m_coverUrl := None |}.

(** The [state] event has [isScheduled], [currentAsset], [streamUrl],
    [startedAt], [positionSeconds]; [schedule_update] has [scheduleItem] and
    [asset], [schedule_deleted] has [scheduleId]: none of these three is a
    field the client reads. *)
Definition fromData (d : SSEData) : Message :=
  match d with
  | StateScheduled currentAsset streamUrl startedAt positionSeconds =>
      {| m_type := TState; m_isScheduled := true;
         m_currentAsset := Some currentAsset; m_streamUrl := streamUrl;
         m_startedAt := Some startedAt;
         m_positionSeconds := Some positionSeconds;
         m_showName := None; m_hostName := None; m_durationSeconds := 0;
         m_listenerCount := None; m_title := None; m_artist := None;
         m_coverUrl := None |}
  | StateLive streamUrl =>
      {| m_type := TState; m_isScheduled := false; m_currentAsset := None;
         m_streamUrl := streamUrl; m_startedAt := None;
         m_positionSeconds := None; m_showName := None; m_hostName := None;
         m_durationSeconds := 0; m_listenerCount := None; m_title := None;
         m_artist := None; m_coverUrl := None |}
  | ScheduleUpdate _ _ => no_fields TScheduleUpdate
  | ScheduleDeleted _ => no_fields TScheduleDeleted
  end.

(** What an [EventSource] does with a frame: an event goes to [onmessage],
    the handler of the render [render]; a comment line (the heartbeat) is
    dropped. *)
Definition receiveFrom (render st : State) (f : Frame) : State :=
  match f with
  | DataFrame d => handleSSEMessageFrom render st (Some (fromData d))
  | HeartbeatFrame => st
  end.


(** The body of a metadata response as [fetchMetadata] reads it; only a
    response with [response.ok] is read. *)
Definition fromResponse (r : HttpResponse) : option Message :=
  if negb (status r =? 200) then None
  else
    match body r with
    | JMetadataScheduled p =>
        Some {| m_type := TOther; m_isScheduled := true;
                m_currentAsset := Some (sm_currentAsset p);
                m_streamUrl := sm_streamUrl p;
                m_startedAt := Some (sm_startedAt p);
                m_positionSeconds := Some (sm_positionSeconds p);
                m_showName := sm_showName p; m_hostName := sm_hostName p;
                m_durationSeconds := sm_durationSeconds p;
                m_listenerCount := Some (sm_listenerCount p);
                m_title := None; m_artist := None; m_coverUrl := None |}
    | JMetadataLive p =>
        Some {| m_type := TOther; m_isScheduled := false;
                m_currentAsset := None; m_streamUrl := lm_streamUrl p;
                m_startedAt := None; m_positionSeconds := None;
                m_showName := Some (demo_showName (lm_track p));
                m_hostName := Some (demo_hostName (lm_track p));
                m_durationSeconds := 0;
                m_listenerCount := Some (lm_listenerCount p);
                m_title := Some (demo_title (lm_track p));
                m_artist := Some (demo_artist (lm_track p));
                m_coverUrl := None |}
    | _ => None
    end.

End Wire.

(** ** server/auth.ts and server/storage.ts: the password check *)

Module Credentials.

Definition MAX_LOGIN_ATTEMPTS : nat := 5.
Definition LOCKOUT_DURATION_MINUTES : Z := 15.
Definition ATTEMPT_WINDOW_MINUTES : Z := 15.

(** Modelled from the spec: the row types [AdminUser] and [LoginAttempt] of
    [@shared/schema], which is not among the sources.  The spec only names a
    rate-limited password check; the rows carry the columns that auth.ts
    and storage.ts read or write.  [attemptedAt] is not part of an inserted
    attempt: the database fills it with its clock. *)
Record AdminUser : Type := {
  admin_username : string;
  passwordHash : string;
  isActive : bool;
  lastLoginAt : option Z;
  updatedAt : option Z
}.

Record LoginAttempt : Type := {
  attempt_username : string;
  ipAddress : option string;
  successful : bool;
  attemptedAt : Z
}.

Record InsertLoginAttempt : Type := {
  la_username : string;
  la_ipAddress : option string;
  la_successful : bool
}.

Record AccountDb : Type := {
  adminUsers : list AdminUser;
  loginAttempts : list LoginAttempt
}.

Definition getAdminUserByUsername (d : AccountDb) (name : string)
  : option AdminUser :=
  first_row (filter (fun u => String.eqb (admin_username u) name)
               (adminUsers d)).

(** [set ({ lastLoginAt: new Date (), updatedAt: new Date () })] *)
Definition touch (now : Z) (u : AdminUser) : AdminUser :=
  {| admin_username := admin_username u;
     passwordHash := passwordHash u;
     isActive := isActive u;
     lastLoginAt := Some now;
     updatedAt := Some now |}.

Definition updateAdminLastLogin (d : AccountDb) (name : string) (now : Z)
  : AccountDb :=
  {| adminUsers :=
       map (fun u => if String.eqb (admin_username u) name
                     then touch now u else u)
           (adminUsers d);
     loginAttempts := loginAttempts d |}.

Definition recordLoginAttempt (d : AccountDb)
  (insertAttempt : InsertLoginAttempt) (now : Z) : AccountDb * LoginAttempt :=
  let attempt :=
    {| attempt_username := la_username insertAttempt;
       ipAddress := la_ipAddress insertAttempt;
       successful := la_successful insertAttempt;
       attemptedAt := now |} in
  ({| adminUsers := adminUsers d;
      loginAttempts := loginAttempts d ++ [attempt] |}, attempt).

(** [username = ... AND attemptedAt >= cutoffTime] *)
Definition getRecentLoginAttempts (d : AccountDb) (name : string)
  (minutes : Z) (now : Z) : list LoginAttempt :=
  let cutoffTime := now - minutes * 60 * 1000 in
  filter (fun a => String.eqb (attempt_username a) name
                   && (cutoffTime <=? attemptedAt a))
         (loginAttempts d).

Definition isRateLimited (d : AccountDb) (name : string) (now : Z) : bool :=
  let recentAttempts :=
    getRecentLoginAttempts d name ATTEMPT_WINDOW_MINUTES now in
  let failedAttempts :=
    filter (fun attempt => negb (successful attempt)) recentAttempts in
  Nat.leb MAX_LOGIN_ATTEMPTS (List.length failedAttempts).

Record CredentialResult : Type := {
  valid : bool;
  message : option string
}.

Definition too_many_attempts : string :=
  "Too many failed login attempts. Please try again in 15 minutes.".

Section WithBcrypt.

(** [bcrypt.compare (password, hash)] of the bcryptjs package *)
Variable bcrypt_compare : string -> string -> bool.

Definition validateCredentials (d : AccountDb) (name password : string)
  (ip : option string) (now : Z) : AccountDb * CredentialResult :=
  let failed :=
    {| la_username := name; la_ipAddress := ip; la_successful := false |} in
  if isRateLimited d name now then
    (fst (recordLoginAttempt d failed now),
     {| valid := false; message := Some too_many_attempts |})
  else
    match getAdminUserByUsername d name with
    | None =>
        (fst (recordLoginAttempt d failed now),
         {| valid := false; message := Some "Invalid credentials" |})
    | Some adminUser =>
        if negb (isActive adminUser) then
          (fst (recordLoginAttempt d failed now),
           {| valid := false; message := Some "Account is inactive" |})
        else
          let isValid := bcrypt_compare password (passwordHash adminUser) in
          let d1 :=
            fst (recordLoginAttempt d
                   {| la_username := name; la_ipAddress := ip;
                      la_successful := isValid |} now) in
          if isValid then
            (updateAdminLastLogin d1 name now,
             {| valid := true; message := None |})
          else
            (d1, {| valid := false; message := Some "Invalid credentials" |})
    end.

(** POST /api/auth/login *)
Inductive LoginResponse : Type :=
| LoggedIn (sessionId : Auth.Token) (name : string)
| LoginRejected (status : Z) (message : string).

(** [!x] on a body field: absent and empty are falsy. *)
Definition missing (field : option string) : bool :=
  match field with
  | None => true
  | Some v => String.eqb v ""
  end.

(** [now] is the clock in milliseconds; the token is stamped in seconds. *)
Definition login (st : Auth.AuthState) (d : AccountDb)
  (name password : option string) (ip : option string) (now : Z)
  : AccountDb * LoginResponse :=
  if missing name || missing password then
    (d, LoginRejected 400 "Username and password are required")
  else
    let name' := or_default name "" in
    let (d', result) :=
      validateCredentials d name' (or_default password "") ip now in
    if negb (valid result) then
      (d', LoginRejected 401
             (match message result with
              | Some m => if String.eqb m "" then "Invalid credentials" else m
              | None => "Invalid credentials"
              end))
    else
      (d', LoggedIn (Auth.createSession st name' (now / 1000)) name').

End WithBcrypt.

(** [requireAuth]: either [next ()] with the user, or a response. *)
Inductive Guard : Type :=
| Next (user : string)
| Denied (response : Routes.HttpResponse).

Definition requireAuth (st : Auth.AuthState) (authorization : option Auth.Token)
  (now : Z) : Guard :=
  match authorization with
  | None | Some (Auth.Garbage "") =>
      Denied (Routes.fail 401 "Authentication required")
  | Some token =>
      match Auth.validateSession st token now with
      | None => Denied (Routes.fail 401 "Invalid or expired session")
      | Some name => Next name
      end
  end.

End Credentials.

(** ** The in-memory session store (the variant of auth.ts that precedes
       the tokens) *)

Module SessionStore.

Record Session : Type := {
  session_username : string;
  expiresAt : Z
}.

(** [Map<string, Session>]: keys in insertion order, one entry per key. *)
Definition Sessions : Type := list (string * Session).

Definition Map_get (sessionId : string) (sessions : Sessions)
  : option Session :=
  option_map snd
    (find (fun e => String.eqb (fst e) sessionId) sessions).

Fixpoint Map_set (sessionId : string) (v : Session) (sessions : Sessions)
  : Sessions :=
  match sessions with
  | [] => [(sessionId, v)]
  | (k, w) :: rest =>
      if String.eqb k sessionId then (k, v) :: rest
      else (k, w) :: Map_set sessionId v rest
  end.

Definition Map_delete (sessionId : string) (sessions : Sessions) : Sessions :=
  filter (fun e => negb (String.eqb (fst e) sessionId)) sessions.

(** [createSession]; [sessionId] is what [generateSessionId] drew, [now] the
    clock in milliseconds. *)
Definition createSession (sessions : Sessions) (name : string)
  (sessionId : string) (now : Z) : Sessions * string :=
  let expiresAt := now + 24 * 60 * 60 * 1000 in
  (Map_set sessionId {| session_username := name; expiresAt := expiresAt |}
     sessions,
   sessionId).

(** [validateSession]: an expired session is deleted on the way. *)
Definition validateSession (sessions : Sessions) (sessionId : string)
  (now : Z) : Sessions * option string :=
  match Map_get sessionId sessions with
  | None => (sessions, None)
  | Some session =>
      if expiresAt session <? now
      then (Map_delete sessionId sessions, None)
      else (sessions, Some (session_username session))
  end.

Definition deleteSession (sessions : Sessions) (sessionId : string)
  : Sessions :=
  Map_delete sessionId sessions.

(** [requireAuth]: [None] is a 401, [Some user] is [next ()]. *)
Definition requireAuth (sessions : Sessions) (authorization : option string)
  (now : Z) : Sessions * option string :=
  match authorization with
  | None => (sessions, None)
  | Some sessionId =>
      if String.eqb sessionId "" then (sessions, None)
      else
        match validateSession sessions sessionId now with
        | (sessions', Some name) =>
            if String.eqb name "" then (sessions', None)
            else (sessions', Some name)
        | (sessions', None) => (sessions', None)
        end
  end.

End SessionStore.

(** ** api/index.ts: the serverless entry points *)

Module Serverless.

(** What the imported server module does during one request. *)
Record Outcome : Type := {
  import_throws : bool;
  createApp_throws : bool;
  initialize_throws : bool
}.

(** The module variables of the lazily importing entry point, and how many
    times it has called [import], [createAppFn] and
    [initializeAppForServerlessFn]; an app is named by the call of
    [createAppFn] that returned it. *)
Record Lambda : Type := {
  app : option nat;
  initialized : bool;
  createAppFn : bool;
  initializeAppForServerlessFn : bool;
  imports : nat;
  creations : nat;
  initializations : nat
}.

Definition cold : Lambda :=
  {| app := None; initialized := false; createAppFn := false;
     initializeAppForServerlessFn := false;
     imports := 0; creations := 0; initializations := 0 |}.

(** [getApp]: each step runs only if its variable is still unset; a throw
    is logged and thrown on. *)
Definition getApp (s : Lambda) (o : Outcome) : Lambda * Result nat :=
  let after_import : Result Lambda :=
    if negb (createAppFn s) || negb (initializeAppForServerlessFn s) then
      let s1 := {| app := app s; initialized := initialized s;
                   createAppFn := createAppFn s;
                   initializeAppForServerlessFn :=
                     initializeAppForServerlessFn s;
                   imports := S (imports s); creations := creations s;
                   initializations := initializations s |} in
      if import_throws o then Throw "import failed"
      else Ok {| app := app s1; initialized := initialized s1;
                 createAppFn := true; initializeAppForServerlessFn := true;
                 imports := imports s1; creations := creations s1;
                 initializations := initializations s1 |}
    else Ok s in
  match after_import with
  | Throw m =>
      ({| app := app s; initialized := initialized s;
          createAppFn := createAppFn s;
          initializeAppForServerlessFn := initializeAppForServerlessFn s;
          imports := S (imports s); creations := creations s;
          initializations := initializations s |}, Throw m)
  | Ok s1 =>
      let after_create : Lambda * Result nat :=
        match app s1 with
        | Some a => (s1, Ok a)
        | None =>
            let n := S (creations s1) in
            if createApp_throws o then
              ({| app := None; initialized := initialized s1;
                  createAppFn := createAppFn s1;
                  initializeAppForServerlessFn :=
                    initializeAppForServerlessFn s1;
                  imports := imports s1; creations := n;
                  initializations := initializations s1 |},
               Throw "createApp failed")
            else
              ({| app := Some n; initialized := initialized s1;
                  createAppFn := createAppFn s1;
                  initializeAppForServerlessFn :=
                    initializeAppForServerlessFn s1;
                  imports := imports s1; creations := n;
                  initializations := initializations s1 |}, Ok n)
        end in
      match after_create with
      | (s2, Throw m) => (s2, Throw m)
      | (s2, Ok a) =>
          if initialized s2 then (s2, Ok a)
          else
            let s3 := {| app := app s2; initialized := false;
                         createAppFn := createAppFn s2;
                         initializeAppForServerlessFn :=
                           initializeAppForServerlessFn s2;
                         imports := imports s2; creations := creations s2;
                         initializations := S (initializations s2) |} in
            if initialize_throws o then (s3, Throw "initialize failed")
            else
              ({| app := app s3; initialized := true;
                  createAppFn := createAppFn s3;
                  initializeAppForServerlessFn :=
                    initializeAppForServerlessFn s3;
                  imports := imports s3; creations := creations s3;
                  initializations := initializations s3 |}, Ok a)
      end
  end.

(** The module variable of the entry point that imports the server
    statically: [handler], set only after [createApp],
    [initializeAppForServerless] and [serverless] all returned. *)
Record Wrapped : Type := {
  handler : option nat;
  apps_created : nat;
  apps_initialized : nat
}.

Definition unwrapped : Wrapped :=
  {| handler := None; apps_created := 0; apps_initialized := 0 |}.

(** The part of the entry point before [return handler (req, res)]: the app
    whose handler serves the request, or the throw that its [catch] turns
    into a 500. *)
Definition getHandler (s : Wrapped) (o : Outcome) : Wrapped * Result nat :=
  match handler s with
  | Some h => (s, Ok h)
  | None =>
      let n := S (apps_created s) in
      if createApp_throws o then
        ({| handler := None; apps_created := n;
            apps_initialized := apps_initialized s |},
         Throw "createApp failed")
      else if initialize_throws o then
        ({| handler := None; apps_created := n;
            apps_initialized := S (apps_initialized s) |},
         Throw "initialize failed")
      else
        ({| handler := Some n; apps_created := n;
            apps_initialized := S (apps_initialized s) |}, Ok n)
  end.

(** A sequence of requests. *)
Definition serve (s : Lambda) (requests : list Outcome) : Lambda :=
  fold_left (fun s o => fst (getApp s o)) requests s.

Definition serve_wrapped (s : Wrapped) (requests : list Outcome) : Wrapped :=
  fold_left (fun s o => fst (getHandler s o)) requests s.

End Serverless.

(** ** Vocabulary of the specification *)

(** The spec's [clamp (x, lo, hi)]: [x] raised to [lo], then cut at [hi]. *)
Definition clamp (x lo hi : Z) : Z := Z.min (Z.max x lo) hi.

(** A connection after it accepted the frame [f]: what "the channel
    received the message" means. *)
Definition deliver (f : Frame) (c : Client) : Client :=
  {| client_id := client_id c;
     write_throws := write_throws c;
     written := written c ++ [f] |}.

(** The first row of a list is at least as late as the others. *)
Definition head_latest (rows : list RadioScheduleItem) : Prop :=
  match rows with
  | [] => True
  | r :: rest => forall x, In x rest -> scheduledStart x <= scheduledStart r
  end.

(** The element is there and holds the stream the state names. *)
Definition loaded (st : Radio.State) : Prop :=
  exists a, Radio.audioRef st = Some a /\ Radio.src a = Radio.currentStreamUrl st.

(** The two flags of the reconciler agree, and a scheduled provider has an
    asset. *)
Definition classified (st : Radio.State) : Prop :=
  Radio.isLive st = negb (Radio.isScheduled st) /\
  (Radio.isScheduled st = true -> Radio.currentAsset st <> None).

(** Actions that carry what the server said: an event or a poll response,
    whichever render's callback handles it. *)
Definition from_server (a : Radio.Action) : bool :=
  match a with
  | Radio.SSEMessage _ | Radio.SSEMessageFrom _ _
  | Radio.MetadataResponse _ | Radio.MetadataResponseFrom _ _ => true
  | _ => false
  end.

(** Actions that carry an event of the push channel. *)
Definition is_push (a : Radio.Action) : bool :=
  match a with
  | Radio.SSEMessage _ | Radio.SSEMessageFrom _ _ => true
  | _ => false
  end.

(** Half the distance from 2 to the double that follows it, [2^-52]: the
    doubles next to 2 from above are [2] and [2 + 2^-51]. *)
Definition half_step_after_2 : Q := 1 # 4503599627370496.

(** The branches of [handleSSEMessage] and [fetchMetadata], named: the state
    cells each branch sets, and the branch as a whole, as the callback of
    the render [render] runs it on the state [st]. *)
Definition scheduled_cells (st : Radio.State) (data : Radio.Message)
  (asset : RadioAsset) : Radio.State :=
  Radio.setDuration (inject_Z (durationSeconds asset))
    (Radio.setCurrentTrack
       (Some {| Radio.title := asset_title asset;
                Radio.artist := asset_artist asset;
                Radio.coverUrl := None;
                Radio.showName := Radio.m_showName data;
                Radio.hostName := Radio.m_hostName data |})
       (Radio.setCurrentAsset (Some asset)
          (Radio.setIsLive false (Radio.setIsScheduled true st)))).

Definition scheduled_result (render st : Radio.State) (data : Radio.Message)
  (asset : RadioAsset) : Radio.State :=
  let s := scheduled_cells st data asset in
  let s := if String.eqb (Radio.m_streamUrl data)
                         (Radio.currentStreamUrl render)
           then s
           else Radio.initAudio render (Radio.m_streamUrl data)
                  (Radio.setCurrentStreamUrl (Radio.m_streamUrl data) s) in
  let s := match Radio.m_startedAt data with
           | Some t => Radio.setStartedAt (Some t) s
           | None => s
           end in
  match Radio.m_positionSeconds data with
  | Some p => Radio.syncPlaybackPosition render p s
  | None => s
  end.

Definition unscheduled_cells (st : Radio.State) : Radio.State :=
  Radio.setCurrentTrack (Some Radio.live_track)
    (Radio.setCurrentAsset None
       (Radio.setIsLive true (Radio.setIsScheduled false st))).

Definition unscheduled_result (render st : Radio.State) : Radio.State :=
  if String.eqb Radio.DEMO_STREAM_URL (Radio.currentStreamUrl render)
  then unscheduled_cells st
  else Radio.initAudio render Radio.DEMO_STREAM_URL
         (Radio.setCurrentStreamUrl Radio.DEMO_STREAM_URL
            (unscheduled_cells st)).

Definition deleted_result (render st : Radio.State) : Radio.State :=
  Radio.initAudio render Radio.DEMO_STREAM_URL
    (Radio.setCurrentStreamUrl Radio.DEMO_STREAM_URL
       (Radio.setIsLive true (Radio.setIsScheduled false st))).

Definition poll_scheduled_cells (st : Radio.State) (data : Radio.Message)
  (asset : RadioAsset) : Radio.State :=
  Radio.setListenerCount (Radio.or_127 (Radio.m_listenerCount data))
    (Radio.setDuration (inject_Z (Radio.m_durationSeconds data))
       (Radio.setCurrentTrack
          (Some {| Radio.title := asset_title asset;
                   Radio.artist := asset_artist asset;
                   Radio.coverUrl := None;
                   Radio.showName := Radio.m_showName data;
                   Radio.hostName := Radio.m_hostName data |})
          (Radio.setCurrentAsset (Some asset)
             (Radio.setIsLive false (Radio.setIsScheduled true st))))).

Definition poll_scheduled_result (render st : Radio.State)
  (data : Radio.Message) (asset : RadioAsset) : Radio.State :=
  let s := poll_scheduled_cells st data asset in
  let s := if String.eqb (Radio.m_streamUrl data)
                         (Radio.currentStreamUrl render)
           then s
           else Radio.initAudio render (Radio.m_streamUrl data)
                  (Radio.setCurrentStreamUrl (Radio.m_streamUrl data) s) in
  match Radio.m_positionSeconds data with
  | Some p => Radio.syncPlaybackPosition render p s
  | None => s
  end.

Definition poll_unscheduled_cells (st : Radio.State) (data : Radio.Message)
  : Radio.State :=
  Radio.setListenerCount (Radio.or_127 (Radio.m_listenerCount data))
    (Radio.setCurrentTrack
       (Some {| Radio.title :=
                  Radio.or_string (Radio.m_title data) "GroupTherapy Radio";
                Radio.artist :=
                  Radio.or_string (Radio.m_artist data) "Live Stream";
                Radio.coverUrl := Radio.m_coverUrl data;
                Radio.showName := Radio.m_showName data;
                Radio.hostName := Radio.m_hostName data |})
       (Radio.setIsLive true (Radio.setIsScheduled false st))).

Definition poll_unscheduled_result (render st : Radio.State)
  (data : Radio.Message) : Radio.State :=
  if String.eqb Radio.DEMO_STREAM_URL (Radio.currentStreamUrl render)
  then poll_unscheduled_cells st data
  else Radio.initAudio render Radio.DEMO_STREAM_URL
         (Radio.setCurrentStreamUrl Radio.DEMO_STREAM_URL
            (poll_unscheduled_cells st data)).

(** The element [a] is still there in [r], playing or paused as before and
    at the same volume. *)
Definition element_kept (a : Radio.Audio) (r : Radio.State) : Prop :=
  exists a', Radio.audioRef r = Some a' /\
             Radio.paused a' = Radio.paused a /\
             Radio.audio_volume a' = Radio.audio_volume a.

(** Password attempts in a row for one user name: each try is a password
    and the clock at which it is made. *)
Definition try_passwords (bcrypt_compare : string -> string -> bool)
  (d : Credentials.AccountDb) (name : string) (ip : option string)
  (tries : list (string * Z)) : Credentials.AccountDb :=
  fold_left
    (fun d try =>
       fst (Credentials.validateCredentials bcrypt_compare d name
              (fst try) ip (snd try)))
    tries d.

(** The attempt that a rejected login of [name] records at [now]. *)
Definition failed_attempt (name : string) (ip : option string) (now : Z)
  : Credentials.LoginAttempt :=
  {| Credentials.attempt_username := name; Credentials.ipAddress := ip;
     Credentials.successful := false; Credentials.attemptedAt := now |}.

(** ** Sample data used by the worked examples below *)

Module Examples.

Definition T0 : Z := 1700000000000.

Definition track_a : RadioAsset :=
  {| asset_id := "asset-a"; asset_title := "Morning Mix";
     asset_artist := "DJ Luna"; audioUrl := "https://cdn.example/a.mp3";
     durationSeconds := 180 |}.

Definition track_b : RadioAsset :=
  {| asset_id := "asset-b"; asset_title := "Night Mix";
     asset_artist := "Neon Pulse"; audioUrl := "https://cdn.example/b.mp3";
     durationSeconds := 60 |}.

(** a three-minute slot for [track_a] starting at [T0] *)
Definition slot_a : RadioScheduleItem :=
  {| schedule_id := "slot-a"; assetId := "asset-a"; showId := None;
     scheduledStart := T0; scheduledEnd := T0 + 180000 |}.

(** a one-minute slot for [track_b] inside the slot of [track_a] *)
Definition slot_b : RadioScheduleItem :=
  {| schedule_id := "slot-b"; assetId := "asset-b"; showId := None;
     scheduledStart := T0 + 60000; scheduledEnd := T0 + 120000 |}.

(** a ten-second slot for [track_b] that ends at [T0 + 90000] *)
Definition slot_k : RadioScheduleItem :=
  {| schedule_id := "slot-k"; assetId := "asset-b"; showId := None;
     scheduledStart := T0 + 80000; scheduledEnd := T0 + 90000 |}.

(** the same slot pointing at an asset that does not exist *)
Definition slot_dangling : RadioScheduleItem :=
  {| schedule_id := "slot-x"; assetId := "asset-gone"; showId := None;
     scheduledStart := T0 + 60000; scheduledEnd := T0 + 120000 |}.

Definition db_single : Database :=
  {| radioAssets := [track_a; track_b]; radioShows := [];
     radioSchedule := [slot_a] |}.

Definition db_overlap : Database :=
  {| radioAssets := [track_a; track_b]; radioShows := [];
     radioSchedule := [slot_a; slot_b] |}.

Definition db_three : Database :=
  {| radioAssets := [track_a; track_b]; radioShows := [];
     radioSchedule := [slot_a; slot_b; slot_k] |}.

Definition db_overlap_dangling : Database :=
  {| radioAssets := [track_a; track_b]; radioShows := [];
     radioSchedule := [slot_a; slot_dangling] |}.

Definition db_dangling : Database :=
  {| radioAssets := [track_a; track_b]; radioShows := [];
     radioSchedule := [slot_dangling] |}.

Definition rnd0 : Random := {| rnd_track := 1; rnd_listeners := 7 |}.

Definition listener (id : nat) (throws : bool) : Client :=
  {| client_id := id; write_throws := throws; written := [] |}.

Import Radio.

(** a [state] event announcing [asset] at [position] seconds *)
Definition scheduled_state (asset : RadioAsset) (started position : Z)
  : Message :=
  {| m_type := TState; m_isScheduled := true; m_currentAsset := Some asset;
     m_streamUrl := audioUrl asset; m_startedAt := Some started;
     m_positionSeconds := Some position; m_showName := None;
     m_hostName := None; m_durationSeconds := durationSeconds asset;
     m_listenerCount := None; m_title := None; m_artist := None;
     m_coverUrl := None |}.


End Examples.

(** ** Sample accounts *)

Module AccountExamples.

Import Credentials.

(** a stand-in for bcrypt: the hash is the password itself *)
Definition plain_compare (password hash : string) : bool :=
  String.eqb password hash.

Definition admin : AdminUser :=
  {| admin_username := "admin"; passwordHash := "s3cret"; isActive := true;
     lastLoginAt := None; updatedAt := None |}.

Definition accounts : AccountDb :=
  {| adminUsers := [ admin ]; loginAttempts := [] |}.

(** five wrong guesses, one a second *)
Definition guesses : list (string * Z) :=
  [ ("a", 1000); ("b", 2000); ("c", 3000); ("d", 4000); ("e", 5000) ].

Definition locked : AccountDb :=
  try_passwords plain_compare accounts "admin" None guesses.

Definition secret : Auth.AuthState := {| Auth.JWT_SECRET := "secret" |}.

End AccountExamples.

(** * Properties *)

(** ** The schedule lookup *)

Section Lookup.

Import Storage.

Lemma first_row_firstn_1 {A : Type} (rows : list A) :
  first_row (firstn 1 rows) = first_row rows.
Proof. destruct rows; reflexivity. Qed.

Lemma insert_desc_In x a rows :
  In x (insert_desc a rows) <-> x = a \/ In x rows.
Proof.
  induction rows as [|y rows IH]; simpl.
  - intuition auto.
  - destruct (scheduledStart y <=? scheduledStart a); simpl.
    + intuition auto.
    + rewrite IH. intuition auto.
Qed.

Lemma orderBy_desc_In x rows :
  In x (orderBy_desc_scheduledStart rows) <-> In x rows.
Proof.
  unfold orderBy_desc_scheduledStart.
  induction rows as [|y rows IH]; simpl; [tauto|].
  rewrite insert_desc_In, IH. intuition auto.
Qed.

Lemma insert_desc_head_latest a rows :
  head_latest rows -> head_latest (insert_desc a rows).
Proof.
  destruct rows as [|y rows]; simpl.
  - intros _ x [].
  - intros Hy. destruct (scheduledStart y <=? scheduledStart a) eqn:E.
    + apply Z.leb_le in E. intros x [<-|Hx]; [exact E|].
      specialize (Hy x Hx). lia.
    + apply Z.leb_gt in E. intros x Hx.
      apply insert_desc_In in Hx as [->|Hx]; [lia|auto].
Qed.

Lemma orderBy_desc_head_latest rows :
  head_latest (orderBy_desc_scheduledStart rows).
Proof.
  unfold orderBy_desc_scheduledStart.
  induction rows as [|y rows IH]; simpl; [exact I|].
  now apply insert_desc_head_latest.
Qed.

Lemma RadioScheduleItem_eq_dec (x y : RadioScheduleItem) :
  {x = y} + {x <> y}.
Proof.
  decide equality; try apply Z.eq_dec; try apply string_dec.
  decide equality. apply string_dec.
Qed.

Lemma active_at_iff now r :
  active_at now r = true <->
  scheduledStart r <= now /\ now <= scheduledEnd r.
Proof.
  unfold active_at, lte, gte.
  rewrite andb_true_iff, !Z.leb_le. tauto.
Qed.

(** What the lookup returns is a row of the table whose window, as the query
    tests it, holds [now], and no such row starts later. *)
Lemma getCurrentScheduledItem_Some d now r :
  getCurrentScheduledItem d now = Some r ->
  In r (radioSchedule d) /\ active_at now r = true /\
  forall x, In x (radioSchedule d) -> active_at now x = true ->
            scheduledStart x <= scheduledStart r.
Proof.
  unfold getCurrentScheduledItem. rewrite first_row_firstn_1.
  pose proof (orderBy_desc_head_latest (filter (active_at now) (radioSchedule d)))
    as Hhead.
  pose proof (fun x => orderBy_desc_In x (filter (active_at now) (radioSchedule d)))
    as Hin.
  destruct (orderBy_desc_scheduledStart _) as [|r' rest]; simpl; [discriminate|].
  intros [= ->].
  assert (Hr : In r (filter (active_at now) (radioSchedule d)))
    by (apply Hin; now left).
  apply filter_In in Hr as [Hr Hact].
  repeat split; auto.
  intros x Hx Hax.
  assert (Hx' : In x (r :: rest)) by (apply Hin, filter_In; auto).
  destruct Hx' as [<-|Hx']; [lia|now apply Hhead].
Qed.

Lemma getCurrentScheduledItem_None d now :
  getCurrentScheduledItem d now = None <->
  forall x, In x (radioSchedule d) -> active_at now x = false.
Proof.
  unfold getCurrentScheduledItem. rewrite first_row_firstn_1.
  pose proof (fun x => orderBy_desc_In x (filter (active_at now) (radioSchedule d)))
    as Hin.
  destruct (orderBy_desc_scheduledStart _) as [|r rest]; simpl.
  - split; [intros _ x Hx|reflexivity].
    destruct (active_at now x) eqn:E; [|reflexivity].
    exfalso. apply (Hin x), filter_In. auto.
  - split; [discriminate|]. intros Hnone. exfalso.
    assert (Hr : In r (filter (active_at now) (radioSchedule d)))
      by (apply Hin; now left).
    apply filter_In in Hr as [Hr Hact]. rewrite (Hnone r Hr) in Hact.
    discriminate.
Qed.

Lemma getCurrentScheduledItem_exists d now x :
  In x (radioSchedule d) -> active_at now x = true ->
  exists r, getCurrentScheduledItem d now = Some r.
Proof.
  intros Hx Hax.
  destruct (getCurrentScheduledItem d now) as [r|] eqn:E; [eauto|].
  rewrite getCurrentScheduledItem_None in E.
  rewrite (E x Hx) in Hax. discriminate.
Qed.

(** A row that starts strictly later than every other row holding [now] is
    the one returned. *)
Lemma getCurrentScheduledItem_latest d now item :
  In item (radioSchedule d) -> active_at now item = true ->
  (forall other, In other (radioSchedule d) -> active_at now other = true ->
                 other = item \/ scheduledStart other < scheduledStart item) ->
  getCurrentScheduledItem d now = Some item.
Proof.
  intros Hin Hact Hlate.
  destruct (getCurrentScheduledItem_exists d now item Hin Hact) as [r Hr].
  destruct (getCurrentScheduledItem_Some d now r Hr) as (Hrin & Hract & Hmax).
  destruct (Hlate r Hrin Hract) as [->|Hlt]; [exact Hr|].
  specialize (Hmax item Hin Hact). lia.
Qed.

End Lookup.

(** ** The metadata endpoint *)

Section Metadata.

Import Routes Examples.


Lemma getMetadata_unscheduled d queryNow now rnd :
  getCurrentScheduledItem d queryNow = None ->
  getMetadata d queryNow now rnd = fallback rnd.
Proof. intros Hcur. unfold getMetadata. now rewrite Hcur. Qed.

Lemma getMetadata_dangling d queryNow now rnd item :
  getCurrentScheduledItem d queryNow = Some item ->
  getRadioAssetById d (assetId item) = None ->
  getMetadata d queryNow now rnd = fallback rnd.
Proof. intros Hcur Hasset. unfold getMetadata. now rewrite Hcur, Hasset. Qed.

Lemma fallback_isScheduled rnd :
  status (fallback rnd) = 200 /\
  isScheduled_of (body (fallback rnd)) = Some false.
Proof. split; reflexivity. Qed.

(** C1, as stated, fails when windows overlap: at [T0 + 90 s] the slot of
    [track_a] holds the query time and its asset resolves, yet the lookup
    selects the later-starting slot, whose asset is missing, and the endpoint
    answers with the live fallback. *)
Lemma C1_counterexample_overlap :
  In slot_a (radioSchedule db_overlap_dangling) /\
  scheduledStart slot_a <= T0 + 90000 < scheduledEnd slot_a /\
  getRadioAssetById db_overlap_dangling (assetId slot_a) = Some track_a /\
  isScheduled_of
    (body (getMetadata db_overlap_dangling (T0 + 90000) (T0 + 90000) rnd0))
  = Some false.
Proof.
  repeat split; try (vm_compute; congruence).
  simpl. auto.
Qed.

(** C1 (amended): for a schedule item whose asset resolves, a query time
    [now] inside its window [[scheduledStart, scheduledEnd)], and no other
    item that the query keeps at [now] and that starts as late or later (so
    that the lookup selects this item), GET /api/radio/metadata answers
    [isScheduled = true] with
    [positionSeconds = clamp (floor ((now - scheduledStart) / 1000), 0,
    durationSeconds)]: the whole seconds since the start, never above the
    asset's duration and, the duration being non-negative, never negative. *)
Theorem C1_metadata_position_of_selected_item :
  forall d item asset now rnd,
    In item (radioSchedule d) ->
    scheduledStart item <= now < scheduledEnd item ->
    (forall other, In other (radioSchedule d) ->
       scheduledStart other <= now <= scheduledEnd other ->
       other = item \/ scheduledStart other < scheduledStart item) ->
    getRadioAssetById d (assetId item) = Some asset ->
    let response := getMetadata d now now rnd in
    let elapsed := (now - scheduledStart item) / 1000 in
    exists position,
      status response = 200 /\
      isScheduled_of (body response) = Some true /\
      positionSeconds_of (body response) = Some position /\
      position = clamp elapsed 0 (durationSeconds asset) /\
      position = Z.min elapsed (durationSeconds asset) /\
      0 <= elapsed /\
      position <= durationSeconds asset /\
      (0 <= durationSeconds asset -> 0 <= position).
Proof.
  intros d item asset now rnd Hin Hwin Hlate Hasset response elapsed.
  assert (Hcur : getCurrentScheduledItem d now = Some item).
  { apply getCurrentScheduledItem_latest; auto.
    - apply active_at_iff. lia.
    - intros other Ho Ha. apply Hlate; auto. now apply active_at_iff. }
  assert (Hel : 0 <= elapsed).
  { unfold elapsed. apply Z.div_pos; lia. }
  exists (Z.min elapsed (durationSeconds asset)).
  subst response. unfold getMetadata. rewrite Hcur, Hasset. simpl.
  unfold clamp. rewrite (Z.max_l elapsed 0) by lia.
  repeat split; auto; lia.
Qed.

Lemma C1_witness :
  exists position,
    positionSeconds_of
      (body (getMetadata db_single (T0 + 175500) (T0 + 175500) rnd0))
    = Some position /\ position = 175.
Proof.
  destruct (C1_metadata_position_of_selected_item
              db_single slot_a track_a (T0 + 175500) rnd0)
    as (position & _ & _ & Hpos & Hclamp & _).
  - simpl. auto.
  - vm_compute. split; [discriminate|reflexivity].
  - intros other [<-|[]] _. now left.
  - reflexivity.
  - exists position. split; [exact Hpos|]. rewrite Hclamp. reflexivity.
Defined.

(** C2, as stated, fails at the upper bound: the query keeps a row whose
    [scheduledEnd] equals [now] ([gte (scheduledEnd, now)]), so at exactly
    [T0 + 180 s] the slot is still selected and the endpoint still answers
    [isScheduled = true]. *)
Lemma C2_counterexample_at_scheduledEnd :
  scheduledEnd slot_a = T0 + 180000 /\
  getCurrentScheduledItem db_single (T0 + 180000) = Some slot_a /\
  isScheduled_of
    (body (getMetadata db_single (T0 + 180000) (T0 + 180000) rnd0))
  = Some true.
Proof. repeat split; vm_compute; reflexivity. Qed.

(** C2 (amended): when the query time lies outside every item's closed
    window [[scheduledStart, scheduledEnd]], that is before its start or
    strictly after its end (as in the spec's T+200s example), the lookup
    selects no item and the metadata endpoint answers the live fallback,
    [isScheduled = false]. *)
Theorem C2_outside_every_window_is_live :
  forall d now handlerNow rnd,
    (forall item, In item (radioSchedule d) ->
       now < scheduledStart item \/ scheduledEnd item < now) ->
    let response := getMetadata d now handlerNow rnd in
    getCurrentScheduledItem d now = None /\
    response = fallback rnd /\
    status response = 200 /\
    isScheduled_of (body response) = Some false.
Proof.
  intros d now handlerNow rnd Hout response.
  assert (Hcur : getCurrentScheduledItem d now = None).
  { apply getCurrentScheduledItem_None. intros x Hx.
    destruct (active_at now x) eqn:E; [|reflexivity].
    apply active_at_iff in E. specialize (Hout x Hx). lia. }
  subst response. rewrite (getMetadata_unscheduled _ _ _ _ Hcur).
  repeat split; auto.
Qed.

Lemma C2_witness :
  getCurrentScheduledItem db_single (T0 + 200000) = None /\
  isScheduled_of
    (body (getMetadata db_single (T0 + 200000) (T0 + 200000) rnd0))
  = Some false.
Proof.
  destruct (C2_outside_every_window_is_live
              db_single (T0 + 200000) (T0 + 200000) rnd0)
    as (Hnone & _ & _ & Hlive).
  - intros item [<-|[]]. right. vm_compute. reflexivity.
  - split; assumption.
Defined.

(** C3, as stated, fails when a third item ends at the query time: at
    [T0 + 90 s] the half-open windows of [slot_a] and [slot_b] contain the
    query time and [slot_b] starts latest among the items whose half-open
    window contains it, yet the lookup returns [slot_k], whose window ended
    at that very millisecond: the query keeps a row whose [scheduledEnd]
    equals [now]. *)
Lemma C3_counterexample_item_ending_at_now :
  In slot_a (radioSchedule db_three) /\
  In slot_b (radioSchedule db_three) /\
  slot_a <> slot_b /\
  (scheduledStart slot_a <= T0 + 90000 < scheduledEnd slot_a) /\
  (scheduledStart slot_b <= T0 + 90000 < scheduledEnd slot_b) /\
  (forall q, In q (radioSchedule db_three) ->
     scheduledStart q <= T0 + 90000 < scheduledEnd q ->
     scheduledStart q <= scheduledStart slot_b) /\
  ~ (scheduledStart slot_k <= T0 + 90000 < scheduledEnd slot_k) /\
  getCurrentScheduledItem db_three (T0 + 90000) = Some slot_k /\
  slot_k <> slot_b.
Proof.
  split; [simpl; tauto|]. split; [simpl; tauto|]. split; [discriminate|].
  split; [vm_compute; split; [discriminate|reflexivity]|].
  split; [vm_compute; split; [discriminate|reflexivity]|].
  split.
  { intros q [<-|[<-|[<-|[]]]] Hq; vm_compute; try discriminate.
    exfalso. vm_compute in Hq. destruct Hq as [_ Hq]. discriminate Hq. }
  split; [vm_compute; intros [_ H]; discriminate H|].
  split; [vm_compute; reflexivity|discriminate].
Qed.

(** C3 (amended): when the closed windows [[scheduledStart, scheduledEnd]]
    of two or more schedule items contain the query time (an item whose
    [scheduledEnd] is the query time counts), the lookup returns one of the
    items whose closed window contains it, and none of them starts later
    than the one returned; an item that starts strictly later than every
    other item whose closed window contains the query time is the one
    returned. *)
Theorem C3_overlap_latest_start_wins :
  forall d now i j,
    In i (radioSchedule d) -> In j (radioSchedule d) -> i <> j ->
    scheduledStart i <= now <= scheduledEnd i ->
    scheduledStart j <= now <= scheduledEnd j ->
    exists r,
      getCurrentScheduledItem d now = Some r /\
      In r (radioSchedule d) /\
      scheduledStart r <= now <= scheduledEnd r /\
      (forall k, In k (radioSchedule d) ->
         scheduledStart k <= now <= scheduledEnd k ->
         scheduledStart k <= scheduledStart r) /\
      (forall m, In m (radioSchedule d) ->
         scheduledStart m <= now <= scheduledEnd m ->
         (forall k, In k (radioSchedule d) ->
            scheduledStart k <= now <= scheduledEnd k ->
            k <> m -> scheduledStart k < scheduledStart m) ->
         r = m).
Proof.
  intros d now i j Hi Hj _ Hwi _.
  destruct (getCurrentScheduledItem_exists d now i Hi) as [r Hr];
    [now apply active_at_iff|].
  destruct (getCurrentScheduledItem_Some d now r Hr) as (Hrin & Hract & Hmax).
  apply active_at_iff in Hract.
  exists r. repeat split; auto; try lia.
  - intros k Hk Hwk. apply Hmax; auto. now apply active_at_iff.
  - intros m Hm Hwm Hstrict.
    assert (Hle : scheduledStart m <= scheduledStart r)
      by (apply Hmax; auto; now apply active_at_iff).
    assert (Hdec : r = m \/ r <> m)
      by (destruct (RadioScheduleItem_eq_dec r m); auto).
    destruct Hdec as [E|NE]; [exact E|].
    specialize (Hstrict r Hrin Hract NE). lia.
Qed.

Lemma C3_witness :
  getCurrentScheduledItem db_overlap (T0 + 90000) = Some slot_b.
Proof.
  destruct (C3_overlap_latest_start_wins db_overlap (T0 + 90000) slot_a slot_b)
    as (r & Hr & _ & _ & _ & Huniq).
  - simpl. auto.
  - simpl. auto.
  - discriminate.
  - vm_compute. split; discriminate.
  - vm_compute. split; discriminate.
  - rewrite Hr. f_equal. apply Huniq.
    + simpl. auto.
    + vm_compute. split; discriminate.
    + intros k [<-|[<-|[]]] _ Hne; [reflexivity|congruence].
Defined.

End Metadata.

(** ** The initial state of a new connection *)

Section InitialState.

Import Routes Examples.

Lemma initialState_unscheduled d queryNow now :
  getCurrentScheduledItem d queryNow = None ->
  initialState d queryNow now = Some (DataFrame (StateLive DEMO_STREAM_URL)).
Proof. intros Hcur. unfold initialState. now rewrite Hcur. Qed.

(** With a dangling asset the handler writes nothing: its [else], which
    sends the live state, belongs to [if (currentSchedule)]. *)
Lemma initialState_dangling d queryNow now item :
  getCurrentScheduledItem d queryNow = Some item ->
  getRadioAssetById d (assetId item) = None ->
  initialState d queryNow now = None.
Proof. intros Hcur Hasset. unfold initialState. now rewrite Hcur, Hasset. Qed.

(** C4 (defect in the stream-state handler): the only slot active at
    [T0 + 90 s]
    points at a missing asset.  GET /api/radio/metadata answers the live
    fallback, as with an empty schedule; a connection opened on
    /api/radio/stream-state at that moment is registered but is sent no
    [state] event at all, whereas with an empty schedule it is sent the live
    state. *)
Theorem C4_dangling_asset_no_initial_state :
  let now := T0 + 90000 in
  let nothing_scheduled :=
    {| radioAssets := radioAssets db_dangling; radioShows := [];
       radioSchedule := [] |} in
  getCurrentScheduledItem db_dangling now = Some slot_dangling /\
  getRadioAssetById db_dangling (assetId slot_dangling) = None /\
  getMetadata db_dangling now now rnd0 = fallback rnd0 /\
  getMetadata nothing_scheduled now now rnd0 = fallback rnd0 /\
  isScheduled_of (body (getMetadata db_dangling now now rnd0)) = Some false /\
  sseClients
    (streamState {| db := db_dangling; sseClients := [] |}
       (listener 1 false) now now)
  = [ listener 1 false ] /\
  sseClients
    (streamState {| db := nothing_scheduled; sseClients := [] |}
       (listener 1 false) now now)
  = [ deliver (DataFrame (StateLive DEMO_STREAM_URL)) (listener 1 false) ].
Proof. repeat split; vm_compute; reflexivity. Qed.

End InitialState.

(** ** Broadcasting *)

Section Broadcast.

Import Routes Examples.

Lemma write_ok f c :
  write_throws c = false -> write f c = Ok (deliver f c).
Proof. intros H. unfold write, deliver. now rewrite H. Qed.

Lemma write_throw f c :
  write_throws c = true -> write f c = Throw "write after end".
Proof. intros H. unfold write. now rewrite H. Qed.

(** When no connection throws, every connection receives the frame. *)
Lemma forEach_write_all f clients :
  (forall c, In c clients -> write_throws c = false) ->
  forEach_write f clients = (map (deliver f) clients, Ok tt).
Proof.
  induction clients as [|c rest IH]; intros Hok; cbn [forEach_write map];
    [reflexivity|].
  rewrite write_ok by (apply Hok; now left).
  rewrite IH by (intros x Hx; apply Hok; now right). reflexivity.
Qed.

(** The visit stops at the first connection that throws. *)
Lemma forEach_write_stops f before k after :
  (forall c, In c before -> write_throws c = false) ->
  write_throws k = true ->
  forEach_write f (before ++ k :: after)
  = (map (deliver f) before ++ k :: after, Throw "write after end").
Proof.
  induction before as [|c rest IH]; intros Hok Hk;
    cbn [forEach_write map app].
  - now rewrite write_throw.
  - rewrite write_ok by (apply Hok; now left).
    rewrite IH; auto. intros x Hx. apply Hok. now right.
Qed.

End Broadcast.

(** ** The schedule routes *)

Section ScheduleRoutes.

Import Routes Examples.

(** Inserting a schedule row leaves the assets alone, so the handler's
    lookup after the insert is a lookup in the database before it. *)
Lemma postSchedule_unfold st reqBody newId :
  postSchedule st reqBody newId
  = let created := createRadioSchedule (db st) reqBody newId in
    match getRadioAssetById (db st) (ins_assetId reqBody) with
    | Some asset =>
        let sent :=
          broadcastToSSEClients
            (ScheduleUpdate (snd created) (Some (asset_fields asset)))
            (sseClients st) in
        ({| db := fst created; sseClients := fst sent |},
         match snd sent with
         | Ok _ => json (JScheduleItem (snd created))
         | Throw m => fail 400 m
         end)
    | None =>
        ({| db := fst created; sseClients := sseClients st |},
         json (JScheduleItem (snd created)))
    end.
Proof.
  unfold postSchedule, createRadioSchedule. cbn [fst snd assetId].
  change (getRadioAssetById (with_schedule (db st) _) (ins_assetId reqBody))
    with (getRadioAssetById (db st) (ins_assetId reqBody)).
  destruct (getRadioAssetById (db st) (ins_assetId reqBody)); [|reflexivity].
  destruct (broadcastToSSEClients _ _). reflexivity.
Qed.

(** C6, as stated, fails: a create whose [assetId] names no asset succeeds
    (status 200, the row is stored) and nothing is written to the connected
    listener. *)
Lemma C6_counterexample_create_without_asset :
  let st := {| db := db_single; sseClients := [ listener 1 false ] |} in
  let reqBody := {| ins_assetId := "asset-gone"; ins_showId := None;
                    ins_scheduledStart := T0 + 300000;
                    ins_scheduledEnd := T0 + 360000 |} in
  let item := snd (createRadioSchedule db_single reqBody "slot-new") in
  let result := postSchedule st reqBody "slot-new" in
  getRadioAssetById db_single (ins_assetId reqBody) = None /\
  snd result = json (JScheduleItem item) /\
  radioSchedule (db (fst result)) = [ slot_a; item ] /\
  sseClients (fst result) = [ listener 1 false ].
Proof. repeat split. Qed.

(** C6 (amended): with connections that accept writes, a create whose
    [assetId] resolves, every successful update and every delete write one
    message to every connected listener: [schedule_update] with the item and
    its asset for the create, [schedule_update] with the item for the
    update, [schedule_deleted] with the identifier for the delete.  A create
    whose [assetId] does not resolve succeeds and broadcasts nothing. *)
Theorem C6_schedule_mutations_broadcast :
  forall st,
    (forall c, In c (sseClients st) -> write_throws c = false) ->
    (forall reqBody newId asset,
       getRadioAssetById (db st) (ins_assetId reqBody) = Some asset ->
       let created := createRadioSchedule (db st) reqBody newId in
       postSchedule st reqBody newId
       = ({| db := fst created;
             sseClients :=
               map (deliver (DataFrame
                               (ScheduleUpdate (snd created)
                                  (Some (asset_fields asset)))))
                   (sseClients st) |},
          json (JScheduleItem (snd created)))) /\
    (forall reqBody newId,
       getRadioAssetById (db st) (ins_assetId reqBody) = None ->
       let created := createRadioSchedule (db st) reqBody newId in
       postSchedule st reqBody newId
       = ({| db := fst created; sseClients := sseClients st |},
          json (JScheduleItem (snd created)))) /\
    (forall id reqBody d item,
       updateRadioSchedule (db st) id reqBody = Ok (d, item) ->
       exists asset,
         patchSchedule st id reqBody
         = ({| db := d;
               sseClients :=
                 map (deliver (DataFrame (ScheduleUpdate item asset)))
                     (sseClients st) |},
            json (JScheduleItem item))) /\
    (forall id,
       deleteSchedule st id
       = ({| db := deleteRadioSchedule (db st) id;
             sseClients :=
               map (deliver (DataFrame (ScheduleDeleted id))) (sseClients st) |},
          json (JMessage "Schedule item deleted"))).
Proof.
  intros st Hok. repeat split.
  - intros reqBody newId asset Hasset created.
    rewrite postSchedule_unfold, Hasset. unfold broadcastToSSEClients.
    rewrite forEach_write_all by assumption. reflexivity.
  - intros reqBody newId Hasset created.
    rewrite postSchedule_unfold, Hasset. reflexivity.
  - intros id reqBody d item Hupd. exists None.
    unfold patchSchedule, broadcastToSSEClients. rewrite Hupd.
    rewrite forEach_write_all by assumption. reflexivity.
  - intros id. unfold deleteSchedule, broadcastToSSEClients.
    rewrite forEach_write_all by assumption. reflexivity.
Qed.

Lemma C6_witness :
  let st := {| db := db_single; sseClients := [ listener 1 false ] |} in
  let reqBody := {| ins_assetId := "asset-b"; ins_showId := None;
                    ins_scheduledStart := T0 + 300000;
                    ins_scheduledEnd := T0 + 360000 |} in
  let item := snd (createRadioSchedule db_single reqBody "slot-new") in
  sseClients (fst (postSchedule st reqBody "slot-new"))
  = [ deliver (DataFrame (ScheduleUpdate item (Some track_b)))
        (listener 1 false) ] /\
  sseClients (fst (deleteSchedule st "slot-a"))
  = [ deliver (DataFrame (ScheduleDeleted "slot-a")) (listener 1 false) ].
Proof.
  intros st reqBody item.
  destruct (C6_schedule_mutations_broadcast st) as (Hnew & _ & _ & Hdel).
  - intros c [<-|[]]. reflexivity.
  - split.
    + rewrite (Hnew reqBody "slot-new" track_b); reflexivity.
    + rewrite Hdel. reflexivity.
Defined.

End ScheduleRoutes.

(** ** Double precision: the drift test *)

Section Doubles.

Import Radio.

Lemma two_ne_0 : ~ (2 == 0)%Q.
Proof. discriminate. Qed.

Lemma pow2_pos n : (0 < 2 ^ n)%Q.
Proof. apply Qpower_0_lt. reflexivity. Qed.

Lemma pow2_Z n : 0 <= n -> (2 ^ n == inject_Z (2 ^ n))%Q.
Proof. intros H. now rewrite (Zpower_Qpower 2 n H). Qed.

Lemma floor_log2_spec r :
  (0 < r)%Q -> (2 ^ floor_log2 r <= r)%Q /\ (r < 2 ^ (floor_log2 r + 1))%Q.
Proof.
  intros Hr. unfold floor_log2.
  destruct r as [p q]. cbn [Qnum Qden].
  assert (Hp : 0 < p) by (unfold Qlt in Hr; cbn in Hr; lia).
  pose proof (Z.log2_spec p Hp) as [Hp1 Hp2].
  pose proof (Z.log2_spec (Z.pos q) (Pos2Z.is_pos q)) as [Hq1 Hq2].
  pose proof (Z.log2_nonneg p) as Hlp.
  pose proof (Z.log2_nonneg (Z.pos q)) as Hlq.
  set (lp := Z.log2 p) in *. set (lq := Z.log2 (Z.pos q)) in *.
  rewrite Z.pow_succ_r in Hp2, Hq2 by assumption.
  assert (HP : 0 < 2 ^ lp) by (apply Z.pow_pos_nonneg; lia).
  assert (HQ : 0 < 2 ^ lq) by (apply Z.pow_pos_nonneg; lia).
  destruct (Qle_bool (2 ^ (lp - lq)) (p # q)) eqn:E.
  - apply Qle_bool_iff in E. split; [exact E|].
    replace (lp - lq + 1) with ((lp + 1) - lq) by lia.
    rewrite Qpower_minus by exact two_ne_0.
    rewrite (pow2_Z (lp + 1)), (pow2_Z lq) by lia.
    apply Qlt_shift_div_l.
    + change 0%Q with (inject_Z 0). rewrite <- Zlt_Qlt. exact HQ.
    + rewrite Z.pow_add_r by lia. unfold Qlt; cbn [Qmult Qnum Qden inject_Z].
      rewrite Pos.mul_1_r, Z.mul_1_r. change (2 ^ 1) with 2.
      set (P := 2 ^ lp) in *. set (D := 2 ^ lq) in *.
      apply Z.le_lt_trans with (m := p * Z.pos q).
      * apply Z.mul_le_mono_nonneg_l; lia.
      * apply Z.mul_lt_mono_pos_r; lia.
  - assert (Hlt : (p # q < 2 ^ (lp - lq))%Q).
    { apply Qnot_le_lt. intros H. apply Qle_bool_iff in H. congruence. }
    split.
    + replace (lp - lq - 1) with (lp - (lq + 1)) by lia.
      rewrite Qpower_minus by exact two_ne_0.
      rewrite (pow2_Z lp), (pow2_Z (lq + 1)) by lia.
      apply Qle_shift_div_r.
      * change 0%Q with (inject_Z 0). rewrite <- Zlt_Qlt.
        apply Z.pow_pos_nonneg; lia.
      * rewrite Z.pow_add_r by lia. unfold Qle; cbn [Qmult Qnum Qden inject_Z].
        rewrite Pos.mul_1_r, Z.mul_1_r. change (2 ^ 1) with 2.
        set (P := 2 ^ lp) in *. set (D := 2 ^ lq) in *.
        apply Z.le_trans with (m := p * Z.pos q).
        -- apply Z.mul_le_mono_nonneg_r; lia.
        -- apply Z.mul_le_mono_nonneg_l; lia.
    + now replace (lp - lq - 1 + 1) with (lp - lq) by lia.
Qed.

Lemma round_le_int r N :
  (r <= inject_Z N)%Q -> round_half_even r <= N.
Proof.
  intros H. unfold round_half_even.
  pose proof (Qfloor_le r) as Hf.
  assert (HfN : Qfloor r <= N)
    by (rewrite <- (Qfloor_Z N); now apply Qfloor_resp_le).
  destruct (Qcompare_spec (r - inject_Z (Qfloor r)) (1 # 2)) as [E|E|E];
    [|exact HfN|].
  - assert (Hlt : Qfloor r < N).
    { destruct (Z.eq_dec (Qfloor r) N) as [EN|]; [|lia].
      rewrite EN in E. lra. }
    destruct (Z.even (Qfloor r)); lia.
  - assert (Hlt : Qfloor r < N).
    { destruct (Z.eq_dec (Qfloor r) N) as [EN|]; [|lia].
      rewrite EN in E. lra. }
    lia.
Qed.

Lemma round_ge_int r N :
  (inject_Z N <= r)%Q -> N <= round_half_even r.
Proof.
  intros H. unfold round_half_even.
  assert (HfN : N <= Qfloor r)
    by (rewrite <- (Qfloor_Z N); now apply Qfloor_resp_le).
  destruct (Qcompare_spec (r - inject_Z (Qfloor r)) (1 # 2));
    try destruct (Z.even (Qfloor r)); lia.
Qed.

Lemma round_above_half r N :
  (inject_Z N + (1 # 2) < r)%Q -> N + 1 <= round_half_even r.
Proof.
  intros H. unfold round_half_even.
  assert (HfN : N <= Qfloor r).
  { rewrite <- (Qfloor_Z N). apply Qfloor_resp_le. lra. }
  destruct (Z.eq_dec (Qfloor r) N) as [EN|NE].
  - rewrite EN.
    destruct (Qcompare_spec (r - inject_Z N) (1 # 2)) as [E|E|E];
      [lra|lra|lia].
  - destruct (Qcompare_spec (r - inject_Z (Qfloor r)) (1 # 2));
      try destruct (Z.even (Qfloor r)); lia.
Qed.

Lemma round_up_to_half r N :
  Z.even N = true ->
  (r <= inject_Z N + (1 # 2))%Q -> round_half_even r <= N.
Proof.
  intros Heven H. unfold round_half_even.
  pose proof (Qfloor_le r) as Hf.
  assert (HfN : Qfloor r <= N).
  { assert (Hlt : (inject_Z (Qfloor r) < inject_Z (N + 1))%Q).
    { rewrite inject_Z_plus. 
      apply Qle_lt_trans with (y := r); [exact Hf|].
      change (inject_Z 1) with 1%Q. lra. }
    rewrite <- Zlt_Qlt in Hlt. lia. }
  destruct (Z.eq_dec (Qfloor r) N) as [EN|NE].
  - rewrite EN.
    destruct (Qcompare_spec (r - inject_Z N) (1 # 2)) as [E|E|E];
      [now rewrite Heven|lia|lra].
  - destruct (Qcompare_spec (r - inject_Z (Qfloor r)) (1 # 2));
      try destruct (Z.even (Qfloor r)); lia.
Qed.

Lemma to_double_magnitude r :
  ~ (r == 0)%Q ->
  let ulp := (2 ^ (floor_log2 (Qabs r) - 52))%Q in
  (Qabs (to_double r)
   == inject_Z (round_half_even (Qabs r / ulp)) * ulp)%Q.
Proof.
  intros Hr ulp. unfold to_double.
  destruct (Qeq_bool r 0) eqn:E; [apply Qeq_bool_iff in E; contradiction|].
  fold ulp.
  assert (Hulp : (0 < ulp)%Q) by apply pow2_pos.
  assert (Hm : (0 <= inject_Z (round_half_even (Qabs r / ulp)) * ulp)%Q).
  { apply Qmult_le_0_compat; [|now apply Qlt_le_weak].
    change 0%Q with (inject_Z 0). rewrite <- Zle_Qle.
    apply round_ge_int. change (inject_Z 0) with 0%Q.
    apply Qle_shift_div_l; [exact Hulp|].
    rewrite Qmult_0_l. apply Qabs_nonneg. }
  destruct (Qle_bool 0 r).
  - now apply Qabs_pos.
  - rewrite Qabs_opp. now apply Qabs_pos.
Qed.

(** The double difference exceeds 2 exactly when the exact difference
    exceeds the midpoint between 2 and the next double. *)
Lemma to_double_exceeds_2 r :
  (2 < Qabs (to_double r))%Q <-> (2 + half_step_after_2 < Qabs r)%Q.
Proof.
  unfold half_step_after_2.
  destruct (Qeq_dec r 0) as [E0|NE].
  - assert (Hd : to_double r = 0%Q).
    { unfold to_double. apply Qeq_bool_iff in E0. now rewrite E0. }
    rewrite Hd. rewrite E0. cbn. split; intros H; discriminate H.
  - rewrite (to_double_magnitude r NE). cbv zeta.
    assert (Ha : (0 < Qabs r)%Q).
    { destruct (Qlt_le_dec 0 (Qabs r)) as [H|H]; [exact H|].
      exfalso. apply NE.
      pose proof (Qabs_nonneg r) as Hn.
      assert (Hz : Qabs r == 0) by lra.
      destruct (Qlt_le_dec r 0) as [Hneg|Hpos].
      - rewrite Qabs_neg in Hz by lra. lra.
      - rewrite Qabs_pos in Hz by lra. exact Hz. }
    destruct (floor_log2_spec (Qabs r) Ha) as [Hlo Hhi].
    set (a := Qabs r) in *. set (e := floor_log2 a) in *.
    set (u := (2 ^ (e - 52))%Q).
    assert (Hu : (0 < u)%Q) by apply pow2_pos.
    assert (Hscale : forall k, (2 ^ k == inject_Z (2 ^ 52) * 2 ^ (k - 52))%Q).
    { intros k. rewrite <- (pow2_Z 52) by lia.
      rewrite <- Qpower_plus by exact two_ne_0.
      now replace (52 + (k - 52)) with k by lia. }
    set (m := inject_Z (round_half_even (a / u))).
    split.
    + (* the rounded difference exceeds 2 *)
      intros Hgt.
      destruct (Qlt_le_dec (2 + (1 # 4503599627370496)) a) as [H|H];
        [exact H|exfalso].
      assert (He : e <= 1).
      { assert (Hlt : (2 ^ e < 2 ^ 2)%Q).
        { apply Qle_lt_trans with (y := a); [exact Hlo|].
          change (2 ^ 2)%Q with 4%Q. lra. }
        apply Qpower_lt_compat_l_inv in Hlt; [lia|reflexivity]. }
      destruct (Z.eq_dec e 1) as [E1|NE1].
      * assert (Hm : round_half_even (a / u) <= 2 ^ 52).
        { apply round_up_to_half; [reflexivity|].
          apply Qle_shift_div_r; [exact Hu|].
          unfold u. rewrite E1.
          change (2 ^ (1 - 52))%Q with (1 # 2251799813685248)%Q.
          change (inject_Z (2 ^ 52)) with (4503599627370496 # 1)%Q. lra. }
        rewrite Zle_Qle in Hm. fold m in Hm.
        assert (Hle : (m * u <= inject_Z (2 ^ 52) * u)%Q)
          by (apply Qmult_le_compat_r; [exact Hm|lra]).
        pose proof (Hscale e) as Hs. fold u in Hs.
        rewrite E1 in Hs at 1. change (2 ^ 1)%Q with 2%Q in Hs.
        set (c := (inject_Z (2 ^ 52) * u)%Q) in *.
        set (v := (m * u)%Q) in *. lra.
      * assert (Hm : round_half_even (a / u) <= 2 ^ 53).
        { apply round_le_int.
          apply Qle_shift_div_r; [exact Hu|].
          apply Qlt_le_weak. apply Qlt_le_trans with (y := (2 ^ (e + 1))%Q);
            [exact Hhi|].
          apply Qle_lteq. right. unfold u.
          rewrite <- (pow2_Z 53) by lia.
          rewrite <- Qpower_plus by exact two_ne_0.
          now replace (53 + (e - 52)) with (e + 1) by lia. }
        rewrite Zle_Qle in Hm. fold m in Hm.
        assert (Hle : (m * u <= inject_Z (2 ^ 53) * u)%Q)
          by (apply Qmult_le_compat_r; [exact Hm|lra]).
        assert (Hpow : (inject_Z (2 ^ 53) * u == 2 ^ (e + 1))%Q).
        { unfold u. rewrite <- (pow2_Z 53) by lia.
          rewrite <- Qpower_plus by exact two_ne_0.
          now replace (53 + (e - 52)) with (e + 1) by lia. }
        assert (Hsmall : (2 ^ (e + 1) <= 2 ^ 1)%Q)
          by (apply Qpower_le_compat_l; [lia|discriminate]).
        change (2 ^ 1)%Q with 2%Q in Hsmall.
        set (c := (inject_Z (2 ^ 53) * u)%Q) in *.
        set (v := (m * u)%Q) in *. set (w := (2 ^ (e + 1))%Q) in *. lra.
    + (* the exact difference exceeds the midpoint *)
      intros Hgt.
      assert (He : 1 <= e).
      { assert (Hlt : (2 ^ 1 < 2 ^ (e + 1))%Q).
        { apply Qlt_trans with (y := a); [|exact Hhi].
          change (2 ^ 1)%Q with 2%Q. lra. }
        apply Qpower_lt_compat_l_inv in Hlt; [lia|reflexivity]. }
      destruct (Z.eq_dec e 1) as [E1|NE1].
      * assert (Hm : 2 ^ 52 + 1 <= round_half_even (a / u)).
        { apply round_above_half.
          apply Qlt_shift_div_l; [exact Hu|].
          unfold u. rewrite E1.
          change (2 ^ (1 - 52))%Q with (1 # 2251799813685248)%Q.
          change (inject_Z (2 ^ 52)) with (4503599627370496 # 1)%Q. lra. }
        rewrite Zle_Qle in Hm. fold m in Hm.
        assert (Hle : (inject_Z (2 ^ 52 + 1) * u <= m * u)%Q)
          by (apply Qmult_le_compat_r; [exact Hm|lra]).
        assert (Hc : (inject_Z (2 ^ 52 + 1) * u
                      == 2 + (1 # 2251799813685248))%Q).
        { unfold u. rewrite E1. reflexivity. }
        set (c := (inject_Z (2 ^ 52 + 1) * u)%Q) in *.
        set (v := (m * u)%Q) in *. lra.
      * assert (Hm : 2 ^ 52 <= round_half_even (a / u)).
        { apply round_ge_int.
          apply Qle_shift_div_l; [exact Hu|].
          pose proof (Hscale e) as Hs. fold u in Hs.
          apply Qle_trans with (y := (2 ^ e)%Q); [|exact Hlo].
          apply Qle_lteq. right. symmetry. exact Hs. }
        rewrite Zle_Qle in Hm. fold m in Hm.
        assert (Hle : (inject_Z (2 ^ 52) * u <= m * u)%Q)
          by (apply Qmult_le_compat_r; [exact Hm|lra]).
        pose proof (Hscale e) as Hs. fold u in Hs.
        assert (Hbig : (2 ^ 2 <= 2 ^ e)%Q)
          by (apply Qpower_le_compat_l; [lia|discriminate]).
        change (2 ^ 2)%Q with 4%Q in Hbig.
        set (c := (inject_Z (2 ^ 52) * u)%Q) in *.
        set (v := (m * u)%Q) in *. set (w := (2 ^ e)%Q) in *. lra.
Qed.

Lemma drift_exceeds_iff x y :
  drift_exceeds x y = true
  <-> (2 + half_step_after_2 < Qabs (x - y))%Q.
Proof.
  rewrite <- to_double_exceeds_2. unfold drift_exceeds.
  rewrite negb_true_iff. split.
  - intros H. apply Qnot_le_lt. intros Hle.
    apply Qle_bool_iff in Hle. congruence.
  - intros H.
    destruct (Qle_bool (Qabs (to_double (x - y))) 2) eqn:E; [|reflexivity].
    apply Qle_bool_iff in E. exfalso. apply (Qlt_not_le _ _ H E).
Qed.

End Doubles.

(** ** The client reconciler *)

Section Reconciler.

Import Radio Examples.


(** The drift correction, for a provider that was already scheduled when
    the message arrived: snap exactly when the drift test succeeds. *)
Lemma syncPlaybackPosition_scheduled st p s a asset :
  isLive st = false -> currentAsset st = Some asset -> audioRef s = Some a ->
  let target := inject_Z (Z.min p (durationSeconds asset)) in
  (drift_exceeds (currentTime a) target = true ->
   syncPlaybackPosition st p s = set_audioRef (Some (set_currentTime target a)) s)
  /\
  (drift_exceeds (currentTime a) target = false ->
   syncPlaybackPosition st p s = s).
Proof.
  intros Hlive Hasset Ha target. unfold syncPlaybackPosition.
  rewrite Ha, Hasset, Hlive. simpl. fold target.
  split; intros ->; reflexivity.
Qed.

(** The correction reads the asset of the render before the message: a
    provider scheduled with the one-minute [track_b] that is told
    [track_a] at 100 s snaps to 60 s. *)
Lemma sync_clamps_to_previous_asset :
  let st := run [ SSEMessage (Some (scheduled_state track_b T0 0)) ] in
  let st' := handleSSEMessage st (Some (scheduled_state track_a T0 100)) in
  option_map currentTime (audioRef st') = Some (inject_Z 60).
Proof. reflexivity. Qed.

(** C7 (defect in the drift correction): a provider that has just mounted is
    LIVE with its element at position zero.  The server's [state] event
    announces [track_a] at 100 s.  The provider becomes SCHEDULED and loads
    the asset, but the position stays at zero although it differs from the
    announced one by more than two seconds: [syncPlaybackPosition] tests the
    [isLive] and [currentAsset] of the render before the message. *)
Theorem C7_first_scheduled_message_is_not_synced :
  let st := run [] in
  let st' := handleSSEMessage st (Some (scheduled_state track_a T0 100)) in
  LIVE st /\ currentAsset st = None /\
  SCHEDULED st' /\ currentAsset st' = Some track_a /\
  option_map src (audioRef st') = Some (audioUrl track_a) /\
  option_map currentTime (audioRef st') = Some 0%Q /\
  drift_exceeds 0%Q (inject_Z (Z.min 100 (durationSeconds track_a))) = true.
Proof. repeat split. Qed.

(** C8: while the provider is scheduled with an asset and a start time, a
    run of the once-per-second updater sets
    [progress = min (floor ((now - startedAt) / 1000), durationSeconds)];
    the position it reports never exceeds the asset's duration, 180 for an
    asset of 180 seconds, however late [now] is. *)
Theorem C8_updateProgress_is_clamped :
  forall st startTime asset now,
    isScheduled st = true ->
    startedAt st = Some startTime ->
    currentAsset st = Some asset ->
    progress (updateProgress st now)
    = inject_Z (Z.min ((now - startTime) / 1000) (durationSeconds asset)) /\
    (progress (updateProgress st now) <= inject_Z (durationSeconds asset))%Q /\
    (durationSeconds asset = 180 ->
     (progress (updateProgress st now) <= 180)%Q).
Proof.
  intros st startTime asset now Hs Hstart Hasset.
  assert (Hp : progress (updateProgress st now)
               = inject_Z (Z.min ((now - startTime) / 1000)
                                 (durationSeconds asset))).
  { unfold updateProgress. rewrite Hs, Hstart, Hasset. reflexivity. }
  assert (Hle : (progress (updateProgress st now)
                 <= inject_Z (durationSeconds asset))%Q).
  { rewrite Hp. rewrite <- Zle_Qle. apply Z.le_min_r. }
  repeat split; auto.
  intros H180. rewrite H180 in Hle. exact Hle.
Qed.

Lemma C8_witness :
  let st := run [ SSEMessage (Some (scheduled_state track_a T0 175)) ] in
  progress (updateProgress st (T0 + 176000)) = inject_Z 176 /\
  progress (updateProgress st (T0 + 200000)) = inject_Z 180.
Proof.
  intros st. split.
  - destruct (C8_updateProgress_is_clamped st T0 track_a (T0 + 176000))
      as (Hp & _); [reflexivity .. |].
    rewrite Hp. reflexivity.
  - destruct (C8_updateProgress_is_clamped st T0 track_a (T0 + 200000))
      as (Hp & _); [reflexivity .. |].
    rewrite Hp. reflexivity.
Defined.

(** C9 (defect in the reconnect timer): on a message that is not
    scheduled the handler of the latest render puts the element on the
    default stream, but the handler of an earlier render may not, and
    [setTimeout (connectSSE, 5000)], which no cleanup clears, can subscribe
    that handler again.  [slot_a] is on air until [T0 + 180 s].
    A mounted provider loses its event stream ([onerror] arms the timer
    with the [connectSSE] of the mount render); the poll at [T0 + 177 s]
    answers that [track_a] is scheduled, and the provider is SCHEDULED with
    the asset loaded.  At [T0 + 182 s] the timer fires and subscribes the
    handler of the mount render; the server's initial [state] event says
    that nothing is scheduled.  The provider becomes LIVE but the element
    stays on the asset: the handler compares the default stream URL with
    the [currentStreamUrl] of its own render, which is the default stream
    URL.  The handler of the latest render reloads the default stream. *)
Theorem C9_stale_handler_leaves_the_asset_loaded :
  let mounted := run [] in
  let polled :=
    Wire.fromResponse
      (Routes.getMetadata db_single (T0 + 177000) (T0 + 177000) rnd0) in
  let st := run [ SSEError; MetadataResponse polled ] in
  let event := Routes.StateLive Routes.DEMO_STREAM_URL in
  let st' := step st (SSEMessageFrom mounted (Some (Wire.fromData event))) in
  Routes.initialState db_single (T0 + 182000) (T0 + 182000)
  = Some (Routes.DataFrame event) /\
  SCHEDULED st /\
  option_map src (audioRef st) = Some (audioUrl track_a) /\
  LIVE st' /\
  currentStreamUrl st' = audioUrl track_a /\
  option_map src (audioRef st') = Some (audioUrl track_a) /\
  audioUrl track_a <> DEMO_STREAM_URL /\
  option_map src
    (audioRef (step st (SSEMessage (Some (Wire.fromData event)))))
  = Some DEMO_STREAM_URL.
Proof. repeat split; vm_compute; congruence. Qed.

End Reconciler.

(** ** Sessions *)

Section Sessions.

Import Auth.

(** C10: [deleteSession] changes nothing: [validateSession] gives the same
    answer for every token before and after it, the logout route leaves the
    module's state as it was, and a token issued at login for a non-empty
    user name still validates after logout at every moment of its 24 hours. *)
Theorem C10_deleteSession_is_a_no_op :
  forall st token now,
    validateSession (deleteSession st token) token now
    = validateSession st token now /\
    fst (logout st (Some token)) = st /\
    (forall name issued,
       name <> "" ->
       issued <= now < issued + 24 * 60 * 60 ->
       let bearer := createSession st name issued in
       validateSession (fst (logout st (Some bearer))) bearer now = Some name).
Proof.
  intros st token now. repeat split.
  intros name issued Hname Hlife bearer. subst bearer.
  unfold logout, deleteSession, validateSession, verifyToken, createSession,
    generateToken, jwt_sign, jwt_verify, JWT_EXPIRES_IN. cbn [fst exp username].
  rewrite String.eqb_refl. cbn [negb].
  destruct (Z.leb_spec (issued + 24 * 60 * 60) now) as [H|H]; [lia|].
  cbn [username].
  destruct (String.eqb_spec name ""); [contradiction|reflexivity].
Qed.

Lemma C10_witness :
  let st := {| JWT_SECRET := "secret" |} in
  let bearer := createSession st "admin" 1700000000 in
  validateSession (fst (logout st (Some bearer))) bearer (1700000000 + 86399)
  = Some "admin".
Proof.
  intros st bearer.
  destruct (C10_deleteSession_is_a_no_op st bearer (1700000000 + 86399))
    as (_ & _ & Hvalid).
  apply (Hvalid "admin" 1700000000).
  - discriminate.
  - lia.
Defined.

End Sessions.

(** * Further properties of the storage layer, the routes and the client *)

(** ** server/storage.ts: the schedule table *)

Section ScheduleTable.

Import Storage.

Lemma insert_desc_Permutation x rows :
  Permutation (x :: rows) (insert_desc x rows).
Proof.
  induction rows as [|y rows IH]; simpl; [reflexivity|].
  destruct (scheduledStart y <=? scheduledStart x); [reflexivity|].
  rewrite perm_swap. now constructor.
Qed.

Lemma insert_desc_sorted x rows :
  StronglySorted (fun a b => scheduledStart b <= scheduledStart a) rows ->
  StronglySorted (fun a b => scheduledStart b <= scheduledStart a)
    (insert_desc x rows).
Proof.
  induction rows as [|y rows IH]; simpl; intros Hs.
  - constructor; constructor.
  - inversion Hs as [|? ? Hrows Hy]; subst.
    destruct (scheduledStart y <=? scheduledStart x) eqn:E.
    + apply Z.leb_le in E. constructor; [exact Hs|].
      constructor; [exact E|].
      rewrite Forall_forall in *. intros z Hz. specialize (Hy z Hz). lia.
    + apply Z.leb_gt in E. constructor; [now apply IH|].
      rewrite Forall_forall in *. intros z Hz.
      apply insert_desc_In in Hz as [->|Hz]; [lia|auto].
Qed.

(** X1: [getAllRadioSchedule] returns every row of the table exactly once,
    the later [scheduledStart] first. *)
Theorem getAllRadioSchedule_sorted_permutation :
  forall d,
    Permutation (radioSchedule d) (getAllRadioSchedule d) /\
    StronglySorted (fun a b => scheduledStart b <= scheduledStart a)
      (getAllRadioSchedule d).
Proof.
  intros d. unfold getAllRadioSchedule, orderBy_desc_scheduledStart.
  induction (radioSchedule d) as [|x rows [IHp IHs]]; simpl.
  - split; constructor.
  - split.
    + rewrite <- insert_desc_Permutation. now constructor.
    + now apply insert_desc_sorted.
Qed.

Lemma first_row_None {A : Type} (rows : list A) :
  first_row rows = None -> rows = [].
Proof. destruct rows; [reflexivity|discriminate]. Qed.

Lemma filter_id_after_delete id id' rows :
  filter (fun r => String.eqb (schedule_id r) id')
    (filter (fun r => negb (String.eqb (schedule_id r) id)) rows)
  = if String.eqb id id' then []
    else filter (fun r => String.eqb (schedule_id r) id') rows.
Proof.
  induction rows as [|r rows IH]; simpl.
  - now destruct (String.eqb id id').
  - destruct (String.eqb_spec (schedule_id r) id) as [E|NE]; simpl.
    + rewrite IH. destruct (String.eqb_spec id id') as [E'|NE']; [reflexivity|].
      destruct (String.eqb_spec (schedule_id r) id'); [congruence|reflexivity].
    + rewrite IH. destruct (String.eqb_spec id id') as [E'|NE'].
      * destruct (String.eqb_spec (schedule_id r) id'); [congruence|reflexivity].
      * reflexivity.
Qed.

Lemma filter_all_true {A : Type} (f : A -> bool) rows :
  (forall x, In x rows -> f x = true) -> filter f rows = rows.
Proof.
  induction rows as [|x rows IH]; intros H; simpl; [reflexivity|].
  rewrite (H x) by now left. f_equal. apply IH. intros y Hy. apply H. now right.
Qed.

Lemma filter_none {A : Type} (f : A -> bool) rows :
  filter f rows = [] -> forall x, In x rows -> f x = false.
Proof.
  induction rows as [|y rows IH]; simpl; intros H x Hx; [contradiction|].
  destruct (f y) eqn:E; [discriminate|].
  destruct Hx as [<-|Hx]; auto.
Qed.

Lemma with_schedule_same d : with_schedule d (radioSchedule d) = d.
Proof. now destruct d. Qed.

Lemma create_then_lookup :
  forall d schedule newId,
    getRadioScheduleById d newId = None ->
    let d' := fst (createRadioSchedule d schedule newId) in
    let row := snd (createRadioSchedule d schedule newId) in
    getRadioScheduleById d' newId = Some row /\
    schedule_id row = newId /\
    assetId row = ins_assetId schedule /\
    showId row = ins_showId schedule /\
    scheduledStart row = ins_scheduledStart schedule /\
    scheduledEnd row = ins_scheduledEnd schedule /\
    (forall id, id <> newId ->
       getRadioScheduleById d' id = getRadioScheduleById d id) /\
    radioAssets d' = radioAssets d /\ radioShows d' = radioShows d.
Proof.
  intros d schedule newId Hfresh d' row.
  unfold getRadioScheduleById in *. apply first_row_None in Hfresh.
  repeat split; auto.
  - subst d' row. simpl. rewrite filter_app, Hfresh. simpl.
    now rewrite String.eqb_refl.
  - intros id Hid. subst d'. simpl. rewrite filter_app. simpl.
    destruct (String.eqb_spec newId id); [congruence|].
    now rewrite app_nil_r.
Qed.

(** X2: a row inserted under an identifier no row has yet is what a lookup
    of that identifier returns; it has the inserted columns, and the lookup
    of every other identifier is as before. *)
Theorem createRadioSchedule_then_lookup :
  forall d schedule newId,
    getRadioScheduleById d newId = None ->
    let d' := fst (createRadioSchedule d schedule newId) in
    let row := snd (createRadioSchedule d schedule newId) in
    getRadioScheduleById d' newId = Some row /\
    schedule_id row = newId /\
    assetId row = ins_assetId schedule /\
    showId row = ins_showId schedule /\
    scheduledStart row = ins_scheduledStart schedule /\
    scheduledEnd row = ins_scheduledEnd schedule /\
    (forall id, id <> newId ->
       getRadioScheduleById d' id = getRadioScheduleById d id) /\
    radioAssets d' = radioAssets d /\ radioShows d' = radioShows d.
Proof. exact create_then_lookup. Qed.

Lemma createRadioSchedule_witness :
  getRadioScheduleById
    (fst (createRadioSchedule Examples.db_single
            {| ins_assetId := "asset-b"; ins_showId := None;
               ins_scheduledStart := 5; ins_scheduledEnd := 9 |} "slot-new"))
    "slot-new"
  = Some {| schedule_id := "slot-new"; assetId := "asset-b"; showId := None;
            scheduledStart := 5; scheduledEnd := 9 |}.
Proof.
  destruct (createRadioSchedule_then_lookup Examples.db_single
              {| ins_assetId := "asset-b"; ins_showId := None;
                 ins_scheduledStart := 5; ins_scheduledEnd := 9 |} "slot-new")
    as (Hget & _).
  - reflexivity.
  - exact Hget.
Defined.

Lemma delete_then_lookup :
  forall d id,
    getRadioScheduleById (deleteRadioSchedule d id) id = None /\
    (forall id', id' <> id ->
       getRadioScheduleById (deleteRadioSchedule d id) id'
       = getRadioScheduleById d id') /\
    (getRadioScheduleById d id = None -> deleteRadioSchedule d id = d).
Proof.
  intros d id. unfold getRadioScheduleById, deleteRadioSchedule. simpl.
  repeat split.
  - now rewrite filter_id_after_delete, String.eqb_refl.
  - intros id' Hid. rewrite filter_id_after_delete.
    destruct (String.eqb_spec id id'); [congruence|reflexivity].
  - intros Hnone. apply first_row_None in Hnone.
    rewrite filter_all_true; [apply with_schedule_same|].
    intros x Hx. now rewrite (filter_none _ _ Hnone x Hx).
Qed.

(** X3: after [deleteRadioSchedule] the identifier is gone, the lookup of
    every other identifier is as before, and deleting an identifier that no
    row has leaves the database as it was. *)
Theorem deleteRadioSchedule_then_lookup :
  forall d id,
    getRadioScheduleById (deleteRadioSchedule d id) id = None /\
    (forall id', id' <> id ->
       getRadioScheduleById (deleteRadioSchedule d id) id'
       = getRadioScheduleById d id') /\
    (getRadioScheduleById d id = None -> deleteRadioSchedule d id = d).
Proof. exact delete_then_lookup. Qed.

Lemma deleteRadioSchedule_witness :
  deleteRadioSchedule Examples.db_single "slot-zzz" = Examples.db_single.
Proof.
  destruct (deleteRadioSchedule_then_lookup Examples.db_single "slot-zzz")
    as (_ & _ & Hsame).
  apply Hsame. reflexivity.
Defined.

Lemma lookup_after_update update id id' rows :
  (forall r, schedule_id r = id -> schedule_id (apply_update update r) = id) ->
  first_row
    (filter (fun r => String.eqb (schedule_id r) id')
       (map (fun r => if String.eqb (schedule_id r) id
                      then apply_update update r else r) rows))
  = if String.eqb id id'
    then option_map (apply_update update)
           (first_row (filter (fun r => String.eqb (schedule_id r) id) rows))
    else first_row (filter (fun r => String.eqb (schedule_id r) id') rows).
Proof.
  intros Hkeep. induction rows as [|r rows IH]; cbn [map filter].
  - now destruct (String.eqb id id').
  - destruct (String.eqb_spec (schedule_id r) id) as [E|NE].
    + rewrite (Hkeep r E). destruct (String.eqb_spec id id') as [E'|NE'].
      * reflexivity.
      * destruct (String.eqb_spec (schedule_id r) id'); [congruence|exact IH].
    + destruct (String.eqb_spec id id') as [E'|NE'].
      * destruct (String.eqb_spec (schedule_id r) id'); [congruence|exact IH].
      * destruct (String.eqb (schedule_id r) id'); [reflexivity|exact IH].
Qed.

Lemma apply_update_keeps_id update id r :
  upd_id update = None \/ upd_id update = Some id ->
  schedule_id r = id -> schedule_id (apply_update update r) = id.
Proof. intros [H|H] E; cbn [apply_update schedule_id]; now rewrite H. Qed.

Lemma update_without_values d id update :
  has_values update = false ->
  updateRadioSchedule d id update = Throw "No values to set".
Proof. intros H. unfold updateRadioSchedule. now rewrite H. Qed.

Lemma update_then_lookup :
  forall d id update,
    has_values update = true ->
    (getRadioScheduleById d id = None ->
     updateRadioSchedule d id update = Throw "Radio schedule not found") /\
    (forall r,
       getRadioScheduleById d id = Some r ->
       exists d',
         updateRadioSchedule d id update = Ok (d', apply_update update r) /\
         (upd_scheduledStart update = None ->
          scheduledStart (apply_update update r) = scheduledStart r) /\
         (forall t, upd_scheduledStart update = Some t ->
          scheduledStart (apply_update update r) = t) /\
         (forall newId, upd_id update = Some newId ->
          schedule_id (apply_update update r) = newId) /\
         List.length (radioSchedule d') = List.length (radioSchedule d) /\
         radioAssets d' = radioAssets d /\
         (upd_id update = None \/ upd_id update = Some id ->
          schedule_id (apply_update update r) = id /\
          getRadioScheduleById d' id = Some (apply_update update r) /\
          forall id', id' <> id ->
            getRadioScheduleById d' id' = getRadioScheduleById d id')).
Proof.
  intros d id update Hvalues.
  unfold getRadioScheduleById, updateRadioSchedule. rewrite Hvalues.
  split.
  - intros Hnone. apply first_row_None in Hnone. now rewrite Hnone.
  - intros r Hr.
    destruct (filter (fun r0 => String.eqb (schedule_id r0) id)
                (radioSchedule d)) as [|r' hits] eqn:Hhits; [discriminate|].
    cbn [first_row hd_error] in Hr. injection Hr as ->.
    cbn [map first_row hd_error].
    eexists. split; [reflexivity|]. cbn [radioSchedule with_schedule radioAssets].
    assert (Hid : schedule_id r = id).
    { assert (Hin : In r (filter (fun r0 => String.eqb (schedule_id r0) id)
                            (radioSchedule d)))
        by (rewrite Hhits; now left).
      apply filter_In in Hin as [_ Hin]. now apply String.eqb_eq. }
    split; [intros H; cbn [apply_update scheduledStart]; now rewrite H|].
    split; [intros t H; cbn [apply_update scheduledStart]; now rewrite H|].
    split; [intros newId H; cbn [apply_update schedule_id]; now rewrite H|].
    split; [now rewrite length_map|].
    split; [reflexivity|].
    intros Hsame.
    assert (Hkeep : forall x, schedule_id x = id ->
                              schedule_id (apply_update update x) = id)
      by (intros x; now apply apply_update_keeps_id).
    split; [now apply Hkeep|]. split.
    + rewrite lookup_after_update by exact Hkeep.
      rewrite String.eqb_refl, Hhits. reflexivity.
    + intros id' Hid'. rewrite lookup_after_update by exact Hkeep.
      destruct (String.eqb_spec id id'); [congruence|reflexivity].
Qed.

(** X4: [updateRadioSchedule] throws "No values to set" when the update
    gives no column, whatever the identifier, and "Radio schedule not
    found" when it gives one and no row has the identifier.  Otherwise it
    returns the row with the given columns replaced and the others kept,
    and the table keeps its size.  When the update leaves the identifier as
    it is, a lookup of the identifier then returns the new row and the
    lookup of every other identifier is as before. *)
Theorem updateRadioSchedule_then_lookup :
  forall d id update,
    (has_values update = false ->
     updateRadioSchedule d id update = Throw "No values to set") /\
    (has_values update = true ->
     getRadioScheduleById d id = None ->
     updateRadioSchedule d id update = Throw "Radio schedule not found") /\
    (forall r,
       has_values update = true ->
       getRadioScheduleById d id = Some r ->
       exists d',
         updateRadioSchedule d id update = Ok (d', apply_update update r) /\
         (upd_scheduledStart update = None ->
          scheduledStart (apply_update update r) = scheduledStart r) /\
         (forall t, upd_scheduledStart update = Some t ->
          scheduledStart (apply_update update r) = t) /\
         (forall newId, upd_id update = Some newId ->
          schedule_id (apply_update update r) = newId) /\
         List.length (radioSchedule d') = List.length (radioSchedule d) /\
         radioAssets d' = radioAssets d /\
         (upd_id update = None \/ upd_id update = Some id ->
          schedule_id (apply_update update r) = id /\
          getRadioScheduleById d' id = Some (apply_update update r) /\
          forall id', id' <> id ->
            getRadioScheduleById d' id' = getRadioScheduleById d id')).
Proof.
  intros d id update. split; [apply update_without_values|]. split.
  - intros Hvalues. now apply update_then_lookup.
  - intros r Hvalues. now apply update_then_lookup.
Qed.

Lemma updateRadioSchedule_witness :
  updateRadioSchedule Examples.db_single "slot-a"
    {| upd_id := None; upd_assetId := None; upd_showId := None;
       upd_scheduledStart := None; upd_scheduledEnd := None |}
  = Throw "No values to set" /\
  updateRadioSchedule Examples.db_single "slot-zzz"
    {| upd_id := None; upd_assetId := None; upd_showId := None;
       upd_scheduledStart := Some 5; upd_scheduledEnd := None |}
  = Throw "Radio schedule not found" /\
  exists d',
    updateRadioSchedule Examples.db_single "slot-a"
      {| upd_id := None; upd_assetId := None; upd_showId := None;
         upd_scheduledStart := Some 5; upd_scheduledEnd := None |}
    = Ok (d', {| schedule_id := "slot-a"; assetId := "asset-a";
                 showId := None; scheduledStart := 5;
                 scheduledEnd := Examples.T0 + 180000 |}) /\
    getRadioScheduleById d' "slot-a"
    = Some {| schedule_id := "slot-a"; assetId := "asset-a";
              showId := None; scheduledStart := 5;
              scheduledEnd := Examples.T0 + 180000 |}.
Proof.
  split; [|split].
  - destruct (updateRadioSchedule_then_lookup Examples.db_single "slot-a"
                {| upd_id := None; upd_assetId := None; upd_showId := None;
                   upd_scheduledStart := None; upd_scheduledEnd := None |})
      as (Hempty & _).
    apply Hempty. reflexivity.
  - destruct (updateRadioSchedule_then_lookup Examples.db_single "slot-zzz"
                {| upd_id := None; upd_assetId := None; upd_showId := None;
                   upd_scheduledStart := Some 5; upd_scheduledEnd := None |})
      as (_ & Hthrow & _).
    apply Hthrow; reflexivity.
  - destruct (updateRadioSchedule_then_lookup Examples.db_single "slot-a"
                {| upd_id := None; upd_assetId := None; upd_showId := None;
                   upd_scheduledStart := Some 5; upd_scheduledEnd := None |})
      as (_ & _ & Hok).
    destruct (Hok Examples.slot_a eq_refl eq_refl)
      as (d' & Hupd & _ & _ & _ & _ & _ & Hlook).
    destruct (Hlook (or_introl eq_refl)) as (_ & Hget & _).
    exists d'. split; [exact Hupd|exact Hget].
Defined.

End ScheduleTable.

(** ** server/routes.ts: the schedule routes and the registry *)

Section RegistryFacts.

Import Routes ScheduleReads Examples.

Lemma forEach_write_throws f clients :
  (exists c, In c clients /\ write_throws c = true) ->
  snd (forEach_write f clients) = Throw "write after end".
Proof.
  induction clients as [|c rest IH]; intros (k & Hin & Hk);
    [contradiction|].
  cbn [forEach_write]. unfold write at 1.
  destruct (write_throws c) eqn:Hc; [reflexivity|].
  destruct Hin as [->|Hin]; [congruence|].
  specialize (IH (ex_intro _ k (conj Hin Hk))).
  destruct (forEach_write f rest). exact IH.
Qed.

Lemma postSchedule_db st reqBody newId :
  db (fst (postSchedule st reqBody newId))
  = fst (createRadioSchedule (db st) reqBody newId).
Proof.
  rewrite postSchedule_unfold. cbv zeta.
  destruct (getRadioAssetById _ _); reflexivity.
Qed.

(** X5: what a schedule route changes in the database does not depend on
    the broadcast.  A created item can be read back under its fresh
    identifier and a deleted identifier reads 404, whether or not an asset
    resolves and whether or not a listener's write throws; and when a write
    does throw, the route answers 400 although the change is stored. *)
Theorem schedule_mutation_is_stored_whatever_the_broadcast_does :
  forall st,
    (forall reqBody newId,
       getRadioScheduleById (db st) newId = None ->
       getScheduleItem (fst (postSchedule st reqBody newId)) newId
       = json (JScheduleItem
                 (snd (createRadioSchedule (db st) reqBody newId)))) /\
    (forall id reqBody d item,
       updateRadioSchedule (db st) id reqBody = Ok (d, item) ->
       db (fst (patchSchedule st id reqBody)) = d) /\
    (forall id,
       db (fst (deleteSchedule st id)) = deleteRadioSchedule (db st) id /\
       getScheduleItem (fst (deleteSchedule st id)) id
       = fail 404 "Schedule item not found") /\
    ((exists c, In c (sseClients st) /\ write_throws c = true) ->
     (forall reqBody newId asset,
        getRadioAssetById (db st) (ins_assetId reqBody) = Some asset ->
        status (snd (postSchedule st reqBody newId)) = 400) /\
     (forall id reqBody d item,
        updateRadioSchedule (db st) id reqBody = Ok (d, item) ->
        status (snd (patchSchedule st id reqBody)) = 400) /\
     (forall id, status (snd (deleteSchedule st id)) = 400)).
Proof.
  intros st. repeat split.
  - intros reqBody newId Hfresh. unfold getScheduleItem.
    rewrite postSchedule_db.
    destruct (create_then_lookup (db st) reqBody newId Hfresh)
      as (Hget & _).
    now rewrite Hget.
  - intros id reqBody d item Hupd. unfold patchSchedule. rewrite Hupd.
    destruct (broadcastToSSEClients _ _). reflexivity.
  - unfold deleteSchedule. destruct (broadcastToSSEClients _ _). reflexivity.
  - unfold getScheduleItem.
    assert (Hdb : db (fst (deleteSchedule st id))
                  = deleteRadioSchedule (db st) id).
    { unfold deleteSchedule. destruct (broadcastToSSEClients _ _).
      reflexivity. }
    rewrite Hdb.
    destruct (delete_then_lookup (db st) id) as (Hgone & _).
    now rewrite Hgone.
  - intros reqBody newId asset Hasset.
    rewrite postSchedule_unfold, Hasset. cbv zeta. cbn [snd].
    unfold broadcastToSSEClients. now rewrite forEach_write_throws.
  - intros id reqBody d item Hupd. unfold patchSchedule. rewrite Hupd.
    unfold broadcastToSSEClients.
    pose proof (forEach_write_throws
                  (DataFrame (ScheduleUpdate item None)) _ H) as Hthrow.
    destruct (forEach_write _ _) as [cs r]. simpl in *. now rewrite Hthrow.
  - intros id. unfold deleteSchedule, broadcastToSSEClients.
    pose proof (forEach_write_throws
                  (DataFrame (ScheduleDeleted id)) _ H) as Hthrow.
    destruct (forEach_write _ _) as [cs r]. simpl in *. now rewrite Hthrow.
Qed.

Lemma schedule_mutation_is_stored_witness :
  let st := {| db := db_single;
               sseClients := [ listener 1 false; listener 2 true ] |} in
  let reqBody := {| ins_assetId := "asset-b"; ins_showId := None;
                    ins_scheduledStart := T0 + 300000;
                    ins_scheduledEnd := T0 + 360000 |} in
  status (snd (postSchedule st reqBody "slot-new")) = 400 /\
  getScheduleItem (fst (postSchedule st reqBody "slot-new")) "slot-new"
  = json (JScheduleItem (snd (createRadioSchedule db_single reqBody "slot-new"))).
Proof.
  intros st reqBody.
  destruct (schedule_mutation_is_stored_whatever_the_broadcast_does st)
    as (Hpost & _ & _ & Hthrow).
  split.
  - destruct Hthrow as (H400 & _).
    + exists (listener 2 true). split; [simpl; auto|reflexivity].
    + apply (H400 reqBody "slot-new" track_b). reflexivity.
  - apply Hpost. reflexivity.
Defined.

(** X6: an identifier that no schedule item has.  PATCH answers 400 and
    changes nothing, with no broadcast; the message is "No values to set"
    for a body without values and "Radio schedule not found" for any
    other.  DELETE answers 200 "Schedule item deleted", leaves the database
    as it was and still sends [schedule_deleted] to every listener. *)
Theorem schedule_routes_on_unknown_id :
  forall st id,
    getRadioScheduleById (db st) id = None ->
    (forall reqBody,
       patchSchedule st id reqBody
       = (st, fail 400 (if has_values reqBody
                        then "Radio schedule not found"
                        else "No values to set"))) /\
    ((forall c, In c (sseClients st) -> write_throws c = false) ->
     deleteSchedule st id
     = ({| db := db st;
           sseClients :=
             map (deliver (DataFrame (ScheduleDeleted id))) (sseClients st) |},
        json (JMessage "Schedule item deleted"))).
Proof.
  intros st id Hnone. split.
  - intros reqBody. unfold patchSchedule.
    destruct (has_values reqBody) eqn:Hvalues.
    + destruct (update_then_lookup (db st) id reqBody Hvalues)
        as (Hthrow & _).
      now rewrite (Hthrow Hnone).
    + now rewrite (update_without_values _ _ _ Hvalues).
  - intros Hok. unfold deleteSchedule, broadcastToSSEClients.
    rewrite forEach_write_all by assumption.
    destruct (delete_then_lookup (db st) id) as (_ & _ & Hsame).
    now rewrite (Hsame Hnone).
Qed.

Lemma schedule_routes_on_unknown_id_witness :
  let st := {| db := db_single; sseClients := [ listener 1 false ] |} in
  deleteSchedule st "slot-zzz"
  = ({| db := db_single;
        sseClients :=
          [ deliver (DataFrame (ScheduleDeleted "slot-zzz")) (listener 1 false) ] |},
     json (JMessage "Schedule item deleted")) /\
  patchSchedule st "slot-zzz"
    {| upd_id := None; upd_assetId := None; upd_showId := None;
       upd_scheduledStart := None; upd_scheduledEnd := None |}
  = (st, fail 400 "No values to set") /\
  patchSchedule st "slot-zzz"
    {| upd_id := None; upd_assetId := None; upd_showId := None;
       upd_scheduledStart := Some 5; upd_scheduledEnd := None |}
  = (st, fail 400 "Radio schedule not found").
Proof.
  intros st.
  destruct (schedule_routes_on_unknown_id st "slot-zzz") as (Hpatch & Hdel).
  - reflexivity.
  - split; [|split].
    + apply Hdel. intros c [<-|[]]. reflexivity.
    + apply Hpatch.
    + apply Hpatch.
Defined.

Lemma Set_delete_try_write_to id f clients :
  Set_delete id (try_write_to id f clients) = Set_delete id clients.
Proof.
  unfold Set_delete, try_write_to.
  induction clients as [|c rest IH]; simpl; [reflexivity|].
  destruct (Nat.eqb (client_id c) id) eqn:E.
  - assert (Hid : Nat.eqb
                    (client_id (match write f c with
                                | Ok c' => c'
                                | Throw _ => c
                                end)) id = true).
    { unfold write. destruct (write_throws c); simpl; exact E. }
    rewrite Hid. simpl. exact IH.
  - simpl. rewrite E. simpl. now rewrite IH.
Qed.

Lemma Set_delete_absent id clients :
  has_client id clients = false -> Set_delete id clients = clients.
Proof.
  unfold has_client, Set_delete. intros H.
  apply filter_all_true. intros c Hc.
  destruct (Nat.eqb (client_id c) id) eqn:E; [|reflexivity].
  assert (Hex : existsb (fun c => Nat.eqb (client_id c) id) clients = true)
    by (apply existsb_exists; eauto).
  congruence.
Qed.

Lemma has_client_try_write_to id id' f clients :
  has_client id (try_write_to id' f clients) = has_client id clients.
Proof.
  unfold has_client, try_write_to.
  induction clients as [|c rest IH]; simpl; [reflexivity|].
  rewrite IH. f_equal.
  destruct (Nat.eqb (client_id c) id'); [|reflexivity].
  unfold write. now destruct (write_throws c).
Qed.

(** X7: a connection that opens under a new identity is in the registry
    afterwards, and its [close] event takes exactly it out again: the
    registry is then what it was before the connection, and the database is
    never touched.  A [close] leaves every other connection as it was. *)
Theorem connect_then_close :
  forall st res queryNow now,
    has_client (client_id res) (sseClients st) = false ->
    let connected := streamState st res queryNow now in
    has_client (client_id res) (sseClients connected) = true /\
    db connected = db st /\
    onClose connected (client_id res) = st /\
    (forall id c,
       In c (sseClients (onClose connected id)) <->
       In c (sseClients connected) /\ client_id c <> id).
Proof.
  intros st res queryNow now Hfresh connected.
  assert (Hadd : Set_add res (sseClients st) = sseClients st ++ [res]).
  { unfold Set_add. now rewrite Hfresh. }
  split; [|split; [|split]].
  - subst connected. unfold streamState. simpl. rewrite Hadd.
    assert (Hhas : has_client (client_id res) (sseClients st ++ [res]) = true).
    { unfold has_client. rewrite existsb_app. simpl.
      rewrite Nat.eqb_refl. now rewrite orb_true_r. }
    destruct (initialState _ _ _); [now rewrite has_client_try_write_to|auto].
  - reflexivity.
  - subst connected. unfold onClose, streamState. simpl. rewrite Hadd.
    assert (Hdel : Set_delete (client_id res) (sseClients st ++ [res])
                   = sseClients st).
    { unfold Set_delete. rewrite filter_app. simpl.
      rewrite Nat.eqb_refl. simpl. rewrite app_nil_r.
      now apply Set_delete_absent. }
    destruct (initialState _ _ _);
      [rewrite Set_delete_try_write_to|]; rewrite Hdel; now destruct st.
  - intros id c. unfold onClose, Set_delete. simpl.
    rewrite filter_In, negb_true_iff, Nat.eqb_neq. tauto.
Qed.

Lemma connect_then_close_witness :
  let st := {| db := db_single; sseClients := [ listener 1 false ] |} in
  onClose (streamState st (listener 2 false) T0 T0) 2 = st.
Proof.
  intros st.
  destruct (connect_then_close st (listener 2 false) T0 T0) as (_ & _ & H & _).
  - reflexivity.
  - exact H.
Defined.

(** X8: whatever the connections do, a broadcast keeps the registry's
    connections in their order, and on each connection it either leaves
    what was written or appends the one frame to it; nothing written
    earlier is lost and nothing else is written. *)
Theorem broadcast_only_appends :
  forall data clients,
    Forall2
      (fun c c' =>
         client_id c' = client_id c /\
         write_throws c' = write_throws c /\
         (written c' = written c \/
          write_throws c = false /\
          written c' = written c ++ [ DataFrame data ]))
      clients (fst (broadcastToSSEClients data clients)).
Proof.
  intros data clients. unfold broadcastToSSEClients.
  induction clients as [|c rest IH]; cbn [forEach_write fst]; [constructor|].
  unfold write at 1. destruct (write_throws c) eqn:Hc.
  - cbn [fst]. constructor; [auto|].
    clear IH. induction rest; constructor; auto.
  - destruct (forEach_write (DataFrame data) rest) as [rest' r].
    cbn [fst] in *. constructor; [|exact IH]. simpl. auto.
Qed.

(** X9: two broadcasts in a row reach every connection in the order they
    were sent, when no write throws. *)
Theorem broadcasts_arrive_in_send_order :
  forall first second clients,
    (forall c, In c clients -> write_throws c = false) ->
    let after :=
      broadcastToSSEClients second
        (fst (broadcastToSSEClients first clients)) in
    snd after = Ok tt /\
    Forall2
      (fun c c' =>
         client_id c' = client_id c /\
         written c' = written c ++ [ DataFrame first; DataFrame second ])
      clients (fst after).
Proof.
  intros first second clients Hok after. subst after.
  unfold broadcastToSSEClients.
  rewrite (forEach_write_all (DataFrame first)) by assumption. cbn [fst].
  rewrite forEach_write_all.
  - split; [reflexivity|]. cbn [fst]. clear Hok.
    induction clients as [|c rest IH]; simpl; constructor; auto.
    simpl. split; [reflexivity|]. now rewrite <- app_assoc.
  - intros c Hc. apply in_map_iff in Hc as (c0 & <- & Hc0). simpl. auto.
Qed.

Lemma broadcasts_arrive_in_send_order_witness :
  fst (broadcastToSSEClients (ScheduleDeleted "b")
         (fst (broadcastToSSEClients (ScheduleDeleted "a")
                 [ listener 1 false ])))
  = [ {| client_id := 1; write_throws := false;
         written := [ DataFrame (ScheduleDeleted "a");
                      DataFrame (ScheduleDeleted "b") ] |} ].
Proof.
  destruct (broadcasts_arrive_in_send_order
              (ScheduleDeleted "a") (ScheduleDeleted "b") [ listener 1 false ])
    as (_ & H).
  - intros c [<-|[]]. reflexivity.
  - reflexivity.
Defined.

(** X10: once the connections whose writes throw have had their [close]
    event, a broadcast reaches every connection that is left. *)
Theorem broadcast_after_close_reaches_everyone :
  forall st id data,
    (forall c, In c (sseClients st) ->
       write_throws c = true -> client_id c = id) ->
    broadcastToSSEClients data (sseClients (onClose st id))
    = (map (deliver (DataFrame data)) (Set_delete id (sseClients st)), Ok tt).
Proof.
  intros st id data Honly. unfold broadcastToSSEClients, onClose. simpl.
  apply forEach_write_all. intros c Hc.
  unfold Set_delete in Hc. apply filter_In in Hc as [Hin Hne].
  apply negb_true_iff, Nat.eqb_neq in Hne.
  destruct (write_throws c) eqn:E; [|reflexivity].
  elim Hne. now apply Honly.
Qed.

Lemma broadcast_after_close_witness :
  let st := {| db := db_single;
               sseClients := [ listener 1 false; listener 2 true;
                               listener 3 false ] |} in
  broadcastToSSEClients (ScheduleDeleted "slot-a") (sseClients (onClose st 2))
  = ([ deliver (DataFrame (ScheduleDeleted "slot-a")) (listener 1 false);
       deliver (DataFrame (ScheduleDeleted "slot-a")) (listener 3 false) ],
     Ok tt).
Proof.
  intros st.
  rewrite (broadcast_after_close_reaches_everyone st 2%nat).
  - reflexivity.
  - intros c [<-|[<-|[<-|[]]]]; simpl; (discriminate || reflexivity).
Defined.

End RegistryFacts.

(** ** The client's RadioProvider: what its handlers keep *)

Section ProviderFacts.

Import Radio Examples.

(** [initAudio] and [syncPlaybackPosition] touch the element only. *)
Lemma initAudio_isPlaying st url s :
  isPlaying (initAudio st url s) = isPlaying s.
Proof. unfold initAudio. now destruct (audioRef s). Qed.

Lemma initAudio_volume st url s :
  volume (initAudio st url s) = volume s.
Proof. unfold initAudio. now destruct (audioRef s). Qed.

Lemma initAudio_isExpanded st url s :
  isExpanded (initAudio st url s) = isExpanded s.
Proof. unfold initAudio. now destruct (audioRef s). Qed.

Lemma initAudio_progress st url s :
  progress (initAudio st url s) = progress s.
Proof. unfold initAudio. now destruct (audioRef s). Qed.

Lemma initAudio_duration st url s :
  duration (initAudio st url s) = duration s.
Proof. unfold initAudio. now destruct (audioRef s). Qed.

Lemma initAudio_listenerCount st url s :
  listenerCount (initAudio st url s) = listenerCount s.
Proof. unfold initAudio. now destruct (audioRef s). Qed.

Lemma initAudio_isScheduled st url s :
  isScheduled (initAudio st url s) = isScheduled s.
Proof. unfold initAudio. now destruct (audioRef s). Qed.

Lemma initAudio_currentStreamUrl st url s :
  currentStreamUrl (initAudio st url s) = currentStreamUrl s.
Proof. unfold initAudio. now destruct (audioRef s). Qed.

Lemma initAudio_currentAsset st url s :
  currentAsset (initAudio st url s) = currentAsset s.
Proof. unfold initAudio. now destruct (audioRef s). Qed.

Lemma initAudio_startedAt st url s :
  startedAt (initAudio st url s) = startedAt s.
Proof. unfold initAudio. now destruct (audioRef s). Qed.

Lemma initAudio_currentTrack st url s :
  currentTrack (initAudio st url s) = currentTrack s.
Proof. unfold initAudio. now destruct (audioRef s). Qed.

Lemma initAudio_isLive st url s :
  isLive (initAudio st url s) = isLive s.
Proof. unfold initAudio. now destruct (audioRef s). Qed.

Lemma initAudio_sseConnectedRef st url s :
  sseConnectedRef (initAudio st url s) = sseConnectedRef s.
Proof. unfold initAudio. now destruct (audioRef s). Qed.

Lemma syncPlaybackPosition_isPlaying st p s :
  isPlaying (syncPlaybackPosition st p s) = isPlaying s.
Proof.
  unfold syncPlaybackPosition.
  destruct (audioRef s), (currentAsset st), (negb (isLive st));
    try reflexivity.
  now destruct (drift_exceeds _ _).
Qed.

Lemma syncPlaybackPosition_volume st p s :
  volume (syncPlaybackPosition st p s) = volume s.
Proof.
  unfold syncPlaybackPosition.
  destruct (audioRef s), (currentAsset st), (negb (isLive st));
    try reflexivity.
  now destruct (drift_exceeds _ _).
Qed.

Lemma syncPlaybackPosition_isExpanded st p s :
  isExpanded (syncPlaybackPosition st p s) = isExpanded s.
Proof.
  unfold syncPlaybackPosition.
  destruct (audioRef s), (currentAsset st), (negb (isLive st));
    try reflexivity.
  now destruct (drift_exceeds _ _).
Qed.

Lemma syncPlaybackPosition_progress st p s :
  progress (syncPlaybackPosition st p s) = progress s.
Proof.
  unfold syncPlaybackPosition.
  destruct (audioRef s), (currentAsset st), (negb (isLive st));
    try reflexivity.
  now destruct (drift_exceeds _ _).
Qed.

Lemma syncPlaybackPosition_duration st p s :
  duration (syncPlaybackPosition st p s) = duration s.
Proof.
  unfold syncPlaybackPosition.
  destruct (audioRef s), (currentAsset st), (negb (isLive st));
    try reflexivity.
  now destruct (drift_exceeds _ _).
Qed.

Lemma syncPlaybackPosition_listenerCount st p s :
  listenerCount (syncPlaybackPosition st p s) = listenerCount s.
Proof.
  unfold syncPlaybackPosition.
  destruct (audioRef s), (currentAsset st), (negb (isLive st));
    try reflexivity.
  now destruct (drift_exceeds _ _).
Qed.

Lemma syncPlaybackPosition_isScheduled st p s :
  isScheduled (syncPlaybackPosition st p s) = isScheduled s.
Proof.
  unfold syncPlaybackPosition.
  destruct (audioRef s), (currentAsset st), (negb (isLive st));
    try reflexivity.
  now destruct (drift_exceeds _ _).
Qed.

Lemma syncPlaybackPosition_currentStreamUrl st p s :
  currentStreamUrl (syncPlaybackPosition st p s) = currentStreamUrl s.
Proof.
  unfold syncPlaybackPosition.
  destruct (audioRef s), (currentAsset st), (negb (isLive st));
    try reflexivity.
  now destruct (drift_exceeds _ _).
Qed.

Lemma syncPlaybackPosition_currentAsset st p s :
  currentAsset (syncPlaybackPosition st p s) = currentAsset s.
Proof.
  unfold syncPlaybackPosition.
  destruct (audioRef s), (currentAsset st), (negb (isLive st));
    try reflexivity.
  now destruct (drift_exceeds _ _).
Qed.

Lemma syncPlaybackPosition_startedAt st p s :
  startedAt (syncPlaybackPosition st p s) = startedAt s.
Proof.
  unfold syncPlaybackPosition.
  destruct (audioRef s), (currentAsset st), (negb (isLive st));
    try reflexivity.
  now destruct (drift_exceeds _ _).
Qed.

Lemma syncPlaybackPosition_currentTrack st p s :
  currentTrack (syncPlaybackPosition st p s) = currentTrack s.
Proof.
  unfold syncPlaybackPosition.
  destruct (audioRef s), (currentAsset st), (negb (isLive st));
    try reflexivity.
  now destruct (drift_exceeds _ _).
Qed.

Lemma syncPlaybackPosition_isLive st p s :
  isLive (syncPlaybackPosition st p s) = isLive s.
Proof.
  unfold syncPlaybackPosition.
  destruct (audioRef s), (currentAsset st), (negb (isLive st));
    try reflexivity.
  now destruct (drift_exceeds _ _).
Qed.

Lemma syncPlaybackPosition_sseConnectedRef st p s :
  sseConnectedRef (syncPlaybackPosition st p s) = sseConnectedRef s.
Proof.
  unfold syncPlaybackPosition.
  destruct (audioRef s), (currentAsset st), (negb (isLive st));
    try reflexivity.
  now destruct (drift_exceeds _ _).
Qed.

Lemma setStartedAt_isPlaying v s : isPlaying (setStartedAt v s) = isPlaying s.
Proof. reflexivity. Qed.

Lemma setStartedAt_volume v s : volume (setStartedAt v s) = volume s.
Proof. reflexivity. Qed.

Lemma setStartedAt_isExpanded v s : isExpanded (setStartedAt v s) = isExpanded s.
Proof. reflexivity. Qed.

Lemma setStartedAt_progress v s : progress (setStartedAt v s) = progress s.
Proof. reflexivity. Qed.

Lemma setStartedAt_duration v s : duration (setStartedAt v s) = duration s.
Proof. reflexivity. Qed.

Lemma setStartedAt_listenerCount v s : listenerCount (setStartedAt v s) = listenerCount s.
Proof. reflexivity. Qed.

Lemma setStartedAt_isScheduled v s : isScheduled (setStartedAt v s) = isScheduled s.
Proof. reflexivity. Qed.

Lemma setStartedAt_currentStreamUrl v s : currentStreamUrl (setStartedAt v s) = currentStreamUrl s.
Proof. reflexivity. Qed.

Lemma setStartedAt_currentAsset v s : currentAsset (setStartedAt v s) = currentAsset s.
Proof. reflexivity. Qed.

Lemma setStartedAt_startedAt v s : startedAt (setStartedAt v s) = v.
Proof. reflexivity. Qed.

Lemma setStartedAt_currentTrack v s : currentTrack (setStartedAt v s) = currentTrack s.
Proof. reflexivity. Qed.

Lemma setStartedAt_isLive v s : isLive (setStartedAt v s) = isLive s.
Proof. reflexivity. Qed.

Lemma setStartedAt_sseConnectedRef v s : sseConnectedRef (setStartedAt v s) = sseConnectedRef s.
Proof. reflexivity. Qed.

Lemma setStartedAt_audioRef v s : audioRef (setStartedAt v s) = audioRef s.
Proof. reflexivity. Qed.

Create Rewrite HintDb cells.

Hint Rewrite
  initAudio_isPlaying syncPlaybackPosition_isPlaying setStartedAt_isPlaying
  initAudio_volume syncPlaybackPosition_volume setStartedAt_volume
  initAudio_isExpanded syncPlaybackPosition_isExpanded setStartedAt_isExpanded
  initAudio_progress syncPlaybackPosition_progress setStartedAt_progress
  initAudio_duration syncPlaybackPosition_duration setStartedAt_duration
  initAudio_listenerCount syncPlaybackPosition_listenerCount setStartedAt_listenerCount
  initAudio_isScheduled syncPlaybackPosition_isScheduled setStartedAt_isScheduled
  initAudio_currentStreamUrl syncPlaybackPosition_currentStreamUrl setStartedAt_currentStreamUrl
  initAudio_currentAsset syncPlaybackPosition_currentAsset setStartedAt_currentAsset
  initAudio_startedAt syncPlaybackPosition_startedAt setStartedAt_startedAt
  initAudio_currentTrack syncPlaybackPosition_currentTrack setStartedAt_currentTrack
  initAudio_isLive syncPlaybackPosition_isLive setStartedAt_isLive
  initAudio_sseConnectedRef syncPlaybackPosition_sseConnectedRef setStartedAt_sseConnectedRef
  setStartedAt_audioRef
  : cells.

Lemma handleSSEMessageFrom_branches render st data :
  handleSSEMessageFrom render st (Some data)
  = match m_type data with
    | TState | TScheduleUpdate =>
        match m_isScheduled data, m_currentAsset data with
        | true, Some asset => scheduled_result render st data asset
        | _, _ => unscheduled_result render st
        end
    | TScheduleDeleted => deleted_result render st
    | TOther => st
    end.
Proof. reflexivity. Qed.


Lemma fetchMetadataFrom_branches render st data :
  fetchMetadataFrom render st (Some data)
  = match m_isScheduled data, m_currentAsset data with
    | true, Some asset => poll_scheduled_result render st data asset
    | _, _ => poll_unscheduled_result render st data
    end.
Proof. reflexivity. Qed.

Lemma fetchMetadata_branches st data :
  fetchMetadata st (Some data)
  = if sseConnectedRef st then st
    else match m_isScheduled data, m_currentAsset data with
         | true, Some asset => poll_scheduled_result st st data asset
         | _, _ => poll_unscheduled_result st st data
         end.
Proof. reflexivity. Qed.

(** *** The cells each branch leaves *)

(** The stream the state names after a handler compared [url] with the
    [currentStreamUrl] of its render. *)
Lemma url_after_agree (url : string) render st :
  currentStreamUrl render = currentStreamUrl st ->
  (if String.eqb url (currentStreamUrl render)
   then currentStreamUrl st else url) = url.
Proof.
  intros E. destruct (String.eqb_spec url (currentStreamUrl render)); congruence.
Qed.

Lemma scheduled_result_cells render st data asset :
  let r := scheduled_result render st data asset in
  isScheduled r = true /\ isLive r = false /\
  currentAsset r = Some asset /\
  currentStreamUrl r
  = (if String.eqb (m_streamUrl data) (currentStreamUrl render)
     then currentStreamUrl st else m_streamUrl data) /\
  startedAt r = match m_startedAt data with
                | Some t => Some t
                | None => startedAt st
                end /\
  duration r = inject_Z (durationSeconds asset) /\
  volume r = volume st /\ isPlaying r = isPlaying st /\
  progress r = progress st /\ sseConnectedRef r = sseConnectedRef st.
Proof.
  unfold scheduled_result. cbv zeta.
  destruct (m_positionSeconds data), (m_startedAt data),
    (String.eqb (m_streamUrl data) (currentStreamUrl render));
    autorewrite with cells; repeat split; vm_compute; reflexivity.
Qed.

Lemma unscheduled_result_cells render st :
  let r := unscheduled_result render st in
  isScheduled r = false /\ isLive r = true /\ currentAsset r = None /\
  currentStreamUrl r
  = (if String.eqb DEMO_STREAM_URL (currentStreamUrl render)
     then currentStreamUrl st else DEMO_STREAM_URL) /\
  startedAt r = startedAt st /\
  volume r = volume st /\ isPlaying r = isPlaying st /\
  progress r = progress st /\ sseConnectedRef r = sseConnectedRef st.
Proof.
  unfold unscheduled_result. cbv zeta.
  destruct (String.eqb DEMO_STREAM_URL (currentStreamUrl render));
    autorewrite with cells; repeat split; vm_compute; reflexivity.
Qed.

Lemma deleted_result_cells render st :
  let r := deleted_result render st in
  isScheduled r = false /\ isLive r = true /\
  currentAsset r = currentAsset st /\
  currentStreamUrl r = DEMO_STREAM_URL /\
  startedAt r = startedAt st /\
  volume r = volume st /\ isPlaying r = isPlaying st /\
  progress r = progress st /\ sseConnectedRef r = sseConnectedRef st.
Proof.
  unfold deleted_result. cbv zeta. autorewrite with cells.
  repeat split; vm_compute; reflexivity.
Qed.

Lemma poll_scheduled_result_cells render st data asset :
  let r := poll_scheduled_result render st data asset in
  isScheduled r = true /\ isLive r = false /\
  currentAsset r = Some asset /\
  currentStreamUrl r
  = (if String.eqb (m_streamUrl data) (currentStreamUrl render)
     then currentStreamUrl st else m_streamUrl data) /\
  startedAt r = startedAt st /\
  volume r = volume st /\ isPlaying r = isPlaying st /\
  progress r = progress st /\ sseConnectedRef r = sseConnectedRef st.
Proof.
  unfold poll_scheduled_result. cbv zeta.
  destruct (m_positionSeconds data),
    (String.eqb (m_streamUrl data) (currentStreamUrl render));
    autorewrite with cells; repeat split; vm_compute; reflexivity.
Qed.

Lemma poll_unscheduled_result_cells render st data :
  let r := poll_unscheduled_result render st data in
  isScheduled r = false /\ isLive r = true /\
  currentAsset r = currentAsset st /\
  currentStreamUrl r
  = (if String.eqb DEMO_STREAM_URL (currentStreamUrl render)
     then currentStreamUrl st else DEMO_STREAM_URL) /\
  startedAt r = startedAt st /\
  volume r = volume st /\ isPlaying r = isPlaying st /\
  progress r = progress st /\ sseConnectedRef r = sseConnectedRef st.
Proof.
  unfold poll_unscheduled_result. cbv zeta.
  destruct (String.eqb DEMO_STREAM_URL (currentStreamUrl render));
    autorewrite with cells; repeat split; vm_compute; reflexivity.
Qed.

(** *** The element each branch leaves *)

Lemma element_kept_initAudio st url s a :
  element_kept a s -> element_kept a (initAudio st url s).
Proof.
  intros (a' & Ha' & Hp & Hv). unfold initAudio. rewrite Ha'.
  destruct (paused a') eqn:E; eexists; (split; [reflexivity|]);
    cbn; split; congruence.
Qed.

Lemma element_kept_syncPlaybackPosition st p s a :
  element_kept a s -> element_kept a (syncPlaybackPosition st p s).
Proof.
  intros (a' & Ha' & Hp & Hv). unfold syncPlaybackPosition. rewrite Ha'.
  destruct (currentAsset st); [|now exists a'].
  destruct (negb (isLive st)); [|now exists a'].
  destruct (drift_exceeds _ _); [|now exists a'].
  eexists. split; [reflexivity|]. split; assumption.
Qed.

Lemma element_kept_cells a s s' :
  audioRef s' = audioRef s -> element_kept a s -> element_kept a s'.
Proof. intros E (a' & Ha' & H). exists a'. now rewrite E. Qed.

Lemma element_kept_setStartedAt a v s :
  element_kept a s -> element_kept a (setStartedAt v s).
Proof. apply element_kept_cells. reflexivity. Qed.

Ltac element_chain st :=
  repeat lazymatch goal with
         | |- element_kept _ (syncPlaybackPosition _ _ _) =>
             apply element_kept_syncPlaybackPosition
         | |- element_kept _ (initAudio _ _ _) =>
             apply element_kept_initAudio
         | |- element_kept _ (setStartedAt _ _) =>
             apply element_kept_setStartedAt
         | |- element_kept _ st => fail
         | |- element_kept _ _ =>
             apply (element_kept_cells _ st); [vm_compute; reflexivity|]
         end.

Lemma scheduled_result_element render st data asset a :
  element_kept a st -> element_kept a (scheduled_result render st data asset).
Proof.
  intros Hst. unfold scheduled_result. cbv zeta.
  destruct (m_positionSeconds data), (m_startedAt data),
    (String.eqb (m_streamUrl data) (currentStreamUrl render));
    element_chain st; exact Hst.
Qed.

Lemma unscheduled_result_element render st a :
  element_kept a st -> element_kept a (unscheduled_result render st).
Proof.
  intros Hst. unfold unscheduled_result.
  destruct (String.eqb DEMO_STREAM_URL (currentStreamUrl render));
    element_chain st; exact Hst.
Qed.

Lemma deleted_result_element render st a :
  element_kept a st -> element_kept a (deleted_result render st).
Proof.
  intros Hst. unfold deleted_result. element_chain st. exact Hst.
Qed.

Lemma poll_scheduled_result_element render st data asset a :
  element_kept a st ->
  element_kept a (poll_scheduled_result render st data asset).
Proof.
  intros Hst. unfold poll_scheduled_result. cbv zeta.
  destruct (m_positionSeconds data),
    (String.eqb (m_streamUrl data) (currentStreamUrl render));
    element_chain st; exact Hst.
Qed.

Lemma poll_unscheduled_result_element render st data a :
  element_kept a st -> element_kept a (poll_unscheduled_result render st data).
Proof.
  intros Hst. unfold poll_unscheduled_result.
  destruct (String.eqb DEMO_STREAM_URL (currentStreamUrl render));
    element_chain st; exact Hst.
Qed.

Lemma handleSSEMessageFrom_element render st event a :
  audioRef st = Some a ->
  element_kept a (handleSSEMessageFrom render st event).
Proof.
  intros Ha.
  assert (Hst : element_kept a st) by (exists a; auto).
  destruct event as [data|]; [|exact Hst].
  rewrite handleSSEMessageFrom_branches.
  destruct (m_type data); try exact Hst;
    try (destruct (m_isScheduled data), (m_currentAsset data));
    auto using scheduled_result_element, unscheduled_result_element,
      deleted_result_element.
Qed.

Lemma fetchMetadataFrom_element render st response a :
  audioRef st = Some a ->
  element_kept a (fetchMetadataFrom render st response).
Proof.
  intros Ha.
  assert (Hst : element_kept a st) by (exists a; auto).
  destruct response as [data|]; [|exact Hst].
  rewrite fetchMetadataFrom_branches.
  destruct (m_isScheduled data), (m_currentAsset data);
    auto using poll_scheduled_result_element, poll_unscheduled_result_element.
Qed.

Lemma fetchMetadata_cases st response :
  fetchMetadata st response = st \/
  fetchMetadata st response = fetchMetadataFrom st st response.
Proof. unfold fetchMetadata. destruct (sseConnectedRef st); auto. Qed.

Lemma fetchMetadata_None st : fetchMetadata st None = st.
Proof. unfold fetchMetadata. now destruct (sseConnectedRef st). Qed.

(** *** What the handlers as a whole keep *)

Lemma handleSSEMessageFrom_quiet_cells render st event :
  volume (handleSSEMessageFrom render st event) = volume st /\
  isPlaying (handleSSEMessageFrom render st event) = isPlaying st /\
  progress (handleSSEMessageFrom render st event) = progress st /\
  sseConnectedRef (handleSSEMessageFrom render st event) = sseConnectedRef st.
Proof.
  destruct event as [data|]; [|cbn; auto].
  rewrite handleSSEMessageFrom_branches.
  destruct (m_type data); auto;
    try (destruct (m_isScheduled data), (m_currentAsset data) as [asset|]);
    try (pose proof (scheduled_result_cells render st data asset);
         cbv zeta in *; tauto);
    try (pose proof (unscheduled_result_cells render st);
         cbv zeta in *; tauto);
    pose proof (deleted_result_cells render st); cbv zeta in *; tauto.
Qed.

Lemma fetchMetadataFrom_quiet_cells render st response :
  volume (fetchMetadataFrom render st response) = volume st /\
  isPlaying (fetchMetadataFrom render st response) = isPlaying st /\
  progress (fetchMetadataFrom render st response) = progress st /\
  sseConnectedRef (fetchMetadataFrom render st response) = sseConnectedRef st /\
  startedAt (fetchMetadataFrom render st response) = startedAt st.
Proof.
  destruct response as [data|]; [|cbn; auto].
  rewrite fetchMetadataFrom_branches.
  destruct (m_isScheduled data), (m_currentAsset data) as [asset|];
    try (pose proof (poll_scheduled_result_cells render st data asset);
         cbv zeta in *; tauto);
    pose proof (poll_unscheduled_result_cells render st data);
    cbv zeta in *; tauto.
Qed.

Lemma handleSSEMessageFrom_keeps_classified render st event :
  classified st -> classified (handleSSEMessageFrom render st event).
Proof.
  intros Hst. destruct event as [data|]; [|exact Hst].
  rewrite handleSSEMessageFrom_branches. unfold classified.
  destruct (m_type data); auto;
    try (destruct (m_isScheduled data), (m_currentAsset data) as [asset|]);
    try (destruct (scheduled_result_cells render st data asset)
          as (-> & -> & -> & _); split; [reflexivity|discriminate]);
    try (destruct (unscheduled_result_cells render st) as (-> & -> & _);
         split; [reflexivity|discriminate]);
    destruct (deleted_result_cells render st) as (-> & -> & _);
    (split; [reflexivity|discriminate]).
Qed.

Lemma fetchMetadataFrom_keeps_classified render st response :
  classified st -> classified (fetchMetadataFrom render st response).
Proof.
  intros Hst.
  destruct response as [data|]; [|exact Hst].
  rewrite fetchMetadataFrom_branches. unfold classified.
  destruct (m_isScheduled data), (m_currentAsset data) as [asset|];
    try (destruct (poll_scheduled_result_cells render st data asset)
          as (-> & -> & -> & _); split; [reflexivity|discriminate]);
    destruct (poll_unscheduled_result_cells render st data) as (-> & -> & _);
    (split; [reflexivity|discriminate]).
Qed.

(** *** The element holds the stream the state names *)

Lemma mount_loaded : loaded (mount initial).
Proof. eexists. split; reflexivity. Qed.

Lemma initAudio_loaded st url s :
  currentStreamUrl s = url -> loaded (initAudio st url s).
Proof.
  intros <-. unfold initAudio, loaded.
  destruct (audioRef s) as [a|]; simpl.
  - destruct (paused a); simpl; eauto.
  - eauto.
Qed.

Lemma syncPlaybackPosition_loaded st p s :
  loaded s -> loaded (syncPlaybackPosition st p s).
Proof.
  intros (a & Ha & Hsrc). unfold syncPlaybackPosition. rewrite Ha.
  destruct (currentAsset st); [|now exists a].
  destruct (negb (isLive st)); [|now exists a].
  destruct (drift_exceeds _ _); [|now exists a].
  eexists. split; [reflexivity|exact Hsrc].
Qed.

Lemma loaded_cells s s' :
  audioRef s' = audioRef s -> currentStreamUrl s' = currentStreamUrl s ->
  loaded s -> loaded s'.
Proof. intros E1 E2 (a & Ha & Hsrc). exists a. now rewrite E1, E2. Qed.

Lemma setStartedAt_loaded v s : loaded s -> loaded (setStartedAt v s).
Proof. apply loaded_cells; reflexivity. Qed.

Ltac loaded_chain st :=
  repeat lazymatch goal with
         | |- loaded (syncPlaybackPosition _ _ _) =>
             apply syncPlaybackPosition_loaded
         | |- loaded (setStartedAt _ _) => apply setStartedAt_loaded
         | |- loaded (initAudio _ _ _) =>
             apply initAudio_loaded; reflexivity
         | |- loaded st => fail
         | |- loaded _ =>
             apply (loaded_cells st);
             [vm_compute; reflexivity|vm_compute; reflexivity|]
         end.

Lemma scheduled_result_loaded render st data asset :
  loaded st -> loaded (scheduled_result render st data asset).
Proof.
  intros Hst. unfold scheduled_result. cbv zeta.
  destruct (m_positionSeconds data), (m_startedAt data),
    (String.eqb (m_streamUrl data) (currentStreamUrl render));
    loaded_chain st; exact Hst.
Qed.

Lemma unscheduled_result_loaded render st :
  loaded st -> loaded (unscheduled_result render st).
Proof.
  intros Hst. unfold unscheduled_result.
  destruct (String.eqb DEMO_STREAM_URL (currentStreamUrl render));
    loaded_chain st; exact Hst.
Qed.

Lemma deleted_result_loaded render st : loaded (deleted_result render st).
Proof. unfold deleted_result. apply initAudio_loaded. reflexivity. Qed.

Lemma poll_scheduled_result_loaded render st data asset :
  loaded st -> loaded (poll_scheduled_result render st data asset).
Proof.
  intros Hst. unfold poll_scheduled_result. cbv zeta.
  destruct (m_positionSeconds data),
    (String.eqb (m_streamUrl data) (currentStreamUrl render));
    loaded_chain st; exact Hst.
Qed.

Lemma poll_unscheduled_result_loaded render st data :
  loaded st -> loaded (poll_unscheduled_result render st data).
Proof.
  intros Hst. unfold poll_unscheduled_result.
  destruct (String.eqb DEMO_STREAM_URL (currentStreamUrl render));
    loaded_chain st; exact Hst.
Qed.

Lemma handleSSEMessageFrom_loaded render st event :
  loaded st -> loaded (handleSSEMessageFrom render st event).
Proof.
  intros Hst. destruct event as [data|]; [|exact Hst].
  rewrite handleSSEMessageFrom_branches.
  destruct (m_type data); try exact Hst;
    try (destruct (m_isScheduled data), (m_currentAsset data));
    auto using scheduled_result_loaded, unscheduled_result_loaded,
      deleted_result_loaded.
Qed.

Lemma fetchMetadataFrom_loaded render st response :
  loaded st -> loaded (fetchMetadataFrom render st response).
Proof.
  intros Hst. destruct response as [data|]; [|exact Hst].
  rewrite fetchMetadataFrom_branches.
  destruct (m_isScheduled data), (m_currentAsset data);
    auto using poll_scheduled_result_loaded, poll_unscheduled_result_loaded.
Qed.

Ltac case_split :=
  match goal with
  | |- context [match ?x with _ => _ end] => destruct x eqn:?
  | |- context [if ?b then _ else _] => destruct b eqn:?
  end.

Lemma step_loaded st a : loaded st -> loaded (step st a).
Proof.
  intros Hst. destruct a; cbn [step].
  - now apply handleSSEMessageFrom_loaded.
  - now apply handleSSEMessageFrom_loaded.
  - destruct (fetchMetadata_cases st response) as [-> | ->];
      [exact Hst|now apply fetchMetadataFrom_loaded].
  - now apply fetchMetadataFrom_loaded.
  - unfold updateProgress. destruct Hst as (x & Hx & Hsrc).
    repeat case_split; exists x; auto.
  - unfold onTimeUpdate. destruct Hst as (x & Hx & Hsrc). rewrite Hx.
    exists x; auto.
  - unfold playback. destruct Hst as (x & Hx & Hsrc). rewrite Hx.
    destruct (paused x); eexists; split; simpl; eauto.
  - exact Hst.
  - exact Hst.
  - unfold play. destruct Hst as (x & Hx & Hsrc). rewrite Hx.
    eexists; split; simpl; eauto.
  - unfold pause. destruct Hst as (x & Hx & Hsrc). rewrite Hx.
    eexists; split; simpl; eauto.
  - unfold togglePlay, play, pause. destruct Hst as (x & Hx & Hsrc).
    rewrite Hx. destruct (isPlaying st); eexists; split; simpl; eauto.
  - unfold setVolume. destruct Hst as (x & Hx & Hsrc).
    cbn [audioRef setVolumeState]. rewrite Hx.
    destruct (volume_in_range newVolume); eexists; split; simpl; eauto.
  - unfold seek. destruct Hst as (x & Hx & Hsrc). rewrite Hx.
    destruct (negb (isLive st)); eexists; split; simpl; eauto.
  - exact Hst.
  - exact Hst.
Qed.

(** Every state a mounted provider reaches has its element loaded with the
    stream the state names, whichever renders' callbacks ran. *)
Lemma run_loaded actions : loaded (run actions).
Proof.
  unfold run. generalize (mount initial), mount_loaded.
  induction actions as [|a actions IH]; intros st Hst; simpl; [exact Hst|].
  apply IH. now apply step_loaded.
Qed.

(** *** What the listener's actions and the timers keep *)

Lemma local_action_cells :
  forall st a,
    from_server a = false ->
    isScheduled (step st a) = isScheduled st /\
    isLive (step st a) = isLive st /\
    currentAsset (step st a) = currentAsset st /\
    currentStreamUrl (step st a) = currentStreamUrl st /\
    startedAt (step st a) = startedAt st /\
    option_map src (audioRef (step st a)) = option_map src (audioRef st) /\
    option_map loads (audioRef (step st a)) = option_map loads (audioRef st).
Proof.
  intros st a Hlocal.
  destruct a; try discriminate; cbn [step];
    unfold updateProgress, onTimeUpdate, playback, onopen, onerror,
      togglePlay, play, pause, setVolume, seek;
    cbn -[Qplus volume_in_range];
    repeat match goal with
           | |- context [match audioRef ?s with _ => _ end] =>
               destruct (audioRef s) eqn:?
           | |- context [match startedAt ?s with _ => _ end] =>
               destruct (startedAt s) eqn:?
           | |- context [match currentAsset ?s with _ => _ end] =>
               destruct (currentAsset s) eqn:?
           | |- context [if ?b then _ else _] => destruct b eqn:?
           end;
    cbn -[Qplus volume_in_range] in *; repeat split; try congruence;
    match goal with H : audioRef _ = _ |- _ => now rewrite H end.
Qed.

(** X11: what the listener does and what timers and media events do never
    changes whether the provider is scheduled or live, its asset, its start
    time or the stream the state names, and never gives the element another
    source or reloads it. *)
Theorem local_actions_keep_the_classification :
  forall st a,
    from_server a = false ->
    isScheduled (step st a) = isScheduled st /\
    isLive (step st a) = isLive st /\
    currentAsset (step st a) = currentAsset st /\
    currentStreamUrl (step st a) = currentStreamUrl st /\
    startedAt (step st a) = startedAt st /\
    option_map src (audioRef (step st a)) = option_map src (audioRef st) /\
    option_map loads (audioRef (step st a)) = option_map loads (audioRef st).
Proof. exact local_action_cells. Qed.

Lemma local_actions_witness :
  let st := run [ SSEMessage (Some (scheduled_state track_a T0 175)) ] in
  isScheduled (step st (Seek 10%Q)) = true /\
  isLive (step st Pause) = false.
Proof.
  intros st. split.
  - destruct (local_actions_keep_the_classification st (Seek 10%Q))
      as (H & _); [reflexivity|].
    rewrite H. reflexivity.
  - destruct (local_actions_keep_the_classification st Pause)
      as (_ & H & _); [reflexivity|].
    rewrite H. reflexivity.
Defined.

Lemma step_keeps_classified st a : classified st -> classified (step st a).
Proof.
  intros Hst. destruct (from_server a) eqn:E.
  - destruct a; try discriminate; cbn [step].
    + now apply handleSSEMessageFrom_keeps_classified.
    + now apply handleSSEMessageFrom_keeps_classified.
    + destruct (fetchMetadata_cases st response) as [-> | ->];
        auto using fetchMetadataFrom_keeps_classified.
    + now apply fetchMetadataFrom_keeps_classified.
  - destruct (local_action_cells st a E)
      as (H1 & H2 & H3 & _).
    unfold classified. now rewrite H1, H2, H3.
Qed.

(** X12: in every state a mounted provider reaches, [isLive] is the
    negation of [isScheduled], and a scheduled provider has an asset. *)
Theorem provider_is_live_or_scheduled :
  forall actions,
    isLive (run actions) = negb (isScheduled (run actions)) /\
    (isScheduled (run actions) = true -> currentAsset (run actions) <> None).
Proof.
  intros actions. change (classified (run actions)). unfold run.
  assert (H0 : classified (mount initial))
    by (split; [reflexivity|discriminate]).
  revert H0. generalize (mount initial).
  induction actions as [|a actions IH]; intros st Hst; simpl; [exact Hst|].
  apply IH. now apply step_keeps_classified.
Qed.

Lemma provider_is_live_or_scheduled_witness :
  let st := run [ SSEMessage (Some (scheduled_state track_a T0 175));
                  MetadataResponse None; Seek 10%Q ] in
  isScheduled st = true /\ isLive st = false /\ currentAsset st <> None.
Proof.
  intros st.
  destruct (provider_is_live_or_scheduled
              [ SSEMessage (Some (scheduled_state track_a T0 175));
                MetadataResponse None; Seek 10%Q ])
    as (Hlive & Hasset).
  fold st in Hlive, Hasset.
  assert (Hs : isScheduled st = true) by reflexivity.
  split; [exact Hs|]. split; [now rewrite Hlive, Hs|now apply Hasset].
Defined.

Lemma server_input_element :
  forall st input a,
    from_server input = true ->
    audioRef st = Some a ->
    exists a',
      audioRef (step st input) = Some a' /\
      paused a' = paused a /\
      audio_volume a' = audio_volume a /\
      isPlaying (step st input) = isPlaying st /\
      volume (step st input) = volume st.
Proof.
  intros st input a Hserver Ha.
  assert (Hpush : forall render event,
             exists a',
               audioRef (handleSSEMessageFrom render st event) = Some a' /\
               paused a' = paused a /\ audio_volume a' = audio_volume a /\
               isPlaying (handleSSEMessageFrom render st event) = isPlaying st /\
               volume (handleSSEMessageFrom render st event) = volume st).
  { intros render event.
    destruct (handleSSEMessageFrom_element render st event a Ha)
      as (a' & H1 & H2 & H3).
    destruct (handleSSEMessageFrom_quiet_cells render st event)
      as (Hv & Hp & _).
    exists a'. auto. }
  assert (Hpoll : forall render response,
             exists a',
               audioRef (fetchMetadataFrom render st response) = Some a' /\
               paused a' = paused a /\ audio_volume a' = audio_volume a /\
               isPlaying (fetchMetadataFrom render st response) = isPlaying st /\
               volume (fetchMetadataFrom render st response) = volume st).
  { intros render response.
    destruct (fetchMetadataFrom_element render st response a Ha)
      as (a' & H1 & H2 & H3).
    destruct (fetchMetadataFrom_quiet_cells render st response)
      as (Hv & Hp & _).
    exists a'. auto. }
  destruct input; try discriminate; cbn [step].
  - apply Hpush.
  - apply Hpush.
  - destruct (fetchMetadata_cases st response) as [-> | ->];
      [exists a; auto|apply Hpoll].
  - apply Hpoll.
Qed.

(** X13: nothing the server says starts or stops playback or changes the
    volume: after an event or a poll response the element is still there,
    playing or paused as before and at the same volume, and the state's
    [isPlaying] and [volume] are what they were. *)
Theorem server_inputs_keep_playback :
  forall st input a,
    from_server input = true ->
    audioRef st = Some a ->
    exists a',
      audioRef (step st input) = Some a' /\
      paused a' = paused a /\
      audio_volume a' = audio_volume a /\
      isPlaying (step st input) = isPlaying st /\
      volume (step st input) = volume st.
Proof. exact server_input_element. Qed.

Lemma server_inputs_keep_playback_witness :
  let st := run [ Play ] in
  option_map paused
    (audioRef (step st (SSEMessage (Some (scheduled_state track_a T0 175)))))
  = Some false.
Proof.
  intros st.
  destruct (server_inputs_keep_playback st
              (SSEMessage (Some (scheduled_state track_a T0 175)))
              {| src := DEMO_STREAM_URL; paused := false; currentTime := 0%Q;
                 audio_volume := (7 # 10)%Q; loads := 1 |})
    as (a' & Ha' & Hp & _); [reflexivity | reflexivity |].
  rewrite Ha'. simpl. now rewrite Hp.
Defined.

(** *** The volume *)

Lemma setVolume_in_range v st a :
  audioRef st = Some a -> volume_in_range v = true ->
  setVolume v st
  = (set_audioRef (Some (set_audio_volume v a)) (setVolumeState v st), Ok tt).
Proof.
  intros Ha Hv. unfold setVolume. cbn [audioRef setVolumeState].
  now rewrite Ha, Hv.
Qed.

Lemma setVolume_out_of_range v st a :
  audioRef st = Some a -> volume_in_range v = false ->
  setVolume v st = (setVolumeState v st, Throw "IndexSizeError").
Proof.
  intros Ha Hv. unfold setVolume. cbn [audioRef setVolumeState].
  now rewrite Ha, Hv.
Qed.

Lemma step_keeps_legal_volume st a :
  (exists x, audioRef st = Some x /\
             volume_in_range (audio_volume x) = true /\
             (volume_in_range (volume st) = true ->
              audio_volume x = volume st)) ->
  exists x, audioRef (step st a) = Some x /\
            volume_in_range (audio_volume x) = true /\
            (volume_in_range (volume (step st a)) = true ->
             audio_volume x = volume (step st a)).
Proof.
  intros (x & Hx & Hlegal & Hv). destruct (from_server a) eqn:E.
  - destruct (server_input_element st a x E Hx)
      as (x' & H1 & _ & H3 & _ & H5).
    exists x'. split; [exact H1|]. rewrite H3, H5. auto.
  - destruct a; try discriminate; cbn [step].
    + unfold updateProgress. repeat case_split; exists x; auto.
    + unfold onTimeUpdate. rewrite Hx. exists x; auto.
    + unfold playback. rewrite Hx.
      destruct (paused x); eexists; (split; [eassumption || reflexivity|]);
        auto.
    + exists x; auto.
    + exists x; auto.
    + unfold play. rewrite Hx. eexists; (split; [reflexivity|]); auto.
    + unfold pause. rewrite Hx. eexists; (split; [reflexivity|]); auto.
    + unfold togglePlay, play, pause. rewrite Hx.
      destruct (isPlaying st); eexists; (split; [reflexivity|]); auto.
    + destruct (volume_in_range newVolume) eqn:Hn.
      * rewrite (setVolume_in_range _ _ _ Hx Hn).
        eexists; (split; [reflexivity|]); auto.
      * rewrite (setVolume_out_of_range _ _ _ Hx Hn).
        exists x. split; [exact Hx|]. split; [exact Hlegal|].
        cbn [fst volume setVolumeState]. congruence.
    + unfold seek. rewrite Hx.
      destruct (negb (isLive st)); eexists;
        (split; [eassumption || reflexivity|]); auto.
    + exists x; auto.
    + exists x; auto.
Qed.

Lemma volume_in_range_iff v :
  volume_in_range v = true <-> (0 <= v)%Q /\ (v <= 1)%Q.
Proof.
  unfold volume_in_range. rewrite andb_true_iff, !Qle_bool_iff. tauto.
Qed.

(** X14: in every state a mounted provider reaches there is an element, and
    its volume is a legal one, from 0 to 1; it is the volume the state
    records whenever that one is legal.  [setVolume] with a legal volume
    sets both; with any other volume it sets the state's, the element's
    setter throws, and the element is left as it was. *)
Theorem element_volume_is_legal :
  forall actions,
    exists a,
      audioRef (run actions) = Some a /\
      (0 <= audio_volume a)%Q /\ (audio_volume a <= 1)%Q /\
      (volume_in_range (volume (run actions)) = true ->
       audio_volume a = volume (run actions)) /\
      (forall v, volume_in_range v = true ->
         setVolume v (run actions)
         = (set_audioRef (Some (set_audio_volume v a))
              (setVolumeState v (run actions)), Ok tt)) /\
      (forall v, volume_in_range v = false ->
         setVolume v (run actions)
         = (setVolumeState v (run actions), Throw "IndexSizeError") /\
         volume (step (run actions) (SetVolume v)) = v /\
         audioRef (step (run actions) (SetVolume v)) = Some a).
Proof.
  intros actions.
  assert (H : exists x, audioRef (run actions) = Some x /\
                        volume_in_range (audio_volume x) = true /\
                        (volume_in_range (volume (run actions)) = true ->
                         audio_volume x = volume (run actions))).
  { unfold run.
    assert (H0 : exists x, audioRef (mount initial) = Some x /\
                           volume_in_range (audio_volume x) = true /\
                           (volume_in_range (volume (mount initial)) = true ->
                            audio_volume x = volume (mount initial)))
      by (eexists; repeat split; reflexivity).
    revert H0. generalize (mount initial).
    induction actions as [|a actions IH]; intros st Hst; simpl; [exact Hst|].
    apply IH. now apply step_keeps_legal_volume. }
  destruct H as (x & Hx & Hlegal & Hv).
  apply volume_in_range_iff in Hlegal. destruct Hlegal as [H0 H1].
  exists x.
  split; [exact Hx|]. split; [exact H0|]. split; [exact H1|].
  split; [exact Hv|]. split.
  - intros v Hin. exact (setVolume_in_range v _ x Hx Hin).
  - intros v Hout.
    pose proof (setVolume_out_of_range v _ x Hx Hout) as Hthrow.
    split; [exact Hthrow|].
    cbn [step]. rewrite Hthrow. split; [reflexivity|exact Hx].
Qed.

Lemma element_volume_is_legal_witness :
  let st := run [ SetVolume (1 # 2)%Q ] in
  volume (step st (SetVolume (3 # 2)%Q)) = (3 # 2)%Q /\
  option_map audio_volume (audioRef (step st (SetVolume (3 # 2)%Q)))
  = Some (1 # 2)%Q.
Proof.
  intros st.
  destruct (element_volume_is_legal [ SetVolume (1 # 2)%Q ])
    as (a & Ha & _ & _ & Hsame & _ & Hout).
  fold st in Ha, Hsame, Hout.
  destruct (Hout (3 # 2)%Q) as (_ & Hvol & Hel); [reflexivity|].
  split; [exact Hvol|].
  rewrite Hel. cbn [option_map]. f_equal. apply Hsame. reflexivity.
Defined.



(** *** The drift correction *)

Lemma scheduled_result_sync render st a asset data announced p :
  isLive render = false ->
  currentAsset render = Some asset ->
  audioRef st = Some a ->
  m_streamUrl data = currentStreamUrl render ->
  m_positionSeconds data = Some p ->
  let target := inject_Z (Z.min p (durationSeconds asset)) in
  audioRef (scheduled_result render st data announced)
  = Some (if drift_exceeds (currentTime a) target
          then set_currentTime target a else a).
Proof.
  intros Hlive Hasset Ha Hurl Hp target.
  unfold scheduled_result. cbv zeta.
  rewrite Hurl, String.eqb_refl, Hp.
  set (s := match m_startedAt data with
            | Some t => setStartedAt (Some t) (scheduled_cells st data announced)
            | None => scheduled_cells st data announced
            end).
  assert (Hs' : audioRef s = Some a).
  { subst s. destruct (m_startedAt data); exact Ha. }
  destruct (syncPlaybackPosition_scheduled render p s a asset Hlive Hasset Hs')
    as (Hsnap & Hkeep).
  fold target in Hsnap, Hkeep.
  destruct (drift_exceeds (currentTime a) target).
  - now rewrite Hsnap.
  - now rewrite Hkeep.
Qed.

(** X16: a handler whose render was already scheduled, on the stream a
    scheduled message announces, corrects the element's position exactly
    when the double difference between that position and the announced
    one, cut at the duration of the render's asset, exceeds two seconds,
    which is when the exact difference exceeds [2 + 2^-52].  It then moves
    the element to the announced position; otherwise it leaves the element
    alone.  The element is not reloaded either way, and plays or is paused
    as before. *)
Theorem drift_correction_when_already_scheduled :
  forall render st a asset data p,
    isLive render = false ->
    currentAsset render = Some asset ->
    audioRef st = Some a ->
    (m_type data = TState \/ m_type data = TScheduleUpdate) ->
    m_isScheduled data = true ->
    m_currentAsset data <> None ->
    m_streamUrl data = currentStreamUrl render ->
    m_positionSeconds data = Some p ->
    let target := inject_Z (Z.min p (durationSeconds asset)) in
    let drift := Qabs (currentTime a - target) in
    let st' := handleSSEMessageFrom render st (Some data) in
    ((2 < Qabs (to_double (currentTime a - target)))%Q
     <-> (2 + half_step_after_2 < drift)%Q) /\
    ((2 + half_step_after_2 < drift)%Q ->
     audioRef st' = Some (set_currentTime target a)) /\
    ((drift <= 2 + half_step_after_2)%Q -> audioRef st' = Some a) /\
    exists a',
      audioRef st' = Some a' /\
      loads a' = loads a /\ src a' = src a /\ paused a' = paused a.
Proof.
  intros render st a asset data p Hlive Hasset Ha Hty Hs Hca Hurl Hp
    target drift st'.
  destruct (m_currentAsset data) as [announced|] eqn:Hannounced;
    [clear Hca|now contradiction Hca].
  assert (Hr : audioRef st'
               = Some (if drift_exceeds (currentTime a) target
                       then set_currentTime target a else a)).
  { subst st'. rewrite handleSSEMessageFrom_branches.
    pose proof (scheduled_result_sync render st a asset data announced p
                  Hlive Hasset Ha Hurl Hp) as Hsync.
    destruct Hty as [-> | ->]; rewrite Hs, Hannounced; exact Hsync. }
  split; [apply to_double_exceeds_2|]. split; [|split].
  - intros Hgt. rewrite Hr.
    apply drift_exceeds_iff in Hgt. now rewrite Hgt.
  - intros Hle. rewrite Hr.
    destruct (drift_exceeds (currentTime a) target) eqn:E; [|reflexivity].
    apply drift_exceeds_iff in E. exfalso. exact (Qlt_not_le _ _ E Hle).
  - rewrite Hr.
    destruct (drift_exceeds (currentTime a) target); eexists;
      (split; [reflexivity|]); auto.
Qed.

Lemma drift_correction_witness :
  let st := run [ SSEMessage (Some (scheduled_state track_a T0 0)) ] in
  let late := run [ SSEMessage (Some (scheduled_state track_a T0 0)); Play;
                    Playback (1 - (1 # 9007199254740992))%Q ] in
  option_map currentTime
    (audioRef (handleSSEMessageFrom st st
                 (Some (scheduled_state track_a T0 100))))
  = Some (inject_Z 100) /\
  option_map currentTime
    (audioRef (handleSSEMessageFrom late late
                 (Some (scheduled_state track_a T0 3))))
  = option_map currentTime (audioRef late).
Proof.
  intros st late. split.
  - destruct (drift_correction_when_already_scheduled st st
                {| src := audioUrl track_a; paused := true; currentTime := 0%Q;
                   audio_volume := (7 # 10)%Q; loads := 2 |}
                track_a (scheduled_state track_a T0 100) 100
                eq_refl eq_refl eq_refl (or_introl eq_refl)
                eq_refl ltac:(discriminate) eq_refl eq_refl)
      as (_ & Hsnap & _).
    rewrite Hsnap; [reflexivity|]. vm_compute. reflexivity.
  - destruct (drift_correction_when_already_scheduled late late
                {| src := audioUrl track_a; paused := false;
                   currentTime := (0 + (1 - (1 # 9007199254740992)))%Q;
                   audio_volume := (7 # 10)%Q; loads := 2 |}
                track_a (scheduled_state track_a T0 3) 3
                eq_refl eq_refl eq_refl (or_introl eq_refl)
                eq_refl ltac:(discriminate) eq_refl eq_refl)
      as (_ & _ & Hkeep & _).
    rewrite Hkeep; [reflexivity|]. vm_compute. discriminate.
Defined.

(** *** The poll *)

Lemma step_keeps_no_start st a :
  is_push a = false -> startedAt st = None -> startedAt (step st a) = None.
Proof.
  intros Hpush Hnone. destruct (from_server a) eqn:E.
  - destruct a; try discriminate; cbn [step].
    + destruct (fetchMetadata_cases st response) as [-> | ->];
        [exact Hnone|].
      destruct (fetchMetadataFrom_quiet_cells st st response)
        as (_ & _ & _ & _ & ->).
      exact Hnone.
    + destruct (fetchMetadataFrom_quiet_cells render st response)
        as (_ & _ & _ & _ & ->).
      exact Hnone.
  - destruct (local_action_cells st a E)
      as (_ & _ & _ & _ & -> & _).
    exact Hnone.
Qed.

(** X17: the poll does not record when the item started.  A provider that
    has learnt what is scheduled from poll responses only, however many,
    has no [startedAt], so the once-per-second position updater does
    nothing for it. *)
Theorem polling_alone_records_no_start :
  forall actions,
    forallb (fun a => negb (is_push a)) actions = true ->
    startedAt (run actions) = None /\
    forall now, updateProgress (run actions) now = run actions.
Proof.
  intros actions Hpoll.
  assert (Hnone : startedAt (run actions) = None).
  { unfold run.
    assert (H0 : startedAt (mount initial) = None) by reflexivity.
    revert H0 Hpoll. generalize (mount initial).
    induction actions as [|a actions IH]; intros st Hst Hall; simpl;
      [exact Hst|].
    simpl in Hall. apply andb_true_iff in Hall as [Ha Hall].
    apply negb_true_iff in Ha.
    apply IH; [now apply step_keeps_no_start|exact Hall]. }
  split; [exact Hnone|].
  intros now. unfold updateProgress. rewrite Hnone.
  now destruct (isScheduled (run actions)).
Qed.

Lemma polling_alone_witness :
  let polled :=
    run [ MetadataResponse (Some (scheduled_state track_a T0 175)) ] in
  isScheduled polled = true /\ startedAt polled = None /\
  updateProgress polled (T0 + 176000) = polled.
Proof.
  intros polled.
  destruct (polling_alone_records_no_start
              [ MetadataResponse (Some (scheduled_state track_a T0 175)) ])
    as (Hnone & Htick); [reflexivity|].
  split; [reflexivity|]. split; [exact Hnone|apply Htick].
Defined.

(** *** From the server's events to the provider *)

(** X18: a [schedule_update] event as the server broadcasts it, for a create
    or for an update, has none of the fields the provider reads
    ([isScheduled], [currentAsset]); a provider that receives one therefore
    goes LIVE and forgets its asset, whatever the item is, even while that
    item is on air, and whichever render's handler receives the event.  A
    handler whose render has the stream the state names, as the handler of
    the latest render has, also puts the element on the default stream. *)
Theorem schedule_update_event_sends_the_provider_live :
  forall actions render scheduleItem asset,
    let st := run actions in
    let st' := Wire.receiveFrom render st
                 (Routes.DataFrame (Routes.ScheduleUpdate scheduleItem asset)) in
    isScheduled st' = false /\ isLive st' = true /\
    currentAsset st' = None /\
    (currentStreamUrl render = currentStreamUrl st ->
     currentStreamUrl st' = DEMO_STREAM_URL /\
     option_map src (audioRef st') = Some DEMO_STREAM_URL).
Proof.
  intros actions render scheduleItem asset st st'.
  assert (Hst' : st' = unscheduled_result render st) by reflexivity.
  destruct (unscheduled_result_cells render st) as (H1 & H2 & H3 & H4 & _).
  destruct (unscheduled_result_loaded render st (run_loaded actions))
    as (a & Ha & Hsrc).
  rewrite <- Hst' in H1, H2, H3, H4, Ha, Hsrc.
  split; [exact H1|]. split; [exact H2|]. split; [exact H3|].
  intros Hagree. rewrite (url_after_agree _ _ _ Hagree) in H4.
  split; [exact H4|]. rewrite Ha. simpl. congruence.
Qed.

Lemma schedule_update_event_witness :
  let actions := [ SSEMessage (Some (scheduled_state track_a T0 175)) ] in
  let st' := Wire.receiveFrom (run actions) (run actions)
               (Routes.DataFrame (Routes.ScheduleUpdate slot_a None)) in
  isLive st' = true /\ option_map src (audioRef st') = Some DEMO_STREAM_URL.
Proof.
  intros actions st'.
  destruct (schedule_update_event_sends_the_provider_live
              actions (run actions) slot_a None)
    as (_ & Hlive & _ & Hurl).
  destruct (Hurl eq_refl) as (_ & Hsrc).
  split; [exact Hlive|exact Hsrc].
Defined.



End ProviderFacts.

(** ** server/routes.ts: the metadata endpoint and the initial state *)

Section MetadataFacts.

Import Routes Examples.

Lemma getRadioAssetById_Some d id asset :
  getRadioAssetById d id = Some asset ->
  In asset (radioAssets d) /\ asset_id asset = id.
Proof.
  unfold getRadioAssetById, first_row. intros H.
  destruct (filter _ (radioAssets d)) as [|a rest] eqn:E; [discriminate|].
  injection H as ->.
  assert (Hin : In asset (filter (fun a => String.eqb (asset_id a) id)
                            (radioAssets d)))
    by (rewrite E; now left).
  apply filter_In in Hin as [Hin Hid]. split; [exact Hin|].
  now apply String.eqb_eq.
Qed.

(** X20: whatever the schedule holds (overlaps, dangling items), a body
    with [isScheduled = true] describes an asset of the table through an
    item of the schedule that the query keeps at the query time: its
    [streamUrl] and [durationSeconds] are the asset's, [startedAt] is the
    item's start and is not after the query time, [positionSeconds] never
    exceeds the duration, and it is not negative when the duration is not
    and the handler's clock is not behind the query's. *)
Theorem scheduled_metadata_is_consistent :
  forall d queryNow now rnd p,
    body (getMetadata d queryNow now rnd) = JMetadataScheduled p ->
    status (getMetadata d queryNow now rnd) = 200 /\
    sm_streamUrl p = audioUrl (sm_currentAsset p) /\
    sm_durationSeconds p = durationSeconds (sm_currentAsset p) /\
    sm_positionSeconds p <= sm_durationSeconds p /\
    sm_startedAt p <= queryNow /\
    (queryNow <= now -> 0 <= sm_durationSeconds p -> 0 <= sm_positionSeconds p) /\
    sm_listenerCount p = rnd_listeners rnd + 100 /\
    exists item asset,
      In item (radioSchedule d) /\ In asset (radioAssets d) /\
      asset_id asset = assetId item /\
      sm_currentAsset p = asset_fields asset /\
      sm_startedAt p = scheduledStart item /\
      scheduledStart item <= queryNow <= scheduledEnd item.
Proof.
  intros d queryNow now rnd p. unfold getMetadata.
  destruct (getCurrentScheduledItem d queryNow) as [item|] eqn:Hcur;
    [|discriminate].
  destruct (getRadioAssetById d (assetId item)) as [asset|] eqn:Hasset;
    [|discriminate].
  cbn [body json status]. intros [= <-]. cbn.
  destruct (getCurrentScheduledItem_Some d queryNow item Hcur)
    as (Hin & Hact & _).
  apply active_at_iff in Hact.
  destruct (getRadioAssetById_Some d (assetId item) asset Hasset)
    as (Hain & Hid).
  repeat split; try lia.
  - intros Hclock Hdur.
    assert (0 <= (now - scheduledStart item) / 1000)
      by (apply Z.div_pos; lia).
    lia.
  - exists item, asset. repeat split; auto; lia.
Qed.

Lemma scheduled_metadata_witness :
  exists p,
    body (getMetadata db_overlap (T0 + 90000) (T0 + 90500) rnd0)
    = JMetadataScheduled p /\
    sm_positionSeconds p <= sm_durationSeconds p.
Proof.
  eexists. split; [reflexivity|].
  eapply (scheduled_metadata_is_consistent
            db_overlap (T0 + 90000) (T0 + 90500) rnd0).
  reflexivity.
Defined.

(** X21: whenever a new connection is sent an initial [state] event, the
    event says what the metadata endpoint answers at the same clock
    readings: the live state where the endpoint answers the fallback, and
    otherwise the endpoint's asset, stream URL, start and position. *)
Theorem initial_state_agrees_with_metadata :
  forall d queryNow now rnd f,
    initialState d queryNow now = Some f ->
    match body (getMetadata d queryNow now rnd) with
    | JMetadataScheduled p =>
        f = DataFrame (StateScheduled (sm_currentAsset p) (sm_streamUrl p)
                         (sm_startedAt p) (sm_positionSeconds p))
    | JMetadataLive p => f = DataFrame (StateLive (lm_streamUrl p))
    | _ => False
    end.
Proof.
  intros d queryNow now rnd f. unfold initialState, getMetadata.
  destruct (getCurrentScheduledItem d queryNow) as [item|].
  - destruct (getRadioAssetById d (assetId item)) as [asset|];
      [|discriminate].
    intros [= <-]. reflexivity.
  - intros [= <-]. reflexivity.
Qed.

Lemma initial_state_agrees_witness :
  initialState db_single (T0 + 200000) (T0 + 200000)
  = Some (DataFrame (StateLive DEMO_STREAM_URL)) /\
  match body (getMetadata db_single (T0 + 200000) (T0 + 200000) rnd0) with
  | JMetadataScheduled p =>
      DataFrame (StateLive DEMO_STREAM_URL)
      = DataFrame (StateScheduled (sm_currentAsset p) (sm_streamUrl p)
                     (sm_startedAt p) (sm_positionSeconds p))
  | JMetadataLive p =>
      DataFrame (StateLive DEMO_STREAM_URL)
      = DataFrame (StateLive (lm_streamUrl p))
  | _ => False
  end.
Proof.
  split; [reflexivity|].
  apply (initial_state_agrees_with_metadata
           db_single (T0 + 200000) (T0 + 200000) rnd0).
  reflexivity.
Defined.

End MetadataFacts.

(** ** server/auth.ts: the password check and the login route *)

Section CredentialFacts.

Import Credentials.

Variable bcrypt_compare : string -> string -> bool.

(** The failures of [name] that count at [now]. *)
Lemma isRateLimited_count d name now :
  isRateLimited d name now
  = Nat.leb 5
      (List.length
         (filter (fun a => negb (successful a))
            (filter (fun a => String.eqb (attempt_username a) name
                              && (now - 15 * 60 * 1000 <=? attemptedAt a))
               (loginAttempts d)))).
Proof. reflexivity. Qed.

Lemma failed_attempt_counts name ip now t :
  now - 15 * 60 * 1000 <= t ->
  filter (fun a => negb (successful a))
    (filter (fun a => String.eqb (attempt_username a) name
                      && (now - 15 * 60 * 1000 <=? attemptedAt a))
       [ failed_attempt name ip t ])
  = [ failed_attempt name ip t ].
Proof.
  intros Ht. cbn [filter failed_attempt attempt_username attemptedAt].
  rewrite String.eqb_refl.
  destruct (Z.leb_spec (now - 15 * 60 * 1000) t) as [_|H]; [|lia].
  reflexivity.
Qed.

Lemma isRateLimited_grows d name now (t : LoginAttempt) extra :
  isRateLimited d name now = true ->
  isRateLimited
    {| adminUsers := extra; loginAttempts := loginAttempts d ++ [ t ] |}
    name now = true.
Proof.
  rewrite !isRateLimited_count. cbn [loginAttempts].
  rewrite !filter_app, !length_app. intros H.
  apply Nat.leb_le in H. apply Nat.leb_le. lia.
Qed.

(** What one call records and returns, case by case. *)
Lemma validateCredentials_cases d name password ip now :
  let r := validateCredentials bcrypt_compare d name password ip now in
  loginAttempts (fst r)
  = loginAttempts d
    ++ [ {| attempt_username := name; ipAddress := ip;
            successful := valid (snd r); attemptedAt := now |} ] /\
  (valid (snd r) = false -> adminUsers (fst r) = adminUsers d) /\
  (valid (snd r) = true ->
   adminUsers (fst r)
   = map (fun u => if String.eqb (admin_username u) name
                   then touch now u else u) (adminUsers d)) /\
  (valid (snd r) = true <->
   isRateLimited d name now = false /\
   exists u, getAdminUserByUsername d name = Some u /\
             isActive u = true /\
             bcrypt_compare password (passwordHash u) = true).
Proof.
  unfold validateCredentials.
  destruct (isRateLimited d name now) eqn:Hlim; cbn.
  { repeat split; try discriminate; auto.
    intros (H & _). discriminate. }
  destruct (getAdminUserByUsername d name) as [u|] eqn:Hu; cbn.
  2:{ repeat split; try discriminate; auto.
      intros (_ & u & H & _). discriminate. }
  destruct (isActive u) eqn:Hact; cbn.
  2:{ repeat split; try discriminate; auto.
      intros (_ & u' & [= <-] & H & _). congruence. }
  destruct (bcrypt_compare password (passwordHash u)) eqn:Hpw; cbn.
  - repeat split; try discriminate; auto. exists u. auto.
  - repeat split; try discriminate; auto.
    intros (_ & u' & [= <-] & _ & H). congruence.
Qed.

(** X22: what [validateCredentials] answers and records.  The answer is
    valid exactly when the name is not rate limited, an admin user of that
    name exists and is active, and the password matches its hash.  Every
    call appends one login attempt for the name, stamped with the clock and
    marked successful exactly when the answer is valid, and removes none;
    the admin users are untouched unless the answer is valid, and then the
    user's last login is set to the clock. *)
Theorem validateCredentials_answer_and_record :
  forall d name password ip now,
    let r := validateCredentials bcrypt_compare d name password ip now in
    loginAttempts (fst r)
    = loginAttempts d
      ++ [ {| attempt_username := name; ipAddress := ip;
              successful := valid (snd r); attemptedAt := now |} ] /\
    (valid (snd r) = false -> adminUsers (fst r) = adminUsers d) /\
    (valid (snd r) = true ->
     adminUsers (fst r)
     = map (fun u => if String.eqb (admin_username u) name
                     then touch now u else u) (adminUsers d)) /\
    (valid (snd r) = true <->
     isRateLimited d name now = false /\
     exists u, getAdminUserByUsername d name = Some u /\
               isActive u = true /\
               bcrypt_compare password (passwordHash u) = true).
Proof. exact validateCredentials_cases. Qed.

Lemma locked_out d name password ip now :
  isRateLimited d name now = true ->
  let r := validateCredentials bcrypt_compare d name password ip now in
  snd r = {| valid := false; message := Some too_many_attempts |} /\
  adminUsers (fst r) = adminUsers d /\
  loginAttempts (fst r) = loginAttempts d ++ [ failed_attempt name ip now ] /\
  isRateLimited (fst r) name now = true.
Proof.
  intros Hlim. unfold validateCredentials. rewrite Hlim. cbn.
  repeat split.
  exact (isRateLimited_grows d name now (failed_attempt name ip now)
           (adminUsers d) Hlim).
Qed.

(** X23: a rate-limited name is rejected whatever the password, with the
    "too many attempts" message; the rejected call is itself recorded as a
    failure, so the name is still rate limited after it. *)
Theorem rate_limited_login_is_rejected :
  forall d name password ip now,
    isRateLimited d name now = true ->
    let r := validateCredentials bcrypt_compare d name password ip now in
    snd r = {| valid := false; message := Some too_many_attempts |} /\
    adminUsers (fst r) = adminUsers d /\
    loginAttempts (fst r) = loginAttempts d ++ [ failed_attempt name ip now ] /\
    isRateLimited (fst r) name now = true.
Proof. exact locked_out. Qed.

Lemma try_passwords_wrong d name ip tries :
  (forall try u, In try tries ->
     getAdminUserByUsername d name = Some u ->
     bcrypt_compare (fst try) (passwordHash u) = false) ->
  adminUsers (try_passwords bcrypt_compare d name ip tries) = adminUsers d /\
  loginAttempts (try_passwords bcrypt_compare d name ip tries)
  = loginAttempts d
    ++ map (fun try => failed_attempt name ip (snd try)) tries.
Proof.
  unfold try_passwords. revert d.
  induction tries as [|try tries IH]; intros d Hwrong; simpl.
  - now rewrite app_nil_r.
  - destruct (validateCredentials_cases d name (fst try) ip (snd try))
      as (Hlog & Hkeep & _ & Hiff).
    set (r := validateCredentials bcrypt_compare d name (fst try) ip (snd try))
      in *.
    assert (Hv : valid (snd r) = false).
    { destruct (valid (snd r)) eqn:E; [|reflexivity].
      destruct Hiff as [Hiff _].
      destruct (Hiff eq_refl) as (_ & u & Hu & _ & Hpw).
      rewrite (Hwrong try u (or_introl eq_refl) Hu) in Hpw. discriminate. }
    specialize (Hkeep Hv). rewrite Hv in Hlog.
    destruct (IH (fst r)) as (IHa & IHl).
    + intros try' u Hin Hu. apply Hwrong; [now right|].
      unfold getAdminUserByUsername in *. now rewrite <- Hkeep.
    + split; [congruence|].
      rewrite IHl, Hlog, <- app_assoc. reflexivity.
Qed.

Lemma recent_failures_count name ip now (tries : list (string * Z)) :
  (forall try, In try tries -> now - 15 * 60 * 1000 <= snd try) ->
  List.length
    (filter (fun a => negb (successful a))
       (filter (fun a => String.eqb (attempt_username a) name
                         && (now - 15 * 60 * 1000 <=? attemptedAt a))
          (map (fun try => failed_attempt name ip (snd try)) tries)))
  = List.length tries.
Proof.
  induction tries as [|try tries IH]; intros Hrecent; [reflexivity|].
  change (map _ (try :: tries))
    with ([ failed_attempt name ip (snd try) ]
          ++ map (fun try => failed_attempt name ip (snd try)) tries).
  rewrite !filter_app, length_app, failed_attempt_counts, IH.
  - reflexivity.
  - intros t Ht. apply Hrecent. now right.
  - apply Hrecent. now left.
Qed.

(** X24: five wrong passwords lock the name.  After five or more attempts
    with wrong passwords in the fifteen minutes before [now], the next call
    at [now] is rejected as rate limited, with the right password too. *)
Theorem five_wrong_passwords_lock_the_name :
  forall d name ip tries password now,
    (5 <= List.length tries)%nat ->
    (forall try, In try tries -> now - 15 * 60 * 1000 <= snd try) ->
    (forall try u, In try tries ->
       getAdminUserByUsername d name = Some u ->
       bcrypt_compare (fst try) (passwordHash u) = false) ->
    let d' := try_passwords bcrypt_compare d name ip tries in
    isRateLimited d' name now = true /\
    snd (validateCredentials bcrypt_compare d' name password ip now)
    = {| valid := false; message := Some too_many_attempts |}.
Proof.
  intros d name ip tries password now Hfive Hrecent Hwrong d'.
  assert (Hlim : isRateLimited d' name now = true).
  { destruct (try_passwords_wrong d name ip tries Hwrong) as (_ & Hlog).
    fold d' in Hlog.
    rewrite isRateLimited_count, Hlog, !filter_app, length_app.
    rewrite recent_failures_count by assumption.
    apply Nat.leb_le. lia. }
  split; [exact Hlim|].
  now destruct (locked_out d' name password ip now Hlim) as (H & _).
Qed.

End CredentialFacts.

Section CredentialWitnesses.

Import Credentials AccountExamples.

Lemma validateCredentials_witness :
  valid (snd (validateCredentials plain_compare accounts "admin" "s3cret"
                None 1000)) = true.
Proof.
  destruct (validateCredentials_answer_and_record plain_compare
              accounts "admin" "s3cret" None 1000)
    as (_ & _ & _ & Hiff).
  apply Hiff. split; [reflexivity|]. exists admin. repeat split.
Defined.

Lemma rate_limited_login_witness :
  snd (validateCredentials plain_compare locked "admin" "s3cret" None 6000)
  = {| valid := false; message := Some too_many_attempts |}.
Proof.
  destruct (rate_limited_login_is_rejected plain_compare
              locked "admin" "s3cret" None 6000)
    as (H & _); [reflexivity|exact H].
Defined.

Lemma five_wrong_passwords_witness :
  snd (validateCredentials plain_compare
         (try_passwords plain_compare accounts "admin" None guesses)
         "admin" "s3cret" None 6000)
  = {| valid := false; message := Some too_many_attempts |}.
Proof.
  destruct (five_wrong_passwords_lock_the_name plain_compare
              accounts "admin" None guesses "s3cret" 6000)
    as (_ & H).
  - simpl. lia.
  - intros try [<-|[<-|[<-|[<-|[<-|[]]]]]]; simpl; lia.
  - intros try u [<-|[<-|[<-|[<-|[<-|[]]]]]] [= <-]; reflexivity.
  - exact H.
Defined.

End CredentialWitnesses.

Section LoginFacts.

Import Credentials.

Variable bcrypt_compare : string -> string -> bool.

Lemma missing_false field :
  missing field = false ->
  exists v, field = Some v /\ v <> "" /\ or_default field "" = v.
Proof.
  destruct field as [v|]; [|discriminate]. simpl. intros H.
  exists v. repeat split. intros ->. discriminate.
Qed.

Lemma signed_token_passes st name issued t :
  name <> "" -> t < issued + 24 * 60 * 60 ->
  requireAuth st (Some (Auth.createSession st name issued)) t = Next name.
Proof.
  intros Hname Ht.
  unfold requireAuth, Auth.createSession, Auth.generateToken, Auth.jwt_sign,
    Auth.validateSession, Auth.verifyToken, Auth.jwt_verify,
    Auth.JWT_EXPIRES_IN.
  rewrite String.eqb_refl. cbn [negb Auth.exp Auth.username].
  destruct (Z.leb_spec (issued + 24 * 60 * 60) t) as [H|H]; [lia|].
  cbn [Auth.username].
  destruct (String.eqb_spec name ""); [contradiction|reflexivity].
Qed.

Lemma rejection_has_message d name password ip now :
  let r := validateCredentials bcrypt_compare d name password ip now in
  valid (snd r) = false ->
  exists text, message (snd r) = Some text /\ text <> "".
Proof.
  unfold validateCredentials.
  destruct (isRateLimited d name now); cbn;
    [intros _; eexists; split; [reflexivity|discriminate]|].
  destruct (getAdminUserByUsername d name) as [u|]; cbn;
    [|intros _; eexists; split; [reflexivity|discriminate]].
  destruct (isActive u); cbn;
    [|intros _; eexists; split; [reflexivity|discriminate]].
  destruct (bcrypt_compare password (passwordHash u)); cbn;
    [discriminate|intros _; eexists; split; [reflexivity|discriminate]].
Qed.

Lemma present_not_missing v : v <> "" -> missing (Some v) = false.
Proof. intros H. cbn. now apply String.eqb_neq. Qed.

(** X25: POST /api/auth/login.  A request without a user name or without a
    password is answered 400 and nothing is recorded.  Any other request
    gets the answer of the password check, and what the check records is
    kept: 401 with the check's message when it fails; when it succeeds, a
    token for the given name, stamped with the clock's second, and the name;
    [requireAuth] lets that token through as that user until 24 hours after
    the login. *)
Theorem login_issues_a_working_token :
  forall st d name password ip now,
    let r := login bcrypt_compare st d name password ip now in
    (missing name || missing password = true ->
     r = (d, LoginRejected 400 "Username and password are required")) /\
    (forall user pw,
       name = Some user -> password = Some pw -> user <> "" -> pw <> "" ->
       let checked := validateCredentials bcrypt_compare d user pw ip now in
       let sessionId := Auth.createSession st user (now / 1000) in
       fst r = fst checked /\
       (valid (snd checked) = false ->
        exists text,
          message (snd checked) = Some text /\
          snd r = LoginRejected 401 text) /\
       (valid (snd checked) = true ->
        snd r = LoggedIn sessionId user /\
        forall t, t < now / 1000 + 24 * 60 * 60 ->
                  requireAuth st (Some sessionId) t = Next user)).
Proof.
  intros st d name password ip now r. subst r. split.
  - intros Hmiss. unfold login. now rewrite Hmiss.
  - intros user pw -> -> Huser Hpw checked sessionId.
    unfold login.
    rewrite (present_not_missing user Huser), (present_not_missing pw Hpw).
    cbn [orb or_default].
    pose proof (rejection_has_message d user pw ip now) as Hmsg.
    cbv zeta in Hmsg. fold checked in Hmsg |- *.
    destruct checked as [d' result]. cbn [fst snd] in *.
    destruct (valid result) eqn:Hv; cbn [negb fst snd].
    + split; [reflexivity|]. split; [discriminate|].
      intros _. split; [reflexivity|].
      intros t Ht. now apply signed_token_passes.
    + split; [reflexivity|]. split; [|discriminate].
      intros _. destruct (Hmsg eq_refl) as (text & Htext & Hne).
      exists text. split; [exact Htext|]. rewrite Htext.
      apply String.eqb_neq in Hne. now rewrite Hne.
Qed.

End LoginFacts.

Section LoginWitness.

Import Credentials AccountExamples.

Lemma login_witness :
  login plain_compare secret accounts None (Some "s3cret") None 1000
  = (accounts, LoginRejected 400 "Username and password are required") /\
  snd (login plain_compare secret accounts (Some "admin") (Some "wrong")
         None 1000)
  = LoginRejected 401 "Invalid credentials" /\
  snd (login plain_compare secret accounts (Some "admin") (Some "s3cret")
         None 1000)
  = LoggedIn (Auth.createSession secret "admin" 1) "admin" /\
  requireAuth secret (Some (Auth.createSession secret "admin" 1)) 86400
  = Next "admin".
Proof.
  split; [|split].
  - destruct (login_issues_a_working_token plain_compare
                secret accounts None (Some "s3cret") None 1000)
      as (H & _).
    apply H. reflexivity.
  - destruct (login_issues_a_working_token plain_compare
                secret accounts (Some "admin") (Some "wrong") None 1000)
      as (_ & H).
    destruct (H "admin" "wrong" eq_refl eq_refl)
      as (_ & Hfail & _); [discriminate|discriminate|].
    destruct (Hfail eq_refl) as (text & Htext & Hr).
    rewrite Hr. injection Htext as <-. reflexivity.
  - destruct (login_issues_a_working_token plain_compare
                secret accounts (Some "admin") (Some "s3cret") None 1000)
      as (_ & H).
    destruct (H "admin" "s3cret" eq_refl eq_refl)
      as (_ & _ & Hok); [discriminate|discriminate|].
    destruct (Hok eq_refl) as (Hr & Hauth).
    split; [exact Hr|]. apply Hauth. reflexivity.
Defined.

End LoginWitness.

(** ** The in-memory session store *)

Section SessionStoreFacts.

Import SessionStore.

Lemma Map_get_set_eq sessionId v sessions :
  Map_get sessionId (Map_set sessionId v sessions) = Some v.
Proof.
  unfold Map_get. induction sessions as [|[k w] rest IH]; simpl.
  - now rewrite String.eqb_refl.
  - destruct (String.eqb k sessionId) eqn:E; simpl; rewrite E; auto.
Qed.

Lemma Map_get_set_ne sessionId other v sessions :
  other <> sessionId ->
  Map_get other (Map_set sessionId v sessions) = Map_get other sessions.
Proof.
  intros Hne. unfold Map_get.
  induction sessions as [|[k w] rest IH]; simpl.
  - destruct (String.eqb_spec sessionId other); [congruence|reflexivity].
  - destruct (String.eqb_spec k sessionId) as [E|E]; simpl.
    + destruct (String.eqb_spec k other); [congruence|reflexivity].
    + destruct (String.eqb k other); [reflexivity|exact IH].
Qed.

Lemma Map_get_delete_eq sessionId sessions :
  Map_get sessionId (Map_delete sessionId sessions) = None.
Proof.
  unfold Map_get, Map_delete.
  induction sessions as [|[k w] rest IH]; simpl; [reflexivity|].
  destruct (String.eqb k sessionId) eqn:E; simpl; [exact IH|].
  now rewrite E.
Qed.

Lemma Map_get_delete_ne sessionId other sessions :
  other <> sessionId ->
  Map_get other (Map_delete sessionId sessions) = Map_get other sessions.
Proof.
  intros Hne. unfold Map_get, Map_delete.
  induction sessions as [|[k w] rest IH]; simpl; [reflexivity|].
  destruct (String.eqb_spec k sessionId) as [E|E]; simpl.
  - destruct (String.eqb_spec k other); [congruence|exact IH].
  - destruct (String.eqb k other); [reflexivity|exact IH].
Qed.

(** X26: a session that was created validates to its user name at every
    clock reading up to and including 24 hours after its creation, and
    validating it changes nothing; creating it does not change what any
    other session identifier validates to. *)
Theorem created_session_validates :
  forall sessions name sessionId now,
    let created := fst (createSession sessions name sessionId now) in
    snd (createSession sessions name sessionId now) = sessionId /\
    (forall t, t <= now + 24 * 60 * 60 * 1000 ->
       validateSession created sessionId t = (created, Some name)) /\
    (forall other t, other <> sessionId ->
       snd (validateSession created other t)
       = snd (validateSession sessions other t)).
Proof.
  intros sessions name sessionId now created. split; [reflexivity|]. split.
  - intros t Ht. unfold validateSession. subst created.
    unfold createSession. cbn [fst]. rewrite Map_get_set_eq.
    cbn [expiresAt session_username].
    destruct (Z.ltb_spec (now + 24 * 60 * 60 * 1000) t); [lia|reflexivity].
  - intros other t Hne. unfold validateSession. subst created.
    unfold createSession. cbn [fst]. rewrite Map_get_set_ne by assumption.
    destruct (Map_get other sessions) as [s|]; [|reflexivity].
    now destruct (expiresAt s <? t).
Qed.

Lemma created_session_witness :
  validateSession (fst (createSession [] "admin" "k3" 1000)) "k3" 86401000
  = (fst (createSession [] "admin" "k3" 1000), Some "admin").
Proof.
  destruct (created_session_validates [] "admin" "k3" 1000) as (_ & H & _).
  apply H. lia.
Defined.

(** X27: a session ends at logout and at expiry.  After [deleteSession] the
    identifier validates to nothing; a validation later than 24 hours after
    the creation answers nothing and removes the session, so that the
    identifier validates to nothing from then on whatever the clock says;
    either way every other session is left as it was. *)
Theorem session_ends_at_logout_and_at_expiry :
  forall sessions name sessionId now,
    let created := fst (createSession sessions name sessionId now) in
    (forall t,
       validateSession (deleteSession created sessionId) sessionId t
       = (deleteSession created sessionId, None)) /\
    (forall t, now + 24 * 60 * 60 * 1000 < t ->
       validateSession created sessionId t
       = (deleteSession created sessionId, None)) /\
    (forall other, other <> sessionId ->
       Map_get other (deleteSession created sessionId)
       = Map_get other sessions).
Proof.
  intros sessions name sessionId now created. repeat split.
  - intros t. unfold validateSession, deleteSession.
    now rewrite Map_get_delete_eq.
  - intros t Ht. unfold validateSession, deleteSession. subst created.
    unfold createSession. cbn [fst]. rewrite Map_get_set_eq.
    cbn [expiresAt].
    destruct (Z.ltb_spec (now + 24 * 60 * 60 * 1000) t); [reflexivity|lia].
  - intros other Hne. unfold deleteSession. subst created.
    unfold createSession. cbn [fst].
    rewrite Map_get_delete_ne, Map_get_set_ne by assumption. reflexivity.
Qed.

Lemma session_ends_witness :
  validateSession (fst (createSession [] "admin" "k3" 1000)) "k3" 86401001
  = ([], None).
Proof.
  destruct (session_ends_at_logout_and_at_expiry [] "admin" "k3" 1000)
    as (_ & H & _).
  rewrite H by lia. reflexivity.
Defined.

End SessionStoreFacts.

(** ** api/index.ts: the serverless entry points *)

Section ServerlessFacts.

Import Serverless.

Lemma getApp_ready s o :
  app s <> None -> initialized s = true ->
  createAppFn s = true -> initializeAppForServerlessFn s = true ->
  exists a, app s = Some a /\ getApp s o = (s, Ok a).
Proof.
  intros Happ Hinit Hc Hi. destruct (app s) as [a|] eqn:E; [|congruence].
  exists a. split; [reflexivity|].
  unfold getApp. rewrite Hc, Hi. cbn. rewrite E, Hinit. reflexivity.
Qed.

Lemma getApp_Ok s o a :
  snd (getApp s o) = Ok a ->
  let s' := fst (getApp s o) in
  app s' = Some a /\ initialized s' = true /\
  createAppFn s' = true /\ initializeAppForServerlessFn s' = true.
Proof.
  unfold getApp.
  destruct (createAppFn s) eqn:Hc, (initializeAppForServerlessFn s) eqn:Hi,
    (import_throws o), (app s) as [n|] eqn:Happ, (createApp_throws o),
    (initialized s) eqn:Hinit, (initialize_throws o);
    cbn; rewrite ?Happ, ?Hinit, ?Hc, ?Hi; cbn;
    try discriminate; intros [= <-]; auto.
Qed.

Lemma getApp_keeps_app s o n :
  app s = Some n ->
  app (fst (getApp s o)) = Some n /\
  creations (fst (getApp s o)) = creations s.
Proof.
  intros Happ. unfold getApp.
  destruct (createAppFn s) eqn:Hc, (initializeAppForServerlessFn s) eqn:Hi,
    (import_throws o), (initialized s) eqn:Hinit, (initialize_throws o);
    cbn; rewrite ?Happ, ?Hinit; cbn; rewrite ?Happ; auto.
Qed.

Lemma serve_ready s requests :
  app s <> None -> initialized s = true ->
  createAppFn s = true -> initializeAppForServerlessFn s = true ->
  serve s requests = s.
Proof.
  intros Happ Hinit Hc Hi. unfold serve.
  induction requests as [|o requests IH]; simpl; [reflexivity|].
  destruct (getApp_ready s o Happ Hinit Hc Hi) as (a & _ & ->). exact IH.
Qed.

(** X28: the lazily importing entry point keeps one app.  Once a request
    got the app, every later request gets the same app and calls neither
    [import] nor [createAppFn] nor [initializeAppForServerlessFn] again,
    whatever those would do; and an app that was created is kept and no
    second one is created, also when its initialisation throws. *)
Theorem getApp_keeps_one_app :
  forall s o,
    (forall a,
       snd (getApp s o) = Ok a ->
       forall requests o',
         getApp (serve (fst (getApp s o)) requests) o'
         = (fst (getApp s o), Ok a)) /\
    (forall n,
       app s = Some n ->
       forall requests,
         app (serve s requests) = Some n /\
         creations (serve s requests) = creations s).
Proof.
  intros s o. split.
  - intros a Hok requests o'.
    destruct (getApp_Ok s o a Hok) as (Happ & Hinit & Hc & Hi).
    assert (Hne : app (fst (getApp s o)) <> None) by congruence.
    rewrite serve_ready by assumption.
    destruct (getApp_ready (fst (getApp s o)) o' Hne Hinit Hc Hi)
      as (a' & Ha' & ->).
    congruence.
  - intros n Happ requests. revert s Happ. unfold serve.
    induction requests as [|r requests IH]; intros s Happ; simpl; [auto|].
    destruct (getApp_keeps_app s r n Happ) as (H1 & H2).
    destruct (IH _ H1) as (H3 & H4). split; congruence.
Qed.

Lemma getApp_keeps_one_app_witness :
  let throws := {| import_throws := false; createApp_throws := false;
                   initialize_throws := true |} in
  let fine := {| import_throws := false; createApp_throws := false;
                 initialize_throws := false |} in
  snd (getApp (serve cold [ throws; throws ]) fine) = Ok 1%nat.
Proof.
  intros throws fine.
  destruct (getApp_keeps_one_app (fst (getApp cold throws)) throws)
    as (_ & Hkeep).
  destruct (Hkeep 1%nat eq_refl [ throws ]) as (Happ & _).
  change (serve (fst (getApp cold throws)) [ throws ])
    with (serve cold [ throws; throws ]) in Happ.
  unfold getApp. rewrite Happ. reflexivity.
Defined.

Lemma getHandler_set s o h :
  handler s = Some h -> getHandler s o = (s, Ok h).
Proof. intros H. unfold getHandler. now rewrite H. Qed.

Lemma serve_wrapped_app s requests o :
  serve_wrapped s (requests ++ [ o ])
  = fst (getHandler (serve_wrapped s requests) o).
Proof. unfold serve_wrapped. now rewrite fold_left_app. Qed.

(** X29: the statically importing entry point sets [handler] only after
    the app was created and initialised.  Until one request gets that far,
    every request creates a new app, so that as many apps were created as
    requests were made; the handler, once set, is that of the app created
    last and serves every later request without another app being
    created. *)
Theorem getHandler_creates_an_app_per_failed_request :
  forall requests,
    let s := serve_wrapped unwrapped requests in
    match handler s with
    | None => apps_created s = List.length requests
    | Some h =>
        h = apps_created s /\
        (apps_created s <= List.length requests)%nat /\
        forall later o,
          getHandler (serve_wrapped s later) o = (s, Ok h)
    end.
Proof.
  intros requests.
  induction requests as [|o requests IH] using rev_ind; [reflexivity|].
  cbv zeta in *. rewrite serve_wrapped_app, length_app. simpl.
  set (s := serve_wrapped unwrapped requests) in *.
  destruct (handler s) as [h|] eqn:Hh.
  - destruct IH as (-> & Hle & Hlater).
    rewrite (getHandler_set s o _ Hh). cbn [fst]. rewrite Hh.
    repeat split; auto. lia.
  - unfold getHandler. rewrite Hh.
    destruct (createApp_throws o); cbn; [lia|].
    destruct (initialize_throws o); cbn; [lia|].
    repeat split; try lia.
    intros later o'.
    set (s' := {| handler := Some (S (apps_created s));
                  apps_created := S (apps_created s);
                  apps_initialized := S (apps_initialized s) |}).
    assert (Hstay : serve_wrapped s' later = s').
    { unfold serve_wrapped.
      induction later as [|r later IHl]; simpl; [reflexivity|].
      exact IHl. }
    rewrite Hstay. reflexivity.
Qed.

End ServerlessFacts.
